(** * ML Environment Doctor: a shallow embedding of the diagnostic core

    The development follows the Python package [mlenvdoctor] module by
    module: [validators.py], [retry.py], [parallel.py], [utils.py],
    [diagnose.py], [export.py], [cli.py] and [config.py].  Python values
    are embedded as follows.

    - A Python [str] is a list of Unicode code points ([pystr]).
    - A raised exception is a value of [exn]; a call that may raise
      returns a [result].
    - A function that reads or writes the console, the file system or
      the clock is a state transformer over [World].
    - What the operating system, the installed libraries and the thread
      scheduler decide is an explicit argument of the model. *)

From Stdlib Require Import ZArith NArith QArith Qround List String Ascii DecimalString Lia
  Permutation.
From stdpp Require Import base option list gmap.

Set Warnings "-register-all".

Local Open Scope N_scope.

(** ** Python strings *)

Module PyStr.

Definition pystr := list N.

(** The code points of an ASCII literal. *)
Fixpoint str (s : string) : pystr :=
  match s with
  | EmptyString => []
  | String a s' => N_of_ascii a :: str s'
  end.

(** The double quote, line feed and carriage return characters. *)
Definition dq : N := 34.
Definition lf : N := 10.
Definition cr : N := 13.

Definition in_range (lo hi c : N) : bool := (lo <=? c) && (c <=? hi).

(** [str.isspace] on one code point: the characters [str.split()] and
    [str.strip()] treat as whitespace. *)
Definition is_space (c : N) : bool :=
  in_range 9 13 c || in_range 28 32 c || (c =? 133) || (c =? 160)
  || (c =? 5760) || in_range 8192 8202 c || (c =? 8232) || (c =? 8233)
  || (c =? 8239) || (c =? 8287) || (c =? 12288).

Fixpoint take_while (p : N -> bool) (s : pystr) : pystr :=
  match s with
  | c :: s' => if p c then c :: take_while p s' else []
  | [] => []
  end.

Fixpoint drop_while (p : N -> bool) (s : pystr) : pystr :=
  match s with
  | c :: s' => if p c then drop_while p s' else s
  | [] => []
  end.

(** [s.strip()] *)
Definition lstrip (s : pystr) : pystr := drop_while is_space s.
Definition rstrip (s : pystr) : pystr := rev (drop_while is_space (rev s)).
Definition strip (s : pystr) : pystr := rstrip (lstrip s).

(** [s.split()]: the maximal runs of non-whitespace characters.  The
    accumulator [cur] holds the token being read, reversed. *)
Fixpoint split_ws_aux (cur : pystr) (s : pystr) : list pystr :=
  match s with
  | [] => match cur with [] => [] | _ => [rev cur] end
  | c :: s' =>
      if is_space c
      then match cur with
           | [] => split_ws_aux [] s'
           | _ => rev cur :: split_ws_aux [] s'
           end
      else split_ws_aux (c :: cur) s'
  end.

Definition split_ws (s : pystr) : list pystr := split_ws_aux [] s.

(** [s.startswith(p)] *)
Fixpoint starts_with (p s : pystr) : bool :=
  match p, s with
  | [], _ => true
  | _ :: _, [] => false
  | a :: p', b :: s' => (a =? b) && starts_with p' s'
  end.

(** [p in s] for two strings. *)
Fixpoint contains (p s : pystr) : bool :=
  starts_with p s ||
  match s with
  | [] => false
  | _ :: s' => contains p s'
  end.

(** [s.replace(old, new)] for a non-empty [old]: occurrences are replaced
    from left to right, without overlap.  [fuel] bounds the number of
    characters still to read. *)
Fixpoint replace_aux (fuel : nat) (old new s : pystr) : pystr :=
  match fuel with
  | O => s
  | S fuel' =>
      match s with
      | [] => []
      | c :: s' =>
          if starts_with old s
          then new ++ replace_aux fuel' old new (drop (length old) s)
          else c :: replace_aux fuel' old new s'
      end
  end.

Definition replace (old new s : pystr) : pystr :=
  replace_aux (length s) old new s.

(** Case mapping.  The embedding maps the ASCII letters and leaves every
    other code point alone, where Python follows the Unicode mappings;
    the program applies these methods to function names, to model names
    already checked against an ASCII character class, and to
    severities, which are ASCII in every record the program makes.  The
    validators of the log level and of the stack name, which meet any
    string, take the Unicode mappings as given. *)
Definition is_upper (c : N) : bool := in_range 65 90 c.
Definition is_lower (c : N) : bool := in_range 97 122 c.
Definition lower_char (c : N) : N := if is_upper c then c + 32 else c.
Definition upper_char (c : N) : N := if is_lower c then c - 32 else c.
Definition lower (s : pystr) : pystr := map lower_char s.
Definition upper (s : pystr) : pystr := map upper_char s.

(** [s.title()]: the first cased character of every run of cased
    characters is upper-cased, the others lower-cased. *)
Fixpoint title_aux (previous_is_cased : bool) (s : pystr) : pystr :=
  match s with
  | [] => []
  | c :: s' =>
      let cased := is_upper c || is_lower c in
      (if previous_is_cased then lower_char c else upper_char c)
        :: title_aux cased s'
  end.

Definition title (s : pystr) : pystr := title_aux false s.

(** [sep.join(parts)] *)
Fixpoint join (sep : pystr) (parts : list pystr) : pystr :=
  match parts with
  | [] => []
  | [p] => p
  | p :: rest => p ++ sep ++ join sep rest
  end.

(** [str(n)] for a natural number, and a decimal zero-padded to [width]
    digits (the [%02d] of a format). *)
Definition of_nat (n : nat) : pystr :=
  str (NilEmpty.string_of_uint (Nat.to_uint n)).

Definition of_Z (z : Z) : pystr :=
  match z with
  | Zneg p => 45 :: of_nat (Pos.to_nat p)
  | _ => of_nat (Z.to_nat z)
  end.

Definition zero_pad (width : nat) (n : nat) : pystr :=
  let d := of_nat n in
  repeat 48 (width - length d) ++ d.

End PyStr.
Export PyStr.

(** ** Exceptions and results *)

Module Exc.

(** The exception classes the program raises or catches, with the
    built-in classes above them, and the error rich raises for a
    markup it cannot read. *)
Inductive exc_class :=
| BaseException
| KeyboardInterrupt
| SystemExit
| Exception
| ImportError
| ModuleNotFoundError
| OSError
| ConnectionError
| TimeoutError
| FileNotFoundError
| RuntimeError
| ValueError
| IndexError
| TypeError
| SubprocessError
| CalledProcessError
| TimeoutExpired
| MLEnvDoctorError
| DiagnosticError
| FixError
| DockerError
| GPUError
| ConfigurationError
| InstallationError
| ConsoleError
| MarkupError.

Definition exc_class_eqb (a b : exc_class) : bool :=
  match a, b with
  | BaseException, BaseException | KeyboardInterrupt, KeyboardInterrupt
  | SystemExit, SystemExit | Exception, Exception
  | ImportError, ImportError | ModuleNotFoundError, ModuleNotFoundError
  | OSError, OSError | ConnectionError, ConnectionError
  | TimeoutError, TimeoutError | FileNotFoundError, FileNotFoundError
  | RuntimeError, RuntimeError | ValueError, ValueError
  | IndexError, IndexError | TypeError, TypeError
  | SubprocessError, SubprocessError
  | CalledProcessError, CalledProcessError
  | TimeoutExpired, TimeoutExpired
  | MLEnvDoctorError, MLEnvDoctorError | DiagnosticError, DiagnosticError
  | FixError, FixError | DockerError, DockerError | GPUError, GPUError
  | ConfigurationError, ConfigurationError
  | InstallationError, InstallationError
  | ConsoleError, ConsoleError | MarkupError, MarkupError => true
  | _, _ => false
  end.

(** The base class of each class ([exceptions.py] for the program's
    own, [rich.errors] for the two of rich). *)
Definition base (c : exc_class) : option exc_class :=
  match c with
  | BaseException => None
  | KeyboardInterrupt | SystemExit | Exception => Some BaseException
  | ModuleNotFoundError => Some ImportError
  | ConnectionError | TimeoutError | FileNotFoundError => Some OSError
  | CalledProcessError | TimeoutExpired => Some SubprocessError
  | DiagnosticError | FixError | DockerError | GPUError
  | ConfigurationError | InstallationError => Some MLEnvDoctorError
  | MarkupError => Some ConsoleError
  | ImportError | OSError | RuntimeError | ValueError | IndexError
  | TypeError | SubprocessError | MLEnvDoctorError | ConsoleError => Some Exception
  end.

(** [issubclass(c, d)]; no class is more than four steps below
    [BaseException]. *)
Fixpoint issubclass_aux (depth : nat) (c d : exc_class) : bool :=
  exc_class_eqb c d ||
  match depth with
  | O => false
  | S depth' =>
      match base c with
      | Some b => issubclass_aux depth' b d
      | None => false
      end
  end.

Definition issubclass (c d : exc_class) : bool := issubclass_aux 4 c d.

(** An exception instance: its class, its message, the suggestion of an
    [MLEnvDoctorError] (empty for the other classes) and the exception it
    was raised [from]. *)
Inductive exn :=
| Exn (cls : exc_class) (message suggestion : pystr) (cause : option exn).

Definition exn_class (e : exn) : exc_class := let (c, _, _, _) := e in c.
Definition exn_message (e : exn) : pystr := let (_, m, _, _) := e in m.
Definition exn_suggestion (e : exn) : pystr := let (_, _, s, _) := e in s.
Definition exn_cause (e : exn) : option exn := let (_, _, _, c) := e in c.

(** [isinstance(e, c)] and [except (c1, ..., cn)]. *)
Definition isinstance (e : exn) (c : exc_class) : bool :=
  issubclass (exn_class e) c.

Definition caught_by (classes : list exc_class) (e : exn) : bool :=
  existsb (isinstance e) classes.

(** [MLEnvDoctorError.__str__]; the other classes print their message. *)
Definition suggestion_label : pystr :=
  [lf; 128161] ++ str " Suggestion: ".

Definition exn_str (e : exn) : pystr :=
  if isinstance e MLEnvDoctorError
  then match exn_suggestion e with
       | [] => exn_message e
       | s => exn_message e ++ suggestion_label ++ s
       end
  else exn_message e.

(** Raising a built-in exception with a message, and one of the
    program's exceptions with a message and a suggestion. *)
Definition builtin_error (c : exc_class) (message : pystr) : exn :=
  Exn c message [] None.

Definition doctor_error (c : exc_class) (message suggestion : pystr) : exn :=
  Exn c message suggestion None.

(** The outcome of a call: a returned value or a raised exception. *)
Inductive result (A : Type) :=
| Ok (a : A)
| Raise (e : exn).

Arguments Ok {A} a.
Arguments Raise {A} e.

#[global] Instance result_ret : MRet result := fun A a => Ok a.
#[global] Instance result_bind : MBind result := fun A B f r =>
  match r with
  | Ok a => f a
  | Raise e => Raise e
  end.

#[global] Instance result_fmap : FMap result := fun A B f r =>
  match r with
  | Ok a => Ok (f a)
  | Raise e => Raise e
  end.

Definition is_ok {A} (r : result A) : bool :=
  match r with Ok _ => true | Raise _ => false end.

End Exc.
Export Exc.

(** ** Dynamically typed arguments *)

(** The values a caller may pass where the validators test the type of
    their argument with [isinstance]. *)
Inductive pyval :=
| PNone
| PBool (b : bool)
| PInt (z : Z)
| PStr (s : pystr)
| PList (items : list pyval).

(** The truth value [not v] negates. *)
Definition truthy (v : pyval) : bool :=
  match v with
  | PNone => false
  | PBool b => b
  | PInt z => negb (z =? 0)%Z
  | PStr s => match s with [] => false | _ => true end
  | PList l => match l with [] => false | _ => true end
  end.

Definition is_str (v : pyval) : bool :=
  match v with PStr _ => true | _ => false end.

Definition is_list (v : pyval) : bool :=
  match v with PList _ => true | _ => false end.

(** ** validators.py *)

Module Validators.

(** The character class [[a-zA-Z0-9._-]]. *)
Definition model_name_char (c : N) : bool :=
  in_range 97 122 c || in_range 65 90 c || in_range 48 57 c
  || (c =? 46) || (c =? 95) || (c =? 45).

(** [re.match(r"^[a-zA-Z0-9._-]+$", s)]: one or more characters of the
    class, up to the end of the string; [$] also matches just before a
    line feed that ends the string. *)
Definition re_match_model_name (s : pystr) : bool :=
  match take_while model_name_char s, drop_while model_name_char s with
  | [], _ => false
  | _ :: _, [] => true
  | _ :: _, [c] => c =? lf
  | _ :: _, _ => false
  end.

Definition as_str (v : pyval) : pystr :=
  match v with PStr s => s | _ => [] end.

Definition validate_model_name (model_name : pyval) : result pystr :=
  if negb (truthy model_name) || negb (is_str model_name) then
    Raise (doctor_error ConfigurationError
             (str "Model name must be a non-empty string")
             (str "Use a valid model name like 'tinyllama', 'gpt2', or 'mistral-7b'"))
  else
    let model_name := strip (as_str model_name) in
    if negb (re_match_model_name model_name) then
      Raise (doctor_error ConfigurationError
               (str "Invalid model name: " ++ model_name)
               (str "Model name can only contain letters, numbers, dots, underscores, and hyphens"))
    else Ok (lower model_name).

Definition as_list (v : pyval) : list pyval :=
  match v with PList l => l | _ => [] end.

Definition dangerous_patterns : list pystr :=
  [str ";"; str "&&"; str "||"; str "`"; str "$("; str "<"; str ">"; str "|"].

(** The body of the loop [for arg in cmd] of [sanitize_command], with
    the list [sanitized] built so far. *)
Fixpoint sanitize_args (cmd sanitized : list pyval) : result (list pyval) :=
  match cmd with
  | [] => Ok sanitized
  | arg :: rest =>
      match arg with
      | PStr a =>
          match find (fun pattern => contains pattern a) dangerous_patterns with
          | Some pattern =>
              Raise (doctor_error ConfigurationError
                       (str "Dangerous pattern detected in command: " ++ pattern)
                       (str "Do not use shell operators in command arguments"))
          | None => sanitize_args rest (sanitized ++ [arg])
          end
      | _ =>
          Raise (doctor_error ConfigurationError
                   (str "All command arguments must be strings")
                   (str "Convert all arguments to strings"))
      end
  end.

Definition sanitize_command (cmd : pyval) : result pyval :=
  if negb (is_list cmd) || negb (truthy cmd) then
    Raise (doctor_error ConfigurationError
             (str "Command must be a non-empty list")
             (str "Provide command as a list of strings"))
  else
    PList <$> sanitize_args (as_list cmd) [].

(** [validate_timeout], on the values [run_command] is given: [None] or
    an integer. *)
Definition validate_timeout (timeout : option Z) (min_timeout max_timeout : Z)
  : result (option Z) :=
  match timeout with
  | None => Ok None
  | Some t =>
      if (t <? min_timeout)%Z then
        Raise (doctor_error ConfigurationError
                 (str "Timeout too small: " ++ of_Z t ++ str "s (minimum: "
                    ++ of_Z min_timeout ++ str "s)")
                 (str "Increase timeout to at least " ++ of_Z min_timeout
                    ++ str " seconds"))
      else if (max_timeout <? t)%Z then
        Raise (doctor_error ConfigurationError
                 (str "Timeout too large: " ++ of_Z t ++ str "s (maximum: "
                    ++ of_Z max_timeout ++ str "s)")
                 (str "Decrease timeout to at most " ++ of_Z max_timeout
                    ++ str " seconds"))
      else Ok (Some t)
  end.

(** [validate_log_level] and [validate_stack_name].  [str.upper] and
    [str.lower] follow the Unicode case mappings, [str(v)] renders a
    value that is not a string, and a set is iterated in an order of
    the interpreter's choosing: the four are given.
    - [str_upper s], [str_lower s]: [s.upper()], [s.lower()].
    - [str_of v]: [str(v)].
    - [set_order s]: the elements of [s] in iteration order. *)
Section CaseMapping.

Variable str_upper str_lower : pystr -> pystr.
Variable str_of : pyval -> pystr.
Variable set_order : gset pystr -> list pystr.

(** [f"{v}"] *)
Definition fmt (v : pyval) : pystr :=
  match v with
  | PStr s => s
  | _ => str_of v
  end.

Definition valid_levels : gset pystr :=
  {[ str "DEBUG"; str "INFO"; str "WARNING"; str "ERROR"; str "CRITICAL" ]}.

Definition validate_log_level (level : pyval) : result pystr :=
  let level_upper :=
    if is_str level then str_upper (as_str level) else str_upper (str_of level) in
  if negb (bool_decide (level_upper ∈ valid_levels)) then
    Raise (doctor_error ConfigurationError
             (str "Invalid log level: " ++ fmt level)
             (str "Use one of: " ++ join (str ", ") (set_order valid_levels)))
  else Ok level_upper.

Definition valid_stacks : gset pystr := {[ str "trl-peft"; str "minimal" ]}.

Definition validate_stack_name (stack : pyval) : result pystr :=
  let stack_lower :=
    if is_str stack then str_lower (as_str stack) else str_lower (str_of stack) in
  if negb (bool_decide (stack_lower ∈ valid_stacks)) then
    Raise (doctor_error ConfigurationError
             (str "Invalid stack: " ++ fmt stack)
             (str "Use one of: " ++ join (str ", ") (set_order valid_stacks)))
  else Ok stack_lower.

End CaseMapping.

End Validators.

(** ** retry.py *)

Module Retry.

Section Wrapper.

(** [T] is the type the wrapped function returns and [D] the type of
    delays (Python floats); [mul] is the multiplication of [D]. *)
Context {T D : Type}.
Variable mul : D -> D -> D.

(** [fmt_delay d] renders [f"{d:.1f}"], and [sleep d] is the outcome of
    [time.sleep(d)]. *)
Variable fmt_delay : D -> pystr.
Variable sleep : D -> result unit.

(** What the wrapper does, in order: it invokes the wrapped function,
    logs, calls the [on_retry] callback and sleeps. *)
Inductive event :=
| Invoked (attempt : nat)
| LogWarning (msg : pystr)
| OnRetry (e : exn) (attempt : nat)
| Slept (d : D)
| LogError (msg : pystr).

(** [max_attempts] is a natural number: for a negative [int],
    [range(1, max_attempts + 1)] is as empty as it is for 0. *)
Variable max_attempts : nat.
Variable delay backoff : D.
Variable exceptions : list exc_class.
Variable on_retry : option (exn -> nat -> result unit).

(** [func_name] is [func.__name__] and [func k] the outcome of the
    [k]-th invocation of the wrapped function, which may differ from one
    invocation to the next. *)
Variable func_name : pystr.
Variable func : nat -> result T.

Definition warning_message (attempt : nat) (e : exn) (current_delay : D) : pystr :=
  func_name ++ str " failed (attempt " ++ of_nat attempt ++ str "/"
    ++ of_nat max_attempts ++ str "): " ++ exn_str e ++ str ". "
    ++ str "Retrying in " ++ fmt_delay current_delay ++ str "s...".

Definition error_message (e : exn) : pystr :=
  func_name ++ str " failed after " ++ of_nat max_attempts
    ++ str " attempts: " ++ exn_str e.

(** The statements after the loop. *)
Definition all_attempts_failed (last_exception : option exn) : result T :=
  match last_exception with
  | Some last =>
      Raise (Exn DiagnosticError
               (func_name ++ str " failed after " ++ of_nat max_attempts
                  ++ str " attempts")
               (str "Last error: " ++ exn_str last)
               (Some last))
  | None => Raise (builtin_error RuntimeError (str "Retry logic failed unexpectedly"))
  end.

(** [if on_retry: on_retry(e, attempt)] *)
Definition call_on_retry (e : exn) (attempt : nat) : list event * result unit :=
  match on_retry with
  | Some callback => ([OnRetry e attempt], callback e attempt)
  | None => ([], Ok ())
  end.

(** The loop [for attempt in range(1, max_attempts + 1)], entered at
    [attempt] with [remaining] iterations to go. *)
Fixpoint retry_loop (remaining attempt : nat) (current_delay : D)
    (last_exception : option exn) : list event * result T :=
  match remaining with
  | O => ([], all_attempts_failed last_exception)
  | S remaining' =>
      match func attempt with
      | Ok v => ([Invoked attempt], Ok v)
      | Raise e =>
          if caught_by exceptions e then
            if (attempt <? max_attempts)%nat then
              let '(called, r1) := call_on_retry e attempt in
              let before :=
                Invoked attempt :: LogWarning (warning_message attempt e current_delay)
                  :: called in
              match r1 with
              | Raise e1 => (before, Raise e1)
              | Ok _ =>
                  match sleep current_delay with
                  | Raise e2 => (before ++ [Slept current_delay], Raise e2)
                  | Ok _ =>
                      let '(later, r) :=
                        retry_loop remaining' (S attempt)
                          (mul current_delay backoff) (Some e) in
                      (before ++ Slept current_delay :: later, r)
                  end
              end
            else
              let '(later, r) :=
                retry_loop remaining' (S attempt) current_delay (Some e) in
              (Invoked attempt :: LogError (error_message e) :: later, r)
          else ([Invoked attempt], Raise e)
      end
  end.

(** [retry(max_attempts, delay, backoff, exceptions, on_retry)(func)],
    called once. *)
Definition retry : list event * result T :=
  retry_loop max_attempts 1 delay None.

(** Readings of a run: how often the function was invoked, and the
    delays slept, in order. *)
Fixpoint invocations (events : list event) : nat :=
  match events with
  | [] => O
  | Invoked _ :: rest => S (invocations rest)
  | _ :: rest => invocations rest
  end.

Fixpoint sleeps (events : list event) : list D :=
  match events with
  | [] => []
  | Slept d :: rest => d :: sleeps rest
  | _ :: rest => sleeps rest
  end.

Definition was_invoked (attempt : nat) (events : list event) : Prop :=
  In (Invoked attempt) events.

(** [delay * backoff * ... * backoff], with [k] factors [backoff]. *)
Fixpoint backed_off (k : nat) : D :=
  match k with
  | O => delay
  | S k' => mul (backed_off k') backoff
  end.

End Wrapper.

Arguments event : clear implicits.

(** [retry_network(func)]: three attempts, a delay of [1.0] at first,
    multiplied by [2.0] after each failure, on [ConnectionError],
    [TimeoutError] and [OSError].  Delays are rationals here: both
    constants and their products are exact in floating point. *)
Definition retry_network {T : Type} (fmt_delay : Q -> pystr)
    (sleep : Q -> result unit) (func_name : pystr) (func : nat -> result T)
  : list (event Q) * result T :=
  retry Qmult fmt_delay sleep 3 1%Q 2%Q
    [ConnectionError; TimeoutError; OSError] None func_name func.

End Retry.

(** ** parallel.py *)

Module Parallel.

(** A log record: the level and the message. *)
Inductive level := ERROR | WARNING.
Definition log_record : Type := level * pystr.

Section Pool.

Context {T R : Type}.

(** [func item] is the outcome of the call [func(item)] made by a
    worker, and [show item] renders [f"{item}"]. *)
Variable func : T -> result R.
Variable show : T -> pystr.

(** The thread pool decides in which order the futures complete.
    [completion] lists the futures [as_completed] yields, in that order,
    each by the position of its item in [items_list]; when the timeout
    expires before every future has completed, the list stops short and
    [as_completed] raises [TimeoutError] after its last element. *)
Definition as_completed (items_list : list T) (completion : list nat)
  : list T * bool :=
  let yielded := omap (fun i => items_list !! i) completion in
  (yielded, (length yielded <? length items_list)%nat).

Definition unfinished (total : nat) (yielded : nat) : exn :=
  builtin_error TimeoutError
    (of_nat (total - yielded) ++ str " (of " ++ of_nat total
       ++ str ") futures unfinished").

(** [ThreadPoolExecutor(max_workers=max_workers)]: the constructor
    refuses a number of workers that is not positive. *)
Definition ThreadPoolExecutor (max_workers : Z) : result unit :=
  if (max_workers <=? 0)%Z
  then Raise (builtin_error ValueError (str "max_workers must be greater than 0"))
  else Ok ().

(** The loop [for future in as_completed(...)] of [run_parallel]: it
    appends to [results] and counts in [completed]. *)
Fixpoint run_parallel_loop (yielded : list T) (results : list R) (completed : nat)
  : list log_record * result (list R * nat) :=
  match yielded with
  | [] => ([], Ok (results, completed))
  | item :: rest =>
      match func item with
      | Ok result => run_parallel_loop rest (results ++ [result]) (S completed)
      | Raise e =>
          if isinstance e Exception
          then ([(ERROR, str "Error processing " ++ show item ++ str ": " ++ exn_str e)],
                Raise e)
          else ([], Raise e)
      end
  end.

Definition run_parallel (max_workers : Z) (items : list T) (completion : list nat)
  : list log_record * result (list R) :=
  let items_list := items in
  match items_list with
  | [] => ([], Ok [])
  | _ =>
      match ThreadPoolExecutor max_workers with
      | Raise e => ([], Raise e)
      | Ok _ =>
          let '(yielded, timed_out) := as_completed items_list completion in
          match run_parallel_loop yielded [] 0 with
          | (logged, Raise e) => (logged, Raise e)
          | (logged, Ok (results, completed)) =>
              if timed_out then
                (logged, Raise (unfinished (length items_list) (length yielded)))
              else if negb (completed =? length items_list)%nat then
                (logged,
                 Raise (builtin_error RuntimeError
                          (str "Only " ++ of_nat completed ++ str "/"
                             ++ of_nat (length items_list) ++ str " tasks completed")))
              else (logged, Ok results)
          end
      end
  end.

(** The loop of [run_parallel_with_results]. *)
Fixpoint run_parallel_with_results_loop (yielded : list T)
    (results : list (T * (R + exn))) : result (list (T * (R + exn))) :=
  match yielded with
  | [] => Ok results
  | item :: rest =>
      match func item with
      | Ok result =>
          run_parallel_with_results_loop rest (results ++ [(item, inl result)])
      | Raise e =>
          if isinstance e Exception
          then run_parallel_with_results_loop rest (results ++ [(item, inr e)])
          else Raise e
      end
  end.

Definition run_parallel_with_results (max_workers : Z) (items : list T)
    (completion : list nat) : result (list (T * (R + exn))) :=
  let items_list := items in
  match items_list with
  | [] => Ok []
  | _ =>
      _ ← ThreadPoolExecutor max_workers;
      let '(yielded, timed_out) := as_completed items_list completion in
      results ← run_parallel_with_results_loop yielded [];
      if timed_out
      then Raise (unfinished (length items_list) (length yielded))
      else Ok results
  end.

(** The pair [run_parallel_with_results] reports for an item. *)
Definition outcome_pair (item : T) : T * (R + exn) :=
  match func item with
  | Ok result => (item, inl result)
  | Raise e => (item, inr e)
  end.

(** Every exception [func] raises on one of [items] derives from
    [Exception]. *)
Definition raises_only_Exception (items : list T) : Prop :=
  forall item e, In item items -> func item = Raise e -> isinstance e Exception = true.

End Pool.

(** The timeout does not cut the run off: every future completes, once. *)
Definition all_complete {T} (items : list T) (completion : list nat) : Prop :=
  Permutation completion (seq 0 (length items)).

End Parallel.

(** ** icons.py *)

Module Icons.

Inductive icon_name := search | check | cross | warning | info | wrench | whale | test.

(** [get_icon]; [use_emojis] is the module's [_USE_EMOJIS].  The emoji
    strings are the code points of the source file. *)
Definition get_icon (use_emojis : bool) (icon : icon_name) : pystr :=
  if use_emojis then
    match icon with
    | search => [287; 376; 8221]
    | check => [226; 339; 8230]
    | cross => [226; 338]
    | warning => [226; 353; 160; 239; 184]
    | info => [226; 8222; 185; 239; 184]
    | wrench => [287; 376; 8221; 167]
    | whale => [287; 376; 179]
    | test => [287; 376; 167; 170]
    end
  else
    match icon with
    | search => str "[*]"
    | check => str "[OK]"
    | cross => str "[X]"
    | warning => str "[!]"
    | info => str "[i]"
    | wrench => str "[FIX]"
    | whale => str "[DOCKER]"
    | test => str "[TEST]"
    end.

Definition icon_search (use_emojis : bool) : pystr := get_icon use_emojis search.
Definition icon_check (use_emojis : bool) : pystr := get_icon use_emojis check.
Definition icon_cross (use_emojis : bool) : pystr := get_icon use_emojis cross.
Definition icon_warning (use_emojis : bool) : pystr := get_icon use_emojis warning.
Definition icon_info (use_emojis : bool) : pystr := get_icon use_emojis info.

End Icons.

(** ** The environment the probes observe *)

Module Host.

(** [subprocess.CompletedProcess]: the fields the program reads. *)
Record CompletedProcess := {
  returncode : Z;
  stdout : pystr;
  stderr : pystr;
}.

(** What [subprocess.run] does with a command: it returns, or raises.
    A [CalledProcessError] carries a return code and the captured
    output; [RunRaises] stands for every other exception. *)
Inductive run_outcome :=
| Completed (p : CompletedProcess)
| RunRaises (e : exn)
| RunCalledProcessError (e : exn) (p : CompletedProcess).

(** The [torch] module, when it can be imported: [__version__],
    [cuda.is_available()], [version.cuda], [cuda.device_count()],
    [cuda.get_device_name(0)] and [cuda.mem_get_info(0)]. *)
Record Torch := {
  torch_version : pystr;
  cuda_is_available : result bool;
  version_cuda : option pystr;
  cuda_device_count : result Z;
  cuda_get_device_name : result pystr;
  cuda_mem_get_info : result (Z * Z);
}.

(** Everything outside the program that a probe reads.
    - [win32]: [sys.platform == "win32"].
    - [subprocess_run cmd]: the outcome of running [cmd].
    - [torch]: the imported module, [None] after an [ImportError].
    - [import_module lib]: [importlib.import_module(lib)], returning the
      module's [__version__] attribute when it has one.
    - [version_lt a b]: importing [packaging.version] and evaluating
      [parse(a) < parse(b)].
    - [hf_cache_exists]: [get_home_config_dir()] followed by
      [cache_dir.exists()]; [disk_free]: [shutil.disk_usage(...).free].
    - [urlopen k]: the [k]-th call of [urllib.request.urlopen].
    - [print_markup text]: [console.print(text)] of rich, which reads
      [text] as markup: it prints, or raises (a [MarkupError] for a
      closing tag that matches no open tag).
    - [sleep d]: [time.sleep(d)].
    - [int_of_str]: the built-in [int] on a string; [fmt_1f] and
      [fmt_2f]: the formats [:.1f] and [:.2f]. *)
Record Env := {
  win32 : bool;
  subprocess_run : list pystr -> run_outcome;
  torch : option Torch;
  import_module : pystr -> result (option pystr);
  version_lt : pystr -> pystr -> result bool;
  hf_cache_exists : result bool;
  disk_free : result Z;
  urlopen : nat -> result unit;
  print_markup : pystr -> result unit;
  sleep : Q -> result unit;
  int_of_str : pystr -> result Z;
  fmt_1f : Q -> pystr;
  fmt_2f : Q -> pystr;
}.

End Host.
Export Host.

(** ** utils.py *)

Module Utils.

Import Validators.

Definition as_strs (cmd : list pyval) : list pystr := map as_str cmd.

(** [run_command(cmd, capture_output, check, timeout)].  A handler
    prints its message in red before it raises: the message holds the
    command, and the print raises in its turn when rich refuses it.
    The line it prints is not part of the value of the function. *)
Definition run_command (env : Env) (cmd : list pystr) (check : bool)
    (timeout : option Z) : result CompletedProcess :=
  cmd ← sanitize_command (PList (map PStr cmd));
  let cmd := as_strs (as_list cmd) in
  timeout ← validate_timeout timeout 1 3600;
  match subprocess_run env cmd with
  | Completed result => Ok result
  | RunRaises e =>
      if isinstance e TimeoutExpired then
        let error_msg :=
          str "Command timed out after "
            ++ match timeout with Some t => of_Z t | None => str "None" end
            ++ str "s: " ++ join (str " ") cmd in
        _ ← print_markup env (str "[red]" ++ error_msg ++ str "[/red]");
        Raise (Exn DiagnosticError error_msg
                 (str "Try increasing timeout or check if the command is hanging")
                 (Some e))
      else if isinstance e FileNotFoundError then
        let error_msg := str "Command not found: " ++ hd [] cmd in
        _ ← print_markup env (str "[red]" ++ error_msg ++ str "[/red]");
        Raise (Exn DiagnosticError error_msg
                 (str "Install " ++ hd [] cmd ++ str " or ensure it's in your PATH")
                 (Some e))
      else Raise e
  | RunCalledProcessError e p =>
      if negb check then Ok p else Raise e
  end.

(** [check_command_exists(cmd)] *)
Definition check_command_exists (env : Env) (cmd : pystr) : result bool :=
  match strip cmd with
  | [] => Ok false
  | _ =>
      let check_cmd := if win32 env then [str "where"; cmd] else [str "which"; cmd] in
      match subprocess_run env check_cmd with
      | Completed result => Ok (returncode result =? 0)%Z
      | RunRaises e | RunCalledProcessError e _ =>
          if isinstance e Exception then Ok false else Raise e
      end
  end.

(** [format_size(size_bytes)] *)
Fixpoint format_size_loop (env : Env) (units : list pystr) (size_bytes : Q) : pystr :=
  match units with
  | [] => fmt_2f env size_bytes ++ str " PB"
  | unit :: rest =>
      if negb (Qle_bool 1024 size_bytes)
      then fmt_2f env size_bytes ++ str " " ++ unit
      else format_size_loop env rest (size_bytes / 1024)%Q
  end.

Definition format_size (env : Env) (size_bytes : Z) : pystr :=
  format_size_loop env [str "B"; str "KB"; str "MB"; str "GB"; str "TB"]
    (inject_Z size_bytes).

End Utils.

(** ** diagnose.py: the record and the probes *)

Module Diagnose.

Import Validators Utils Icons.

(** [class DiagnosticIssue]; the field [fix] is [fix_] here. *)
Record DiagnosticIssue := {
  name : pystr;
  status : pystr;
  severity : pystr;
  fix_ : pystr;
  details : option pystr;
}.

(** [DiagnosticIssue.to_row]; [split()[0]] raises [IndexError] when the
    status holds no token. *)
Definition status_icon_map (use_emojis : bool) : gmap pystr pystr :=
  list_to_map
    [(str "PASS", icon_check use_emojis);
     (str "FAIL", icon_cross use_emojis);
     (str "WARN", icon_warning use_emojis);
     (str "INFO", icon_info use_emojis)].

Definition first_token (s : pystr) : result pystr :=
  match split_ws s with
  | token :: _ => Ok token
  | [] => Raise (builtin_error IndexError (str "list index out of range"))
  end.

Definition to_row (use_emojis : bool) (self : DiagnosticIssue)
  : result (pystr * pystr * pystr * pystr) :=
  token ← first_token (status self);
  let status_icon := default (str "?") (status_icon_map use_emojis !! token) in
  Ok (name self, status_icon ++ str " " ++ status self, upper (severity self), fix_ self).

(** [re.search(r"CUDA Version: (\d+\.\d+)", output)]: the group of the
    leftmost match.  The digits are the ASCII digits, those of the
    output of [nvidia-smi]; the class of the regular expression also
    holds the other decimal digits of Unicode. *)
Definition is_digit (c : N) : bool := in_range 48 57 c.

Definition cuda_version_at (s : pystr) : option pystr :=
  if starts_with (str "CUDA Version: ") s then
    let rest := drop 14 s in
    match take_while is_digit rest, drop_while is_digit rest with
    | (_ :: _) as major, 46 :: rest' =>
        match take_while is_digit rest' with
        | [] => None
        | minor => Some (major ++ [46] ++ minor)
        end
    | _, _ => None
    end
  else None.

Fixpoint search_cuda_version (s : pystr) : option pystr :=
  match cuda_version_at s with
  | Some v => Some v
  | None =>
      match s with
      | [] => None
      | _ :: s' => search_cuda_version s'
      end
  end.

(** A [try] block whose handler is [except Exception as e]: the handler
    runs on the issues appended before the exception was raised. *)
Definition except_Exception {A} (body : result A) (handler : exn -> result A)
  : result A :=
  match body with
  | Ok a => Ok a
  | Raise e => if isinstance e Exception then handler e else Raise e
  end.

Definition check_cuda_driver (env : Env) : result (list DiagnosticIssue) :=
  exists_ ← check_command_exists env (str "nvidia-smi");
  if negb exists_ then
    Ok [ {| name := str "NVIDIA GPU Driver";
            status := str "FAIL - nvidia-smi not found";
            severity := str "critical";
            fix_ := str "Install NVIDIA drivers: https://www.nvidia.com/Download/index.aspx";
            details := None |} ]
  else
    except_Exception
      (result ← run_command env [str "nvidia-smi"] false (Some 10%Z);
       if negb (returncode result =? 0)%Z then
         Ok [ {| name := str "NVIDIA GPU Driver";
                 status := str "FAIL - nvidia-smi error";
                 severity := str "critical";
                 fix_ := str "Install/reinstall NVIDIA drivers and reboot";
                 details := None |} ]
       else
         let output := stdout result in
         let cuda_version := default (str "unknown") (search_cuda_version output) in
         if contains (str "Driver Version") output then
           Ok [ {| name := str "NVIDIA GPU Driver";
                   status := str "PASS - CUDA " ++ cuda_version;
                   severity := str "info";
                   fix_ := [];
                   details := Some (str "CUDA Version: " ++ cuda_version) |} ]
         else
           Ok [ {| name := str "NVIDIA GPU Driver";
                   status := str "FAIL - No GPU detected";
                   severity := str "critical";
                   fix_ := str "Check GPU installation and drivers";
                   details := None |} ])
      (fun e =>
         Ok [ {| name := str "NVIDIA GPU Driver";
                 status := str "FAIL - " ++ exn_str e;
                 severity := str "critical";
                 fix_ := str "Install NVIDIA drivers and reboot";
                 details := None |} ]).

(** [s.split(".")] *)
Fixpoint split_dot_aux (cur : pystr) (s : pystr) : list pystr :=
  match s with
  | [] => [rev cur]
  | c :: s' =>
      if c =? 46 then rev cur :: split_dot_aux [] s'
      else split_dot_aux (c :: cur) s'
  end.

Definition split_dot (s : pystr) : list pystr := split_dot_aux [] s.

(** [torch_major, torch_minor = map(int, torch_version.split(".")[:2])] *)
Definition torch_major_minor (env : Env) (torch_version : pystr) : result (Z * Z) :=
  match take 2 (split_dot torch_version) with
  | [a; b] =>
      torch_major ← int_of_str env a;
      torch_minor ← int_of_str env b;
      Ok (torch_major, torch_minor)
  | [a] =>
      _ ← int_of_str env a;
      Raise (builtin_error ValueError
               (str "not enough values to unpack (expected 2, got 1)"))
  | _ =>
      Raise (builtin_error ValueError
               (str "not enough values to unpack (expected 2, got 0)"))
  end.

Definition or_unknown (s : option pystr) : pystr :=
  match s with
  | Some ((_ :: _) as v) => v
  | _ => str "unknown"
  end.

Definition check_pytorch_cuda (env : Env) : result (list DiagnosticIssue) :=
  match torch env with
  | None =>
      Ok [ {| name := str "PyTorch Installation";
              status := str "FAIL - Not installed";
              severity := str "critical";
              fix_ := str "pip install torch --index-url https://download.pytorch.org/whl/cu124";
              details := None |} ]
  | Some torch =>
      let failed (issues : list DiagnosticIssue) (e : exn) :=
        if isinstance e Exception then
          Ok (issues ++
              [ {| name := str "PyTorch CUDA";
                   status := str "FAIL - " ++ exn_str e;
                   severity := str "critical";
                   fix_ := str "Reinstall PyTorch with CUDA support";
                   details := None |} ])
        else Raise e in
      let torch_version := torch_version torch in
      match cuda_is_available torch with
      | Raise e => failed [] e
      | Ok true =>
          let cuda_version := or_unknown (version_cuda torch) in
          match cuda_device_count torch with
          | Raise e => failed [] e
          | Ok device_count =>
              match (if (0 <? device_count)%Z
                     then cuda_get_device_name torch
                     else Ok (str "unknown")) with
              | Raise e => failed [] e
              | Ok device_name =>
                  let issues :=
                    [ {| name := str "PyTorch CUDA";
                         status := str "PASS - CUDA " ++ cuda_version ++ str " ("
                                     ++ of_Z device_count ++ str " GPU(s))";
                         severity := str "info";
                         fix_ := [];
                         details := Some (str "PyTorch " ++ torch_version
                                            ++ str ", Device: " ++ device_name) |} ] in
                  match torch_major_minor env torch_version with
                  | Raise e => failed issues e
                  | Ok (torch_major, torch_minor) =>
                      if (torch_major <? 2)%Z
                         || ((torch_major =? 2)%Z && (torch_minor <? 4)%Z)
                      then
                        Ok (issues ++
                            [ {| name := str "PyTorch Version";
                                 status := str "WARN - Old version";
                                 severity := str "warning";
                                 fix_ := str "Upgrade: pip install torch>=2.4.0 --index-url https://download.pytorch.org/whl/cu124";
                                 details := Some (str "Current: " ++ torch_version
                                                    ++ str ", Recommended: >=2.4.0") |} ])
                      else Ok issues
                  end
              end
          end
      | Ok false =>
          Ok [ {| name := str "PyTorch CUDA";
                  status := str "FAIL - CUDA not available";
                  severity := str "critical";
                  fix_ := str "pip install torch --index-url https://download.pytorch.org/whl/cu124";
                  details := Some (str "PyTorch " ++ torch_version
                                     ++ str " installed but CUDA not available") |} ]
      end
  end.

(** The loop of [check_ml_libraries] over [required_libs], in the order
    of the dictionary. *)
Definition required_libs : list (pystr * pystr) :=
  [(str "transformers", str ">=4.44.0");
   (str "peft", str ">=0.12.0");
   (str "trl", str ">=0.9.0");
   (str "datasets", str ">=2.20.0");
   (str "accelerate", str ">=1.0.0")].

Definition check_library (env : Env) (lib_name version_req : pystr)
  : result (list DiagnosticIssue) :=
  match import_module env lib_name with
  | Ok module_version =>
      let version := default (str "unknown") module_version in
      let min_version := replace (str ">=") [] version_req in
      if negb (bool_decide (version = str "unknown")) then
        match version_lt env version min_version with
        | Ok true =>
            Ok [ {| name := lib_name;
                    status := str "WARN - Old version (" ++ version ++ str ")";
                    severity := str "warning";
                    fix_ := str "pip install " ++ lib_name ++ version_req;
                    details := Some (str "Current: " ++ version
                                       ++ str ", Required: " ++ version_req) |} ]
        | Ok false =>
            Ok [ {| name := lib_name;
                    status := str "PASS - " ++ version;
                    severity := str "info";
                    fix_ := [];
                    details := None |} ]
        | Raise e =>
            if caught_by [ImportError; Exception] e then
              Ok [ {| name := lib_name;
                      status := str "PASS - Installed";
                      severity := str "info";
                      fix_ := [];
                      details := Some (str "Version: " ++ version) |} ]
            else Raise e
        end
      else
        Ok [ {| name := lib_name;
                status := str "PASS - Installed";
                severity := str "info";
                fix_ := [];
                details := None |} ]
  | Raise e =>
      if isinstance e ImportError then
        Ok [ {| name := lib_name;
                status := str "FAIL - Not installed";
                severity := str "critical";
                fix_ := str "pip install " ++ lib_name ++ version_req;
                details := None |} ]
      else Raise e
  end.

Fixpoint check_libraries (env : Env) (libs : list (pystr * pystr))
    (issues : list DiagnosticIssue) : result (list DiagnosticIssue) :=
  match libs with
  | [] => Ok issues
  | (lib_name, version_req) :: rest =>
      found ← check_library env lib_name version_req;
      check_libraries env rest (issues ++ found)
  end.

Definition check_ml_libraries (env : Env) : result (list DiagnosticIssue) :=
  check_libraries env required_libs [].

(** [x / (1024**3)] *)
Definition gigabytes (x : Z) : Q := (inject_Z x / inject_Z (1024 ^ 3))%Q.

Definition check_gpu_memory (env : Env) : result (list DiagnosticIssue) :=
  match torch env with
  | None => Ok []
  | Some torch =>
      available ← cuda_is_available torch;
      if negb available then Ok []
      else
        except_Exception
          ('(free_mem, total_mem) ← cuda_mem_get_info torch;
           let free_gb := gigabytes free_mem in
           let total_gb := gigabytes total_mem in
           if negb (Qle_bool 8 free_gb) then
             Ok [ {| name := str "GPU Memory";
                     status := str "WARN - Low memory (" ++ fmt_1f env free_gb
                                 ++ str "GB free)";
                     severity := str "warning";
                     fix_ := str "Close other processes or use smaller models";
                     details := Some (str "Free: " ++ fmt_1f env free_gb
                                        ++ str "GB / Total: " ++ fmt_1f env total_gb
                                        ++ str "GB") |} ]
           else
             Ok [ {| name := str "GPU Memory";
                     status := str "PASS - " ++ fmt_1f env free_gb ++ str "GB free";
                     severity := str "info";
                     fix_ := [];
                     details := Some (str "Free: " ++ fmt_1f env free_gb
                                        ++ str "GB / Total: " ++ fmt_1f env total_gb
                                        ++ str "GB") |} ])
          (fun e =>
             Ok [ {| name := str "GPU Memory";
                     status := str "FAIL - " ++ exn_str e;
                     severity := str "warning";
                     fix_ := str "Check GPU access";
                     details := None |} ])
  end.

Definition check_disk_space (env : Env) : result (list DiagnosticIssue) :=
  except_Exception
    (cache_dir_exists ← hf_cache_exists env;
     if (cache_dir_exists : bool) then
       free ← disk_free env;
       let free_gb := gigabytes free in
       if negb (Qle_bool 50 free_gb) then
         Ok [ {| name := str "Disk Space";
                 status := str "WARN - Low space (" ++ fmt_1f env free_gb
                             ++ str "GB free)";
                 severity := str "warning";
                 fix_ := str "Free up disk space (HF cache needs ~50GB)";
                 details := Some (str "Free: " ++ format_size env free) |} ]
       else
         Ok [ {| name := str "Disk Space";
                 status := str "PASS - " ++ fmt_1f env free_gb ++ str "GB free";
                 severity := str "info";
                 fix_ := [];
                 details := Some (str "Free: " ++ format_size env free) |} ]
     else
       Ok [ {| name := str "Disk Space";
               status := str "INFO - Cache dir not found";
               severity := str "info";
               fix_ := [];
               details := None |} ])
    (fun e =>
       Ok [ {| name := str "Disk Space";
               status := str "WARN - " ++ exn_str e;
               severity := str "warning";
               fix_ := str "Check disk space manually";
               details := None |} ]).

Definition docker_gpu_command : list pystr :=
  [str "docker"; str "run"; str "--rm"; str "--gpus"; str "all";
   str "nvidia/cuda:12.4.0-base-ubuntu22.04"; str "nvidia-smi"].

Definition check_docker_gpu (env : Env) : result (list DiagnosticIssue) :=
  exists_ ← check_command_exists env (str "docker");
  if negb exists_ then
    Ok [ {| name := str "Docker GPU Support";
            status := str "INFO - Docker not installed";
            severity := str "info";
            fix_ := str "Install Docker for GPU containerization";
            details := None |} ]
  else
    except_Exception
      (result ← run_command env docker_gpu_command false (Some 30%Z);
       if (returncode result =? 0)%Z then
         Ok [ {| name := str "Docker GPU Support";
                 status := str "PASS - nvidia-docker working";
                 severity := str "info";
                 fix_ := [];
                 details := None |} ]
       else
         Ok [ {| name := str "Docker GPU Support";
                 status := str "FAIL - GPU not accessible in Docker";
                 severity := str "warning";
                 fix_ := str "Install nvidia-container-toolkit: https://docs.nvidia.com/datacenter/cloud-native/container-toolkit/install-guide.html";
                 details := None |} ])
      (fun _ =>
         Ok [ {| name := str "Docker GPU Support";
                 status := str "INFO - Docker GPU test skipped";
                 severity := str "info";
                 fix_ := str "Test manually: docker run --rm --gpus all nvidia/cuda:12.4.0-base-ubuntu22.04 nvidia-smi";
                 details := None |} ]).

(** The inner function [_check_connectivity], decorated with
    [retry_network], and the probe around it. *)
Definition _check_connectivity (env : Env) (attempt : nat) : result bool :=
  _ ← urlopen env attempt;
  Ok true.

Definition check_internet_connectivity (env : Env) : result (list DiagnosticIssue) :=
  except_Exception
    (_ ← snd (Retry.retry_network (fmt_1f env) (sleep env)
                (str "_check_connectivity") (_check_connectivity env));
     Ok [ {| name := str "Internet Connectivity";
             status := str "PASS - HF Hub accessible";
             severity := str "info";
             fix_ := [];
             details := None |} ])
    (fun e =>
       Ok [ {| name := str "Internet Connectivity";
               status := str "WARN - Cannot reach HF Hub";
               severity := str "warning";
               fix_ := str "Check internet connection and firewall settings";
               details := Some (exn_str e) |} ]).

(** *** diagnose_env *)

(** A probe as [diagnose_env] holds it: a function object with its
    [__name__], and the outcome of calling it. *)
Record check := {
  check_name : pystr;
  call : result (list DiagnosticIssue);
}.

Definition core_checks (env : Env) : list check :=
  [ {| check_name := str "check_cuda_driver"; call := check_cuda_driver env |};
    {| check_name := str "check_pytorch_cuda"; call := check_pytorch_cuda env |};
    {| check_name := str "check_ml_libraries"; call := check_ml_libraries env |} ].

Definition extended_checks (env : Env) : list check :=
  [ {| check_name := str "check_gpu_memory"; call := check_gpu_memory env |};
    {| check_name := str "check_disk_space"; call := check_disk_space env |};
    {| check_name := str "check_docker_gpu"; call := check_docker_gpu env |};
    {| check_name := str "check_internet_connectivity";
       call := check_internet_connectivity env |} ].

(** What [diagnose_env] prints and logs, in order. *)
Inductive event :=
| Printed (line : pystr)
| Logged (lvl : Parallel.level) (msg : pystr).

(** The record [diagnose_env] adds for a core check that raised. *)
Definition check_error_issue (check_func : check) (e : exn) : DiagnosticIssue :=
  {| name := title (replace (str "_") (str " ")
                      (replace (str "check_") [] (check_name check_func)));
     status := str "FAIL - Check error";
     severity := str "critical";
     fix_ := str "Run diagnostics again or check logs";
     details := Some (exn_str e) |}.

Definition core_failure_log (check_func : check) (e : exn) : event :=
  Logged Parallel.ERROR
    (str "Check " ++ check_name check_func ++ str " failed: " ++ exn_str e).

Definition extended_failure_log (check_func : check) (e : exn) : event :=
  Logged Parallel.WARNING
    (str "Extended check " ++ check_name check_func ++ str " failed: " ++ exn_str e).

(** [for check_func, result in results] over the pairs of the parallel
    run of the core checks, and of the extended checks. *)
Fixpoint collect_core (results : list (check * (list DiagnosticIssue + exn)))
    (all_issues : list DiagnosticIssue) : list event * list DiagnosticIssue :=
  match results with
  | [] => ([], all_issues)
  | (check_func, inr e) :: rest =>
      let '(events, issues) :=
        collect_core rest (all_issues ++ [check_error_issue check_func e]) in
      (core_failure_log check_func e :: events, issues)
  | (check_func, inl result) :: rest => collect_core rest (all_issues ++ result)
  end.

Fixpoint collect_extended (results : list (check * (list DiagnosticIssue + exn)))
    (all_issues : list DiagnosticIssue) : list event * list DiagnosticIssue :=
  match results with
  | [] => ([], all_issues)
  | (check_func, inr e) :: rest =>
      let '(events, issues) := collect_extended rest all_issues in
      (extended_failure_log check_func e :: events, issues)
  | (check_func, inl result) :: rest => collect_extended rest (all_issues ++ result)
  end.

(** [for check_func in core_checks], and [in extended_checks], of the
    sequential branch. *)
Fixpoint run_core_sequential (checks : list check) (all_issues : list DiagnosticIssue)
  : list event * result (list DiagnosticIssue) :=
  match checks with
  | [] => ([], Ok all_issues)
  | check_func :: rest =>
      match call check_func with
      | Ok found => run_core_sequential rest (all_issues ++ found)
      | Raise e =>
          if isinstance e Exception then
            let '(events, r) :=
              run_core_sequential rest
                (all_issues ++ [check_error_issue check_func e]) in
            (core_failure_log check_func e :: events, r)
          else ([], Raise e)
      end
  end.

Fixpoint run_extended_sequential (checks : list check)
    (all_issues : list DiagnosticIssue)
  : list event * result (list DiagnosticIssue) :=
  match checks with
  | [] => ([], Ok all_issues)
  | check_func :: rest =>
      match call check_func with
      | Ok found => run_extended_sequential rest (all_issues ++ found)
      | Raise e =>
          if isinstance e Exception then
            let '(events, r) := run_extended_sequential rest all_issues in
            (extended_failure_log check_func e :: events, r)
          else ([], Raise e)
      end
  end.

Definition header (use_emojis : bool) : pystr :=
  str "[bold blue]" ++ icon_search use_emojis
    ++ str " Running ML Environment Diagnostics...[/bold blue]" ++ [lf].

(** [diagnose_env(full, parallel)].  [completion_core] and
    [completion_extended] are the orders in which the two thread pools
    complete their futures (see [Parallel.as_completed]). *)
Definition diagnose_env (env : Env) (use_emojis : bool) (full parallel : bool)
    (completion_core completion_extended : list nat)
  : list event * result (list DiagnosticIssue) :=
  let all_issues : list DiagnosticIssue := [] in
  let printed := [Printed (header use_emojis)] in
  let '(events1, core) :=
    if parallel then
      match Parallel.run_parallel_with_results call 3 (core_checks env)
              completion_core with
      | Ok results =>
          let '(events, issues) := collect_core results all_issues in
          (events, Ok issues)
      | Raise e => ([], Raise e)
      end
    else run_core_sequential (core_checks env) all_issues in
  match core with
  | Raise e => (printed ++ events1, Raise e)
  | Ok all_issues =>
      if full then
        let '(events2, extended) :=
          if parallel then
            match Parallel.run_parallel_with_results call 4 (extended_checks env)
                    completion_extended with
            | Ok results =>
                let '(events, issues) := collect_extended results all_issues in
                (events, Ok issues)
            | Raise e => ([], Raise e)
            end
          else run_extended_sequential (extended_checks env) all_issues in
        (printed ++ events1 ++ events2, extended)
      else (printed ++ events1, Ok all_issues)
  end.

(** *** The state the renderers and the exporters run in *)

(** A reading of the clock, [datetime.now()]. *)
Record datetime := {
  year : nat;
  month : nat;
  day : nat;
  hour : nat;
  minute : nat;
  second : nat;
  microsecond : nat;
}.

(** What [console.print] was given: nothing, a markup string, or the
    table with its title, its column headers and its rows. *)
Inductive rendered :=
| NewLine
| Markup (text : pystr)
| TableRendered (title : pystr) (columns : list pystr)
    (rows : list (pystr * pystr * pystr * pystr)).

(** The list object bound to the parameter [issues], with the records
    it refers to, is the component [mem]: Python passes it by reference,
    so the caller sees in [mem] what a callee did to the list and to the
    fields of its records.  [console] and [log] hold what was printed
    and logged.  [rich_print r] is what rich does when the console is
    given [r] to print: it reads the strings, and the cells of a table,
    as markup, and renders them or raises (a [MarkupError] for a closing
    tag that matches no open tag).  [file_at path] is the file the
    system opens for [path], under a name of its own: two paths may name
    one file, as a relative and an absolute path or a link and its
    target do.  [files] maps a file to its text. *)
Record World := {
  mem : list DiagnosticIssue;
  console : list rendered;
  log : list Parallel.log_record;
  files : gmap pystr pystr;
  now : datetime;
  rich_print : rendered -> result unit;
  file_at : pystr -> pystr;
}.

Definition IO (A : Type) : Type := World -> result A * World.

#[global] Instance IO_ret : MRet IO := fun A a w => (Ok a, w).
#[global] Instance IO_bind : MBind IO := fun A B f m w =>
  match m w with
  | (Ok a, w') => f a w'
  | (Raise e, w') => (Raise e, w')
  end.

(** Reading the list, printing, logging, writing a file, reading the
    clock, and a computation that touches none of them.  [console.print]
    with no argument prints an empty line; with an argument it prints
    what rich renders, and raises what rich raises.  [on_console] puts
    on the console a line that has been printed.  A write is one that
    succeeds, to the file its path names, and [files] holds the files
    the exporters write.  The clock is read once in a state: its
    readings at two calls are those of two states. *)
Definition read_issues : IO (list DiagnosticIssue) :=
  fun w => (Ok (mem w), w).

Definition on_console (r : rendered) : IO unit :=
  fun w => (Ok (),
            {| mem := mem w; console := console w ++ [r]; log := log w;
               files := files w; now := now w; rich_print := rich_print w;
               file_at := file_at w |}).

Definition rendering (w : World) (r : rendered) : result unit :=
  match r with
  | NewLine => Ok ()
  | _ => rich_print w r
  end.

Definition console_print (r : rendered) : IO unit :=
  fun w =>
    match rendering w r with
    | Ok _ => on_console r w
    | Raise e => (Raise e, w)
    end.

Definition logger (lvl : Parallel.level) (msg : pystr) : IO unit :=
  fun w => (Ok (),
            {| mem := mem w; console := console w; log := log w ++ [(lvl, msg)];
               files := files w; now := now w; rich_print := rich_print w;
               file_at := file_at w |}).

Definition write_text (path text : pystr) : IO unit :=
  fun w => (Ok (),
            {| mem := mem w; console := console w; log := log w;
               files := <[file_at w path := text]> (files w); now := now w;
               rich_print := rich_print w;
               file_at := file_at w |}).

(** An assignment [issues = ...]: the name is bound to a list. *)
Definition bind_issues (issues : list DiagnosticIssue) : IO unit :=
  fun w => (Ok (),
            {| mem := issues; console := console w; log := log w;
               files := files w; now := now w; rich_print := rich_print w;
               file_at := file_at w |}).

Definition datetime_now : IO datetime :=
  fun w => (Ok (now w), w).

Definition lift {A} (r : result A) : IO A :=
  fun w => (r, w).

Definition when (b : bool) (m : IO unit) : IO unit :=
  if b then m else mret ().

(** *** print_diagnostic_table *)

(** [sum(1 for i in issues if cond(i))] *)
Definition sum (l : list nat) : nat := fold_left Nat.add l O.

Definition count_where (cond : DiagnosticIssue -> bool) (issues : list DiagnosticIssue)
  : nat :=
  sum (map (fun _ => 1%nat) (List.filter cond issues)).

(** The loop [for issue in issues] that adds the row [issue.to_row()]
    to the table. *)
Fixpoint add_rows (use_emojis : bool) (issues : list DiagnosticIssue)
    (rows : list (pystr * pystr * pystr * pystr))
  : result (list (pystr * pystr * pystr * pystr)) :=
  match issues with
  | [] => Ok rows
  | issue :: rest =>
      row ← to_row use_emojis issue;
      add_rows use_emojis rest (rows ++ [row])
  end.

Definition table_title : pystr := str "ML Environment Doctor - Diagnostic Results".
Definition table_columns : list pystr :=
  [str "Issue"; str "Status"; str "Severity"; str "Fix"].

Definition passed_line (use_emojis : bool) (pass_count : nat) : pystr :=
  str "[green]" ++ icon_check use_emojis ++ str " Passed: " ++ of_nat pass_count
    ++ str "[/green]".

Definition warnings_line (use_emojis : bool) (warning_count : nat) : pystr :=
  str "[yellow]" ++ icon_warning use_emojis ++ str "  Warnings: "
    ++ of_nat warning_count ++ str "[/yellow]".

Definition critical_line (use_emojis : bool) (critical_count : nat) : pystr :=
  str "[red]" ++ icon_cross use_emojis ++ str " Critical Issues: "
    ++ of_nat critical_count ++ str "[/red]".

Definition ready_line : pystr :=
  [lf] ++ str "[bold green]" ++ [240; 376; 381; 8240]
    ++ str " Your ML environment looks ready for fine-tuning![/bold green]".

Definition fix_critical_line (use_emojis : bool) : pystr :=
  [lf] ++ str "[bold red]" ++ icon_warning use_emojis
    ++ str "  Please fix critical issues before proceeding.[/bold red]".

Definition consider_line : pystr :=
  [lf] ++ str "[bold yellow]" ++ [240; 376; 8217; 161]
    ++ str " Consider addressing warnings for optimal performance.[/bold yellow]".

Definition print_diagnostic_table (use_emojis : bool) : IO unit :=
  issues ← read_issues;
  rows ← lift (add_rows use_emojis issues []);
  _ ← console_print NewLine;
  _ ← console_print (TableRendered table_title table_columns rows);
  let critical_count :=
    count_where (fun i => bool_decide (severity i = str "critical")
                          && contains (str "FAIL") (status i)) issues in
  let warning_count :=
    count_where (fun i => bool_decide (severity i = str "warning")
                          && (contains (str "WARN") (status i)
                              || contains (str "FAIL") (status i))) issues in
  let pass_count := count_where (fun i => contains (str "PASS") (status i)) issues in
  _ ← console_print NewLine;
  _ ← console_print (Markup (passed_line use_emojis pass_count));
  _ ← when (0 <? warning_count)%nat
        (console_print (Markup (warnings_line use_emojis warning_count)));
  _ ← when (0 <? critical_count)%nat
        (console_print (Markup (critical_line use_emojis critical_count)));
  if (critical_count =? 0)%nat && (warning_count =? 0)%nat then
    console_print (Markup ready_line)
  else if (0 <? critical_count)%nat then
    console_print (Markup (fix_critical_line use_emojis))
  else
    console_print (Markup consider_line).

End Diagnose.

(** ** export.py *)

Module Exporter.

Import Diagnose.

(** [__version__] of the package. *)
Definition __version__ : pystr := str "0.1.2".

(** *** JSON *)

(** The values [json.dumps] is given: [None], integers, strings, lists
    and dictionaries in insertion order. *)
Inductive json :=
| JNull
| JInt (n : Z)
| JStr (s : pystr)
| JList (items : list json)
| JDict (fields : list (pystr * json)).

Definition issue_to_dict (issue : DiagnosticIssue) : json :=
  JDict [(str "name", JStr (name issue));
         (str "status", JStr (status issue));
         (str "severity", JStr (severity issue));
         (str "fix", JStr (fix_ issue));
         (str "details", match details issue with
                         | Some d => JStr d
                         | None => JNull
                         end)].

(** The string encoder of [json.dumps(..., ensure_ascii=False)]: the
    quote, the backslash and the control characters are escaped. *)
Definition hex_digit (n : N) : N := if n <? 10 then 48 + n else 87 + n.

Definition escape_char (c : N) : pystr :=
  if c =? 34 then [92; 34]
  else if c =? 92 then [92; 92]
  else if c =? 10 then [92; 110]
  else if c =? 13 then [92; 114]
  else if c =? 9 then [92; 116]
  else if c =? 8 then [92; 98]
  else if c =? 12 then [92; 102]
  else if c <? 32 then str "\u00" ++ [hex_digit (c / 16); hex_digit (c mod 16)]
  else [c].

Definition encode_basestring (s : pystr) : pystr :=
  [dq] ++ concat (map escape_char s) ++ [dq].

(** [json.dumps(v, indent=2)] at nesting depth [level]. *)
Definition newline_indent (level : nat) : pystr := lf :: repeat 32 (2 * level).

Fixpoint dumps (level : nat) (v : json) : pystr :=
  match v with
  | JNull => str "null"
  | JInt n => of_Z n
  | JStr s => encode_basestring s
  | JList [] => str "[]"
  | JList items =>
      str "[" ++ newline_indent (S level)
        ++ join (str "," ++ newline_indent (S level)) (map (dumps (S level)) items)
        ++ newline_indent level ++ str "]"
  | JDict [] => str "{}"
  | JDict fields =>
      str "{" ++ newline_indent (S level)
        ++ join (str "," ++ newline_indent (S level))
             (map (fun kv => encode_basestring (fst kv) ++ str ": "
                             ++ dumps (S level) (snd kv)) fields)
        ++ newline_indent level ++ str "}"
  end.

Definition json_dumps (v : json) : pystr := dumps 0 v.

(** [datetime.isoformat()] and [strftime('%Y-%m-%d %H:%M:%S')], for the
    years of four digits. *)
Definition date_part (d : datetime) : pystr :=
  zero_pad 4 (year d) ++ str "-" ++ zero_pad 2 (month d) ++ str "-"
    ++ zero_pad 2 (day d).

Definition time_part (d : datetime) : pystr :=
  zero_pad 2 (hour d) ++ str ":" ++ zero_pad 2 (minute d) ++ str ":"
    ++ zero_pad 2 (second d).

Definition isoformat (d : datetime) : pystr :=
  date_part d ++ str "T" ++ time_part d
    ++ match microsecond d with
       | O => []
       | us => str "." ++ zero_pad 6 us
       end.

Definition strftime (d : datetime) : pystr :=
  date_part d ++ str " " ++ time_part d.

(** The summary of [export_json]. *)
Definition json_summary (issues : list DiagnosticIssue) : json :=
  let critical_count :=
    count_where (fun i => bool_decide (severity i = str "critical")
                          && contains (str "FAIL") (status i)) issues in
  let warning_count :=
    count_where (fun i => bool_decide (severity i = str "warning")
                          && (contains (str "WARN") (status i)
                              || contains (str "FAIL") (status i))) issues in
  let pass_count := count_where (fun i => contains (str "PASS") (status i)) issues in
  JDict [(str "total", JInt (Z.of_nat (length issues)));
         (str "passed", JInt (Z.of_nat pass_count));
         (str "warnings", JInt (Z.of_nat warning_count));
         (str "critical", JInt (Z.of_nat critical_count))].

Definition json_metadata (timestamp : datetime) : json :=
  JDict [(str "version", JStr __version__);
         (str "timestamp", JStr (isoformat timestamp));
         (str "tool", JStr (str "mlenvdoctor"))].

(** [export_json(issues, output_file, include_metadata)]; it returns the
    path it wrote to. *)
Definition export_json (output_file : option pystr) (include_metadata : bool)
  : IO pystr :=
  let output_file := default (str "diagnostic-results.json") output_file in
  issues ← read_issues;
  let issues_data := map issue_to_dict issues in
  let export_data :=
    [(str "issues", JList issues_data); (str "summary", json_summary issues)] in
  export_data ←
    (if include_metadata then
       timestamp ← datetime_now;
       mret (export_data ++ [(str "metadata", json_metadata timestamp)])
     else mret export_data);
  _ ← write_text output_file (json_dumps (JDict export_data));
  mret output_file.

(** *** CSV *)

(** A field as [csv.writer] writes it in the default dialect: quoted
    when it holds a comma, a quote or a line break, with its quotes
    doubled. *)
Definition needs_quotes (field : pystr) : bool :=
  existsb (fun c => (c =? 44) || (c =? dq) || (c =? lf) || (c =? cr)) field.

Definition csv_field (field : pystr) : pystr :=
  if needs_quotes field
  then [dq] ++ concat (map (fun c => if c =? dq then [dq; dq] else [c]) field) ++ [dq]
  else field.

Definition writerow (row : list pystr) : pystr :=
  join (str ",") (map csv_field row) ++ [cr; lf].

Definition csv_header : list pystr :=
  [str "Issue"; str "Status"; str "Severity"; str "Fix"; str "Details"].

Definition csv_row (issue : DiagnosticIssue) : list pystr :=
  [name issue; status issue; severity issue; fix_ issue; default [] (details issue)].

(** [export_csv(issues, output_file)] *)
Definition export_csv (output_file : option pystr) : IO pystr :=
  let output_file := default (str "diagnostic-results.csv") output_file in
  issues ← read_issues;
  _ ← write_text output_file
        (writerow csv_header ++ concat (map (fun issue => writerow (csv_row issue)) issues));
  mret output_file.

(** *** HTML *)

(** In the templates below [~] stands for the double quote of the
    source text. *)
Definition tpl (s : string) : pystr :=
  map (fun c => if c =? 126 then dq else c) (str s).

(** [x or '-'] *)
Definition or_dash (s : pystr) : pystr :=
  match s with
  | [] => str "-"
  | _ => s
  end.

Definition html_head (generated version : pystr)
    (total pass_count warning_count critical_count : nat) : pystr :=
  tpl "<!DOCTYPE html>
<html lang=~en~>
<head>
    <meta charset=~UTF-8~>
    <meta name=~viewport~ content=~width=device-width, initial-scale=1.0~>
    <title>ML Environment Doctor - Diagnostic Report</title>
    <style>
        body {
            font-family: -apple-system, BlinkMacSystemFont, 'Segoe UI', Roboto, Oxygen, Ubuntu, Cantarell, sans-serif;
            max-width: 1200px;
            margin: 0 auto;
            padding: 20px;
            background-color: #f5f5f5;
        }
        .header {
            background: linear-gradient(135deg, #667eea 0%, #764ba2 100%);
            color: white;
            padding: 30px;
            border-radius: 10px;
            margin-bottom: 20px;
        }
        .summary {
            display: grid;
            grid-template-columns: repeat(auto-fit, minmax(200px, 1fr));
            gap: 15px;
            margin-bottom: 30px;
        }
        .summary-card {
            background: white;
            padding: 20px;
            border-radius: 8px;
            box-shadow: 0 2px 4px rgba(0,0,0,0.1);
        }
        .summary-card h3 {
            margin: 0 0 10px 0;
            font-size: 14px;
            color: #666;
        }
        .summary-card .value {
            font-size: 32px;
            font-weight: bold;
        }
        .passed { color: #10b981; }
        .warning { color: #f59e0b; }
        .critical { color: #ef4444; }
        table {
            width: 100%;
            background: white;
            border-collapse: collapse;
            border-radius: 8px;
            overflow: hidden;
            box-shadow: 0 2px 4px rgba(0,0,0,0.1);
        }
        th {
            background-color: #667eea;
            color: white;
            padding: 15px;
            text-align: left;
            font-weight: 600;
        }
        td {
            padding: 12px 15px;
            border-bottom: 1px solid #e5e7eb;
        }
        tr:hover {
            background-color: #f9fafb;
        }
        .status-pass { color: #10b981; font-weight: 600; }
        .status-fail { color: #ef4444; font-weight: 600; }
        .status-warn { color: #f59e0b; font-weight: 600; }
        .severity-critical { background-color: #fee2e2; }
        .severity-warning { background-color: #fef3c7; }
        .severity-info { background-color: #dbeafe; }
        .footer {
            margin-top: 30px;
            text-align: center;
            color: #666;
            font-size: 12px;
        }
    </style>
</head>
<body>
    <div class=~header~>
        <h1>ML Environment Doctor</h1>
        <p>Diagnostic Report - Generated on "
    ++ generated
    ++ tpl "</p>
        <p style=~font-size: 14px; opacity: 0.9;~>Version "
    ++ version
    ++ tpl "</p>
    </div>

    <div class=~summary~>
        <div class=~summary-card~>
            <h3>Total Checks</h3>
            <div class=~value~>"
    ++ of_nat total
    ++ tpl "</div>
        </div>
        <div class=~summary-card~>
            <h3>Passed</h3>
            <div class=~value passed~>"
    ++ of_nat pass_count
    ++ tpl "</div>
        </div>
        <div class=~summary-card~>
            <h3>Warnings</h3>
            <div class=~value warning~>"
    ++ of_nat warning_count
    ++ tpl "</div>
        </div>
        <div class=~summary-card~>
            <h3>Critical Issues</h3>
            <div class=~value critical~>"
    ++ of_nat critical_count
    ++ tpl "</div>
        </div>
    </div>

    <table>
        <thead>
            <tr>
                <th>Issue</th>
                <th>Status</th>
                <th>Severity</th>
                <th>Fix</th>
                <th>Details</th>
            </tr>
        </thead>
        <tbody>
".

Definition html_row (issue : DiagnosticIssue) : pystr :=
  let status_class :=
    if contains (str "FAIL") (status issue) then str "status-fail"
    else if contains (str "WARN") (status issue) then str "status-warn"
    else str "status-pass" in
  let severity_class := str "severity-" ++ severity issue in
  tpl "
            <tr class=~"
    ++ severity_class
    ++ tpl "~>
                <td><strong>"
    ++ name issue
    ++ tpl "</strong></td>
                <td class=~"
    ++ status_class
    ++ tpl "~>"
    ++ status issue
    ++ tpl "</td>
                <td>"
    ++ upper (severity issue)
    ++ tpl "</td>
                <td>"
    ++ or_dash (fix_ issue)
    ++ tpl "</td>
                <td>"
    ++ or_dash (default [] (details issue))
    ++ tpl "</td>
            </tr>
".

Definition html_foot : pystr :=
  tpl "
        </tbody>
    </table>

    <div class=~footer~>
        <p>Generated by ML Environment Doctor | <a href=~https://github.com/dheena731/ml_env_doctor~>GitHub</a></p>
    </div>
</body>
</html>
".

(** [export_html(issues, output_file)] *)
Definition export_html (output_file : option pystr) : IO pystr :=
  let output_file := default (str "diagnostic-results.html") output_file in
  issues ← read_issues;
  let critical_count :=
    count_where (fun i => bool_decide (severity i = str "critical")
                          && contains (str "FAIL") (status i)) issues in
  let warning_count :=
    count_where (fun i => bool_decide (severity i = str "warning")
                          && (contains (str "WARN") (status i)
                              || contains (str "FAIL") (status i))) issues in
  let pass_count := count_where (fun i => contains (str "PASS") (status i)) issues in
  generated ← datetime_now;
  let html_content :=
    html_head (strftime generated) __version__ (length issues)
      pass_count warning_count critical_count in
  let html_content := fold_left (fun html issue => html ++ html_row issue) issues html_content in
  let html_content := html_content ++ html_foot in
  _ ← write_text output_file html_content;
  mret output_file.

End Exporter.

(** ** cli.py: the command [diagnose] *)

Module Cli.

Import Diagnose Exporter Icons.

(** What [diagnose_env] printed and logged reaches the console and the
    log.  The one line it prints is its header, a markup whose tags are
    balanced. *)
Fixpoint emit (events : list event) : IO unit :=
  match events with
  | [] => mret ()
  | Printed line :: rest => _ ← on_console (Markup line); emit rest
  | Logged lvl msg :: rest => _ ← logger lvl msg; emit rest
  end.

(** [diagnose_env(full=full)], with [parallel] at its default. *)
Definition call_diagnose_env (env : Env) (use_emojis full : bool)
    (completion_core completion_extended : list nat) : IO (list DiagnosticIssue) :=
  let '(events, r) :=
    diagnose_env env use_emojis full true completion_core completion_extended in
  _ ← emit events;
  lift r.

Definition exported_line (use_emojis : bool) (path : pystr) : rendered :=
  Markup (str "[green]" ++ icon_check use_emojis ++ str " Exported to " ++ path
            ++ str "[/green]").

(** The block [if full:] of the command.  [gpu.py] is not among the
    sources: [benchmarks] is what [benchmark_gpu_ops()] returns, a
    dictionary from operations to milliseconds, or raises. *)
Fixpoint print_benchmarks (env : Env) (benchmarks : list (pystr * Q)) : IO unit :=
  match benchmarks with
  | [] => mret ()
  | (op, time_ms) :: rest =>
      _ ← console_print (Markup (str "  " ++ op ++ str ": " ++ fmt_2f env time_ms
                                   ++ str " ms"));
      print_benchmarks env rest
  end.

Definition run_benchmark (env : Env) (benchmarks : result (list (pystr * Q)))
  : IO unit :=
  _ ← console_print NewLine;
  _ ← console_print (Markup (str "[bold blue]Running GPU benchmark...[/bold blue]"));
  match benchmarks with
  | Ok [] =>
      console_print
        (Markup (str "[yellow]GPU benchmark skipped (no GPU available)[/yellow]"))
  | Ok results =>
      _ ← console_print (Markup (str "[green]GPU benchmark results:[/green]"));
      print_benchmarks env results
  | Raise e =>
      if isinstance e Exception then
        console_print
          (Markup (str "[yellow]GPU benchmark error: " ++ exn_str e ++ str "[/yellow]"))
      else lift (Raise e)
  end.

(** [diagnose(full, json_output, csv_output, html_output)] *)
Definition diagnose (env : Env) (use_emojis full : bool)
    (json_output csv_output html_output : option pystr)
    (benchmarks : result (list (pystr * Q)))
    (completion_core completion_extended : list nat) : IO unit :=
  issues ← call_diagnose_env env use_emojis full completion_core completion_extended;
  _ ← bind_issues issues;
  _ ← print_diagnostic_table use_emojis;
  _ ← match json_output with
      | Some path =>
          _ ← export_json (Some path) true;
          console_print (exported_line use_emojis path)
      | None => mret ()
      end;
  _ ← match csv_output with
      | Some path =>
          _ ← export_csv (Some path);
          console_print (exported_line use_emojis path)
      | None => mret ()
      end;
  _ ← match html_output with
      | Some path =>
          _ ← export_html (Some path);
          console_print (exported_line use_emojis path)
      | None => mret ()
      end;
  if full then run_benchmark env benchmarks else mret ().

End Cli.

(** ** config.py *)

Module Config.

(** The values of a configuration: what a TOML document holds, and
    [None].  [VOther] stands for a float, a date or a time, which the
    functions below only pass on. *)
Inductive value :=
| VNone
| VBool (b : bool)
| VInt (z : Z)
| VStr (s : pystr)
| VOther (repr : pystr)
| VList (items : list value)
| VDict (fields : gmap pystr value).

Abbreviation dict := (gmap pystr value).

(** [default_config] of [load_config]. *)
Definition default_config : dict :=
  {[ str "diagnostics" :=
       VDict {[ str "full_scan" := VBool false; str "skip_checks" := VList [] ]};
     str "fix" :=
       VDict {[ str "default_stack" := VStr (str "trl-peft");
                str "auto_install" := VBool false ]};
     str "docker" :=
       VDict {[ str "default_base_image"
                  := VStr (str "nvidia/cuda:12.4.0-devel-ubuntu22.04") ]};
     str "logging" :=
       VDict {[ str "level" := VStr (str "INFO"); str "file" := VNone ]} ]}.

(** What [load_config] reads of the file system and of the installed
    libraries.
    - [path_exists p]: [Path(p).exists()].
    - [home_config_file]: [get_home_config_dir() / "config.toml"], which
      creates the directory and may fail to.
    - [tomllib], [tomli]: the loader of the module when it was
      imported, applied to a path: [open("rb")] followed by [load(f)],
      giving the items of the document in order.
    - [dict_update d v]: [d.update(v)] for a [v] that is not a
      dictionary. *)
Definition loader : Type := pystr -> result (list (pystr * value)).

Record Files := {
  path_exists : pystr -> result bool;
  home_config_file : result pystr;
  tomllib : option loader;
  tomli : option loader;
  dict_update : dict -> value -> result dict;
}.

(** [for path in search_paths: if path.exists(): config_path = path; break] *)
Fixpoint search (fs : Files) (search_paths : list pystr) : result (option pystr) :=
  match search_paths with
  | [] => Ok None
  | path :: rest =>
      present ← path_exists fs path;
      if (present : bool) then Ok (Some path) else search fs rest
  end.

(** [for section, values in user_config.items()] *)
Fixpoint merge (fs : Files) (user_config : list (pystr * value)) (merged_config : dict)
  : result dict :=
  match user_config with
  | [] => Ok merged_config
  | (section, values) :: rest =>
      match merged_config !! section with
      | Some (VDict defaults) =>
          updated ← match values with
                    | VDict fields => Ok (fields ∪ defaults)
                    | _ => dict_update fs defaults values
                    end;
          merge fs rest (<[section := VDict updated]> merged_config)
      | _ => merge fs rest (<[section := values]> merged_config)
      end
  end.

Definition load_config (fs : Files) (config_path : option pystr) : result dict :=
  config_path ←
    match config_path with
    | None =>
        home ← home_config_file fs;
        search fs [str "mlenvdoctor.toml"; str ".mlenvdoctorrc"; home]
    | Some path =>
        present ← path_exists fs path;
        if negb present then
          Raise (doctor_error ConfigurationError
                   (str "Config file not found: " ++ path)
                   (str "Create the file or use default configuration"))
        else Ok (Some path)
    end;
  match config_path with
  | None => Ok default_config
  | Some path =>
      present ← path_exists fs path;
      if negb present then Ok default_config
      else
        let body :=
          user_config ←
            match tomllib fs, tomli fs with
            | Some load, _ => load path
            | None, Some load => load path
            | None, None =>
                Raise (doctor_error ConfigurationError
                         (str "TOML parsing not available. Install tomli: pip install tomli")
                         (str "Or upgrade to Python 3.11+"))
            end;
          merge fs user_config default_config in
        match body with
        | Ok merged_config => Ok merged_config
        | Raise e =>
            if isinstance e Exception then
              Raise (Exn ConfigurationError
                       (str "Error parsing config file " ++ path ++ str ": " ++ exn_str e)
                       (str "Check TOML syntax and file permissions")
                       (Some e))
            else Raise e
        end
  end.

(** [get_config_value(config, *keys, default=default)] *)
Fixpoint get_config_value (config : value) (keys : list pystr) (default : value)
  : value :=
  match keys with
  | [] => match config with VNone => default | _ => config end
  | key :: rest =>
      match config with
      | VDict fields =>
          match fields !! key with
          | None | Some VNone => default
          | Some found => get_config_value found rest default
          end
      | _ => default
      end
  end.

End Config.

(** * Vocabulary of the statements *)

Import Validators Utils Diagnose Exporter.

(** [p] occurs in [s] as a substring. *)
Definition occurs_in (p s : pystr) : Prop :=
  exists pre post, s = pre ++ p ++ post.

(** A command [sanitize_command] has a reason to refuse: it is not a
    non-empty list, or one of its elements is not a string, or one of
    its arguments holds a shell operator. *)
Definition shell_operators : list pystr :=
  [str ";"; str "&&"; str "||"; str "`"; str "$("; str "<"; str ">"; str "|"].

Definition refused (cmd : pyval) : Prop :=
  (~ exists args, cmd = PList args /\ args <> [])
  \/ (exists args arg, cmd = PList args /\ In arg args /\ is_str arg = false)
  \/ (exists args a pattern,
        cmd = PList args /\ In (PStr a) args
        /\ In pattern shell_operators /\ occurs_in pattern a).

(** The character class [[a-z0-9._-]], and a string that consists of one
    or more characters of a class. *)
Definition lower_name_char (c : N) : bool :=
  in_range 97 122 c || in_range 48 57 c || (c =? 46) || (c =? 95) || (c =? 45).

Definition one_or_more (class : N -> bool) (s : pystr) : Prop :=
  s <> [] /\ Forall (fun c => class c = true) s.

(** Readings of a run of the retry wrapper: the attempts at which the
    wrapped function was invoked, in order, and the delay obtained from
    [d] by [k] multiplications by [backoff]. *)
Fixpoint attempts_invoked {D} (events : list (Retry.event D)) : list nat :=
  match events with
  | [] => []
  | Retry.Invoked attempt :: rest => attempt :: attempts_invoked rest
  | _ :: rest => attempts_invoked rest
  end.

Fixpoint scaled {D} (mul : D -> D -> D) (backoff d : D) (k : nat) : D :=
  match k with
  | O => d
  | S k' => mul (scaled mul backoff d k') backoff
  end.

(** The exception the wrapper raises when every attempt has failed:
    a [DiagnosticError] raised from [last]. *)
Definition gave_up {T} (r : result T) (last : exn) : Prop :=
  exists message suggestion, r = Raise (Exn DiagnosticError message suggestion (Some last)).

(** [time.sleep] returns and the [on_retry] callback, if there is one,
    returns. *)
Definition undisturbed {D} (sleep : D -> result unit)
    (on_retry : option (exn -> nat -> result unit)) : Prop :=
  (forall d, sleep d = Ok ())
  /\ (forall callback e k, on_retry = Some callback -> callback e k = Ok ()).

(** A function that fails twice with a [ConnectionError] and then
    returns 7. *)
Definition flaky (attempt : nat) : result Z :=
  if (attempt <? 3)%nat
  then Raise (builtin_error ConnectionError (str "connection reset"))
  else Ok 7%Z.

(** The function of the docstring of [run_parallel_with_results]: it
    raises [ValueError] on ["bad"] and returns [True] otherwise. *)
Definition check_library_example (name : pystr) : result bool :=
  if bool_decide (name = str "bad")
  then Raise (builtin_error ValueError (str "Bad library"))
  else Ok true.

(** A function that leaves the interpreter on ["bad"], as [sys.exit(1)]
    does: [SystemExit] does not derive from [Exception]. *)
Definition exit_on_bad (name : pystr) : result bool :=
  if bool_decide (name = str "bad")
  then Raise (builtin_error SystemExit (str "1"))
  else Ok true.

(** A function that never raises. *)
Definition times_ten (n : nat) : result nat := Ok (10 * n)%nat.

(** The three severities and the four category tokens of the data
    model, and a record whose severity is one of the former and whose
    status starts with one of the latter. *)
Definition severities : list pystr := [str "critical"; str "warning"; str "info"].
Definition categories : list pystr := [str "PASS"; str "FAIL"; str "WARN"; str "INFO"].

Definition well_formed (issue : DiagnosticIssue) : Prop :=
  In (severity issue) severities
  /\ exists token, head (split_ws (status issue)) = Some token /\ In token categories.

Definition well_formedb (issue : DiagnosticIssue) : bool :=
  existsb (fun s => bool_decide (severity issue = s)) severities
  && match head (split_ws (status issue)) with
     | Some token => existsb (fun c => bool_decide (token = c)) categories
     | None => false
     end.

(** The records a probe produces: those of the list it returns. *)
Definition produced (r : result (list DiagnosticIssue)) : list DiagnosticIssue :=
  match r with
  | Ok issues => issues
  | Raise _ => []
  end.

(** What a check contributes to the list of [diagnose_env]: a core
    check its records, or the record made for its failure; an extended
    check its records, or nothing. *)
Definition core_records (c : check) : list DiagnosticIssue :=
  match call c with
  | Ok found => found
  | Raise e => [check_error_issue c e]
  end.

Definition extended_records (c : check) : list DiagnosticIssue :=
  match call c with
  | Ok found => found
  | Raise _ => []
  end.

(** The log records of the checks that raised. *)
Definition failures (log : check -> exn -> event) (checks : list check) : list event :=
  flat_map (fun c => match call c with
                     | Ok _ => []
                     | Raise e => [log c e]
                     end) checks.


(** An environment with no [nvidia-smi], no [torch], and libraries
    whose import fails with a [RuntimeError]. *)
Definition broken_env : Env :=
  {| win32 := false;
     subprocess_run := fun _ =>
       RunRaises (builtin_error FileNotFoundError (str "No such file or directory"));
     torch := None;
     import_module := fun _ =>
       Raise (builtin_error RuntimeError (str "broken install"));
     version_lt := fun _ _ => Ok false;
     hf_cache_exists := Ok false;
     disk_free := Ok 0%Z;
     urlopen := fun _ => Ok ();
     print_markup := fun _ => Ok ();
     sleep := fun _ => Ok ();
     int_of_str := fun _ => Ok 0%Z;
     fmt_1f := fun _ => [];
     fmt_2f := fun _ => [] |}.

(** A computation that leaves the list [issues] and its records as
    they were, whatever it returns or raises. *)
Definition preserves_mem {A} (m : IO A) : Prop :=
  forall w, mem (snd (m w)) = mem w.

(** Rich prints whatever it is given: no string and no cell holds a
    markup it refuses. *)
Definition prints_all (w : World) : Prop :=
  forall r, rich_print w r = Ok ().

(** A computation that fails in rich alone: what it raises, rich raised
    on something the console was given to print. *)
Definition fails_in_rich_alone {A} (m : IO A) : Prop :=
  forall w,
    rich_print (snd (m w)) = rich_print w
    /\ forall e, fst (m w) = Raise e -> exists r, rich_print w r = Raise e.

(** The text a call of an exporter left in the file it names. *)
Definition written (r : result pystr * World) : option pystr :=
  match fst r with
  | Ok path => files (snd r) !! file_at (snd r) path
  | Raise _ => None
  end.

(** The counts of the summary, in the words of the specification: a
    record counts as critical when its severity is "critical" and FAIL
    occurs in its status, as a warning when its severity is "warning"
    and WARN or FAIL occurs in its status, as passed when PASS occurs
    in its status. *)
Definition counts_as_critical (i : DiagnosticIssue) : Prop :=
  severity i = str "critical" /\ occurs_in (str "FAIL") (status i).

Definition counts_as_warning (i : DiagnosticIssue) : Prop :=
  severity i = str "warning"
  /\ (occurs_in (str "WARN") (status i) \/ occurs_in (str "FAIL") (status i)).

Definition counts_as_passed (i : DiagnosticIssue) : Prop :=
  occurs_in (str "PASS") (status i).

Inductive counted (P : DiagnosticIssue -> Prop) : list DiagnosticIssue -> nat -> Prop :=
| counted_nil : counted P [] O
| counted_in (i : DiagnosticIssue) (issues : list DiagnosticIssue) (n : nat) :
    P i -> counted P issues n -> counted P (i :: issues) (S n)
| counted_out (i : DiagnosticIssue) (issues : list DiagnosticIssue) (n : nat) :
    ~ P i -> counted P issues n -> counted P (i :: issues) n.

(** An environment in which every probe passes: a driver that reports
    CUDA 12.4, torch 2.4 with one GPU, current libraries, free memory
    and disk, Docker and a reachable network.  Numbers are printed with
    their integral part alone. *)
Definition digit_value (c : N) : Z := Z.of_N (c - 48).

Definition decimal (s : pystr) : result Z :=
  match s with
  | [] => Raise (builtin_error ValueError (str "invalid literal for int()"))
  | _ =>
      if forallb is_digit s
      then Ok (fold_left (fun n c => 10 * n + digit_value c)%Z s 0%Z)
      else Raise (builtin_error ValueError (str "invalid literal for int()"))
  end.

Definition healthy_env : Env :=
  {| win32 := false;
     subprocess_run := fun _ =>
       Completed {| returncode := 0;
                    stdout := str "| NVIDIA-SMI 550.54   Driver Version: 550.54   CUDA Version: 12.4 |";
                    stderr := [] |};
     torch := Some {| torch_version := str "2.4.0+cu124";
                      cuda_is_available := Ok true;
                      version_cuda := Some (str "12.4");
                      cuda_device_count := Ok 1%Z;
                      cuda_get_device_name := Ok (str "NVIDIA A100");
                      cuda_mem_get_info := Ok (40 * 1024 ^ 3, 80 * 1024 ^ 3)%Z |};
     import_module := fun _ => Ok (Some (str "4.44.2"));
     version_lt := fun _ _ => Ok false;
     hf_cache_exists := Ok true;
     disk_free := Ok (200 * 1024 ^ 3)%Z;
     urlopen := fun _ => Ok ();
     print_markup := fun _ => Ok ();
     sleep := fun _ => Ok ();
     int_of_str := decimal;
     fmt_1f := fun q => of_Z (Qfloor q);
     fmt_2f := fun q => of_Z (Qfloor q) |}.

(** Two states that hold no record and differ in the clock alone:
    noon, and one second past noon, of the first of May 2024.  Rich
    prints what it is given. *)
Definition at_noon : World :=
  {| mem := []; console := []; log := []; files := ∅;
     now := {| year := 2024; month := 5; day := 1; hour := 12; minute := 0;
               second := 0; microsecond := 0 |};
     rich_print := fun _ => Ok (); file_at := fun path => path |}.

Definition just_after_noon : World :=
  {| mem := []; console := []; log := []; files := ∅;
     now := {| year := 2024; month := 5; day := 1; hour := 12; minute := 0;
               second := 1; microsecond := 0 |};
     rich_print := fun _ => Ok (); file_at := fun path => path |}.

(** The summary dictionary of the JSON export, the lines of the summary
    [print_diagnostic_table] prints, and its closing line, for given
    counts. *)
Definition summary_dict (total passed warnings critical : nat) : json :=
  JDict [(str "total", JInt (Z.of_nat total));
         (str "passed", JInt (Z.of_nat passed));
         (str "warnings", JInt (Z.of_nat warnings));
         (str "critical", JInt (Z.of_nat critical))].

Definition summary_lines (use_emojis : bool) (passed warnings critical : nat)
  : list rendered :=
  [Markup (passed_line use_emojis passed)]
    ++ (if (0 <? warnings)%nat then [Markup (warnings_line use_emojis warnings)] else [])
    ++ (if (0 <? critical)%nat then [Markup (critical_line use_emojis critical)] else []).

Definition closing_line (use_emojis : bool) (warnings critical : nat) : rendered :=
  if ((critical =? 0) && (warnings =? 0))%nat then Markup ready_line
  else if (0 <? critical)%nat then Markup (fix_critical_line use_emojis)
  else Markup consider_line.

(** Every status holds a token. *)
Definition statuses_have_tokens (issues : list DiagnosticIssue) : Prop :=
  forall issue, In issue issues -> split_ws (status issue) <> [].

(** A state whose list holds one record with an empty status, and one
    whose list holds a failed and a passed check. *)
Definition blank_status : World :=
  {| mem := [ {| name := str "GPU Memory"; status := []; severity := str "info";
                 fix_ := []; details := None |} ];
     console := []; log := []; files := ∅; now := now at_noon;
     rich_print := rich_print at_noon; file_at := file_at at_noon |}.

Definition two_records : World :=
  {| mem := [ {| name := str "NVIDIA GPU Driver";
                 status := str "FAIL - nvidia-smi not found";
                 severity := str "critical";
                 fix_ := str "Install NVIDIA drivers";
                 details := None |};
              {| name := str "peft"; status := str "PASS - 0.12.0";
                 severity := str "info"; fix_ := []; details := None |} ];
     console := []; log := []; files := ∅; now := now at_noon;
     rich_print := rich_print at_noon; file_at := file_at at_noon |}.

(** Whatever a check contributes is made of well-formed records. *)
Definition contributes_well_formed (c : check) : Prop :=
  Forall well_formed (core_records c) /\ Forall well_formed (extended_records c).

(** ** Readings of runs, probes, exports and configurations *)

(** The calls of the [on_retry] callback in a run of the retry wrapper,
    in order: the exception and the number of the attempt of each. *)
Fixpoint callbacks {D} (events : list (Retry.event D)) : list (exn * nat) :=
  match events with
  | [] => []
  | Retry.OnRetry e attempt :: rest => (e, attempt) :: callbacks rest
  | _ :: rest => callbacks rest
  end.

(** A function that fails with a [ConnectionError] and then with a
    [ValueError]. *)
Definition fails_differently (attempt : nat) : result Z :=
  if (attempt <? 2)%nat
  then Raise (builtin_error ConnectionError (str "connection reset"))
  else Raise (builtin_error ValueError (str "malformed response")).

(** The units of [format_size], and a size divided [k] times by 1024. *)
Definition size_units : list pystr :=
  [str "B"; str "KB"; str "MB"; str "GB"; str "TB"; str "PB"].

Fixpoint divided (k : nat) (x : Q) : Q :=
  match k with
  | O => x
  | S k' => (divided k' x / 1024)%Q
  end.

(** A probe that answers with exactly one record of the given name. *)
Definition one_record (probe_name : pystr) (r : result (list DiagnosticIssue)) : Prop :=
  forall issues, r = Ok issues -> exists issue, issues = [issue] /\ name issue = probe_name.

(** A probe that raises no exception that derives from [Exception]. *)
Definition contains_its_failures (r : result (list DiagnosticIssue)) : Prop :=
  forall e, r = Raise e -> isinstance e Exception = false.

(** The label [re.search] looks for in the output of [nvidia-smi]. *)
Definition cuda_label : pystr := str "CUDA Version: ".

(** The exceptions [retry_network] retries on, and the [k]-th call of
    [urlopen] reaching the hub after the calls before it failed with
    one of them and the wrapper slept in between. *)
Definition network_errors : list exc_class := [ConnectionError; TimeoutError; OSError].

Definition reached_at (env : Env) (k : nat) : Prop :=
  urlopen env k = Ok ()
  /\ forall j, (1 <= j < k)%nat ->
       (exists e, urlopen env j = Raise e /\ caught_by network_errors e = true)
       /\ sleep env (Retry.backed_off Qmult 1%Q 2%Q (j - 1)) = Ok ().

Definition hub_accessible : DiagnosticIssue :=
  {| name := str "Internet Connectivity";
     status := str "PASS - HF Hub accessible";
     severity := str "info";
     fix_ := [];
     details := None |}.

(** The icons [to_row] has for the four categories. *)
Definition category_icons (use_emojis : bool) : list pystr :=
  [Icons.icon_check use_emojis; Icons.icon_cross use_emojis;
   Icons.icon_warning use_emojis; Icons.icon_info use_emojis].

(** The texts the three exporters write for a list of records; the
    JSON text with its metadata when [timestamp] is given. *)
Definition json_text (issues : list DiagnosticIssue) (timestamp : option datetime) : pystr :=
  json_dumps
    (JDict ([(str "issues", JList (map issue_to_dict issues));
             (str "summary", json_summary issues)]
              ++ match timestamp with
                 | Some t => [(str "metadata", json_metadata t)]
                 | None => []
                 end)).

Definition csv_text (issues : list DiagnosticIssue) : pystr :=
  writerow csv_header ++ concat (map (fun issue => writerow (csv_row issue)) issues).

Definition html_text (issues : list DiagnosticIssue) (generated : datetime) : pystr :=
  html_head (strftime generated) __version__ (length issues)
    (count_where (fun i => contains (str "PASS") (status i)) issues)
    (count_where (fun i => bool_decide (severity i = str "warning")
                           && (contains (str "WARN") (status i)
                               || contains (str "FAIL") (status i))) issues)
    (count_where (fun i => bool_decide (severity i = str "critical")
                           && contains (str "FAIL") (status i)) issues)
    ++ concat (map html_row issues) ++ html_foot.


(** A computation that at most prints and logs: it leaves the records,
    the files, the clock and the names of the files as they were. *)
Definition only_prints {A} (m : IO A) : Prop :=
  forall w, mem (snd (m w)) = mem w
            /\ files (snd (m w)) = files w
            /\ now (snd (m w)) = now w
            /\ file_at (snd (m w)) = file_at w.

(** A console on which rich refuses the closing tag [tag], which
    nothing opens, in the first string or cell that holds it, with the
    position of the tag in that string; a table is measured column by
    column. *)
Fixpoint position_of (tag text : pystr) : nat :=
  match text with
  | [] => O
  | _ :: rest => if starts_with tag text then O else S (position_of tag rest)
  end.

Definition no_open_tag (tag text : pystr) : exn :=
  builtin_error MarkupError
    (str "closing tag '" ++ tag ++ str "' at position "
       ++ of_nat (position_of tag text) ++ str " doesn't match any open tag").

Definition cells (rows : list (pystr * pystr * pystr * pystr)) : list pystr :=
  map (fun '(a, _, _, _) => a) rows ++ map (fun '(_, b, _, _) => b) rows
    ++ map (fun '(_, _, c, _) => c) rows ++ map (fun '(_, _, _, d) => d) rows.

Definition refuses (tag : pystr) (r : rendered) : result unit :=
  match r with
  | NewLine => Ok ()
  | Markup text => if contains tag text then Raise (no_open_tag tag text) else Ok ()
  | TableRendered title columns rows =>
      match filter (fun cell => contains tag cell = true) (cells rows) with
      | [] => Ok ()
      | cell :: _ => Raise (no_open_tag tag cell)
      end
  end.

Definition strict_console : World :=
  {| mem := []; console := []; log := []; files := ∅; now := now at_noon;
     rich_print := refuses (str "[/x]"); file_at := file_at at_noon |}.

(** A state in which the current directory is [/work]: a relative
    path names the file of the absolute path under it. *)
Definition current_directory : World :=
  {| mem := []; console := []; log := []; files := ∅; now := now at_noon;
     rich_print := rich_print at_noon;
     file_at := fun path =>
       if starts_with (str "/") path then path else str "/work/" ++ path |}.

(** A state whose list holds one failed check, with a status that ends
    in a closing tag, as the message of an exception may. *)
Definition stray_tag : World :=
  {| mem := [ {| name := str "PyTorch CUDA";
                 status := str "FAIL - invalid literal for int(): '[/b]'";
                 severity := str "critical";
                 fix_ := str "Reinstall PyTorch with CUDA support";
                 details := None |} ];
     console := []; log := []; files := ∅; now := now at_noon;
     rich_print := refuses (str "[/b]"); file_at := file_at at_noon |}.

(** [broken_env] with a console that refuses the closing tag [[/x]]. *)
Definition strict_env : Env :=
  {| win32 := win32 broken_env;
     subprocess_run := subprocess_run broken_env;
     torch := torch broken_env;
     import_module := import_module broken_env;
     version_lt := version_lt broken_env;
     hf_cache_exists := hf_cache_exists broken_env;
     disk_free := disk_free broken_env;
     urlopen := urlopen broken_env;
     print_markup := fun text => refuses (str "[/x]") (Markup text);
     sleep := sleep broken_env;
     int_of_str := int_of_str broken_env;
     fmt_1f := fmt_1f broken_env;
     fmt_2f := fmt_2f broken_env |}.

(** [s.isascii()] *)
Definition isascii (s : pystr) : Prop := Forall (fun c => c < 128) s.

(** The loader [load_config] uses: [tomllib] when it is there, else
    [tomli]. *)
Definition toml_loader (fs : Config.Files) : option Config.loader :=
  match Config.tomllib fs with
  | Some load => Some load
  | None => Config.tomli fs
  end.

(** The error [load_config] raises from [cause] when reading or
    merging the file at [path] failed, and the error of a Python that
    has neither [tomllib] nor [tomli]. *)
Definition parse_error (path : pystr) (cause : exn) : exn :=
  Exn ConfigurationError
    (str "Error parsing config file " ++ path ++ str ": " ++ exn_str cause)
    (str "Check TOML syntax and file permissions")
    (Some cause).

Definition toml_not_available : exn :=
  doctor_error ConfigurationError
    (str "TOML parsing not available. Install tomli: pip install tomli")
    (str "Or upgrade to Python 3.11+").

(** A project directory whose [mlenvdoctor.toml] sets the log level and
    adds a section, read on Python 3.11; [update] is given no value
    that is not a table. *)
Definition project_toml : list (pystr * Config.value) :=
  [(str "logging", Config.VDict {[ str "level" := Config.VStr (str "DEBUG") ]});
   (str "cache", Config.VDict {[ str "dir" := Config.VStr (str "/tmp/hf") ]})].

Definition project_files : Config.Files :=
  {| Config.path_exists := fun path => Ok (bool_decide (path = str "mlenvdoctor.toml"));
     Config.home_config_file := Ok (str "/home/user/.mlenvdoctor/config.toml");
     Config.tomllib := Some (fun _ => Ok project_toml);
     Config.tomli := None;
     Config.dict_update := fun _ _ =>
       Raise (builtin_error TypeError (str "object is not iterable")) |}.

Definition project_config : gmap pystr Config.value :=
  match Config.load_config project_files (Some (str "mlenvdoctor.toml")) with
  | Ok config => config
  | Raise _ => ∅
  end.

(** [healthy_env] with a build of torch whose version is not numbered. *)
Definition unversioned_torch : Torch :=
  {| torch_version := str "nightly";
     cuda_is_available := Ok true;
     version_cuda := Some (str "12.4");
     cuda_device_count := Ok 1%Z;
     cuda_get_device_name := Ok (str "NVIDIA A100");
     cuda_mem_get_info := Ok (40 * 1024 ^ 3, 80 * 1024 ^ 3)%Z |}.

Definition unversioned_env : Env :=
  {| win32 := win32 healthy_env;
     subprocess_run := subprocess_run healthy_env;
     torch := Some unversioned_torch;
     import_module := import_module healthy_env;
     version_lt := version_lt healthy_env;
     hf_cache_exists := hf_cache_exists healthy_env;
     disk_free := disk_free healthy_env;
     urlopen := urlopen healthy_env;
     print_markup := print_markup healthy_env;
     sleep := sleep healthy_env;
     int_of_str := int_of_str healthy_env;
     fmt_1f := fmt_1f healthy_env;
     fmt_2f := fmt_2f healthy_env |}.

(** * Properties *)

(** ** Strings *)

Lemma starts_with_spec (p s : pystr) :
  starts_with p s = true <-> exists post, s = p ++ post.
Proof.
  revert s. induction p as [|a p IH]; intros s; simpl.
  - split; [intros _; exists s; reflexivity | reflexivity].
  - destruct s as [|b s]; simpl.
    + split; [discriminate | intros [post H]; discriminate].
    + rewrite andb_true_iff, N.eqb_eq, IH. split.
      * intros [-> [post ->]]. exists post. reflexivity.
      * intros [post H]. injection H as -> ->. split; [reflexivity | eauto].
Qed.

Lemma contains_spec (p s : pystr) :
  contains p s = true <-> occurs_in p s.
Proof.
  unfold occurs_in. induction s as [|c s IH].
  - simpl. rewrite orb_false_r, starts_with_spec. split.
    + intros [post H]. exists [], post. exact H.
    + intros [pre [post H]]. destruct pre; [exists post; exact H | discriminate].
  - cbn [contains]. rewrite orb_true_iff, starts_with_spec, IH. split.
    + intros [[post H] | [pre [post H]]].
      * exists [], post. exact H.
      * exists (c :: pre), post. rewrite H. reflexivity.
    + intros [pre [post H]]. destruct pre as [|c' pre].
      * left. exists post. exact H.
      * right. injection H as _ H. exists pre, post. exact H.
Qed.

Lemma contains_false (p s : pystr) :
  contains p s = false <-> ~ occurs_in p s.
Proof.
  rewrite <- contains_spec. destruct (contains p s); split; congruence.
Qed.

(** ** validators.py: sanitize_command *)

Lemma find_dangerous_None (a : pystr) :
  find (fun pattern => contains pattern a) dangerous_patterns = None <->
  forall pattern, In pattern shell_operators -> ~ occurs_in pattern a.
Proof.
  unfold dangerous_patterns, shell_operators; cbn [find]. split.
  - intros H pattern Hin.
    repeat (destruct (contains _ a) eqn:? in H; [discriminate|]).
    cbn [In] in Hin.
    repeat (destruct Hin as [<- | Hin]; [apply contains_false; assumption|]).
    destruct Hin.
  - intros H.
    repeat (rewrite (proj2 (contains_false _ a)); [| apply H; cbn [In]; tauto]).
    reflexivity.
Qed.

Lemma find_dangerous_Some (a pattern : pystr) :
  find (fun pattern => contains pattern a) dangerous_patterns = Some pattern ->
  In pattern shell_operators /\ occurs_in pattern a.
Proof.
  intros H. apply find_some in H. destruct H as [Hin H].
  split; [exact Hin | apply contains_spec; exact H].
Qed.

(** The loop returns the arguments it was given, after those it had
    already accepted, unless an argument gives a reason to refuse. *)
Lemma sanitize_args_ok (args sanitized : list pyval) :
  (forall arg, In arg args -> is_str arg = true) ->
  (forall a pattern, In (PStr a) args -> In pattern shell_operators ->
                     ~ occurs_in pattern a) ->
  sanitize_args args sanitized = Ok (sanitized ++ args).
Proof.
  revert sanitized. induction args as [|arg args IH]; intros sanitized Hstr Hpat.
  - simpl. rewrite app_nil_r. reflexivity.
  - cbn [sanitize_args].
    destruct arg as [| | |a|]; try (specialize (Hstr _ (or_introl eq_refl)); discriminate).
    rewrite (proj2 (find_dangerous_None a)).
    + rewrite IH.
      * rewrite <- app_assoc. reflexivity.
      * intros x Hx. apply Hstr. right. exact Hx.
      * intros x q Hx. apply Hpat. right. exact Hx.
    + intros q Hq. apply (Hpat a q); [left; reflexivity | exact Hq].
Qed.

Lemma sanitize_args_raises (args sanitized : list pyval) (e : exn) :
  sanitize_args args sanitized = Raise e ->
  exn_class e = ConfigurationError
  /\ ((exists arg, In arg args /\ is_str arg = false)
      \/ (exists a pattern, In (PStr a) args /\ In pattern shell_operators
                            /\ occurs_in pattern a)).
Proof.
  revert sanitized. induction args as [|arg args IH]; intros sanitized H.
  - discriminate.
  - cbn [sanitize_args] in H.
    destruct arg as [| |z|a|l];
      try (injection H as <-; split; [reflexivity|]; left; eexists; split;
           [left; reflexivity | reflexivity]).
    destruct (find _ dangerous_patterns) as [pattern|] eqn:Hfind.
    + injection H as <-. split; [reflexivity|]. right.
      apply find_dangerous_Some in Hfind. destruct Hfind as [Hin Hocc].
      exists a, pattern. split; [left; reflexivity | split; assumption].
    + apply IH in H. destruct H as [Hc H]. split; [exact Hc|].
      destruct H as [[x [Hx Hs]] | [b [q [Hb Hq]]]].
      * left. exists x. split; [right; exact Hx | exact Hs].
      * right. exists b, q. split; [right; exact Hb | exact Hq].
Qed.

Lemma sanitize_args_returns (args sanitized result : list pyval) :
  sanitize_args args sanitized = Ok result ->
  result = sanitized ++ args
  /\ (forall arg, In arg args -> is_str arg = true)
  /\ (forall a pattern, In (PStr a) args -> In pattern shell_operators ->
                        ~ occurs_in pattern a).
Proof.
  revert sanitized. induction args as [|arg args IH]; intros sanitized H.
  - injection H as <-. rewrite app_nil_r. repeat split; intros; contradiction.
  - cbn [sanitize_args] in H. destruct arg as [| |z|a|l]; try discriminate.
    destruct (find _ dangerous_patterns) as [pattern|] eqn:Hfind; [discriminate|].
    apply IH in H. destruct H as [-> [Hstr Hpat]].
    rewrite <- app_assoc. split; [reflexivity|]. split.
    + intros x [<- | Hx]; [reflexivity | apply Hstr; exact Hx].
    + intros b q [Hb | Hb] Hq.
      * injection Hb as <-. apply (proj1 (find_dangerous_None a) Hfind q Hq).
      * apply Hpat; assumption.
Qed.

(** C8. [sanitize_command(cmd)] raises exactly when [cmd] is not a
    non-empty list, or holds an element that is not a string, or holds an
    argument in which one of the eight shell operators occurs; what it
    raises is a [ConfigurationError]; and a command it accepts is
    returned as it was given. *)
Theorem sanitize_command_refuses_exactly (cmd : pyval) :
  ((exists e, sanitize_command cmd = Raise e) <-> refused cmd)
  /\ (forall e, sanitize_command cmd = Raise e -> exn_class e = ConfigurationError)
  /\ (~ refused cmd -> sanitize_command cmd = Ok cmd).
Proof.
  assert (Hnot_list : forall v, is_list v = false -> refused v).
  { intros v Hv. left. intros [args [-> _]]. discriminate. }
  assert (Hempty : refused (PList [])).
  { left. intros [args [H Hne]]. injection H as <-. contradiction. }
  unfold sanitize_command.
  destruct cmd as [| b | z | s | args];
    try (split; [split; [intros _; apply Hnot_list; reflexivity | intros _; eauto]
                | split; [intros e [= <-]; reflexivity
                         | intros Hn; exfalso; apply Hn, Hnot_list; reflexivity]]).
  destruct args as [|arg args].
  { split; [split; [intros _; exact Hempty | intros _; simpl; eauto]
           | split; [intros e [= <-]; reflexivity
                    | intros Hn; exfalso; exact (Hn Hempty)]]. }
  cbn [is_list truthy negb orb as_list].
  destruct (sanitize_args (arg :: args) []) as [result | e] eqn:Hrun.
  - apply sanitize_args_returns in Hrun. destruct Hrun as [-> [Hstr Hpat]].
    assert (Hacc : ~ refused (PList (arg :: args))).
    { intros [Hr | [Hr | Hr]].
      - apply Hr. exists (arg :: args). split; [reflexivity | discriminate].
      - destruct Hr as [l [x [[= <-] [Hx Hs]]]]. rewrite (Hstr x Hx) in Hs. discriminate.
      - destruct Hr as [l [a [q [[= <-] [Ha [Hq Ho]]]]]]. exact (Hpat a q Ha Hq Ho). }
    split; [split; [intros [e He]; discriminate | intros Hr; contradiction]|].
    split; [intros e He; discriminate | intros _; reflexivity].
  - apply sanitize_args_raises in Hrun. destruct Hrun as [Hcls Hwhy].
    assert (Hr : refused (PList (arg :: args))).
    { destruct Hwhy as [[x [Hx Hs]] | [a [q [Ha [Hq Ho]]]]].
      - right; left. exists (arg :: args), x. auto.
      - right; right. exists (arg :: args), a, q. auto. }
    split; [split; [intros _; exact Hr | intros _; simpl; eauto]|].
    split; [intros e' [= <-]; exact Hcls | intros Hn; contradiction].
Qed.

(** [sanitize_command] at the commands of the test suite. *)
Example sanitize_command_accepts_ls :
  sanitize_command (PList [PStr (str "ls"); PStr (str "-la")])
  = Ok (PList [PStr (str "ls"); PStr (str "-la")]).
Proof. reflexivity. Qed.

Example sanitize_command_refuses_number :
  is_ok (sanitize_command (PList [PInt 123])) = false.
Proof. reflexivity. Qed.

Example sanitize_command_refuses_chain :
  is_ok (sanitize_command (PList [PStr (str "echo"); PStr (str "test && ls")])) = false.
Proof. reflexivity. Qed.

(** ** validators.py: validate_model_name *)

Ltac to_arith :=
  unfold model_name_char, lower_name_char, is_space, is_upper, is_lower, in_range in *;
  repeat match goal with
         | H : _ = false |- _ => apply not_true_iff_false in H
         | |- _ = false => apply not_true_iff_false
         end;
  rewrite ?orb_true_iff, ?andb_true_iff, ?N.leb_le, ?N.eqb_eq in *.

Lemma name_char_not_space (c : N) : model_name_char c = true -> is_space c = false.
Proof. intros H. to_arith. lia. Qed.

Lemma lower_char_name_char (c : N) :
  model_name_char c = true -> lower_name_char (lower_char c) = true.
Proof.
  intros H. unfold lower_char. destruct (is_upper c) eqn:Hu; to_arith; lia.
Qed.

Lemma lower_name_char_fixed (c : N) :
  lower_name_char c = true -> model_name_char c = true /\ lower_char c = c.
Proof.
  intros H. unfold lower_char. destruct (is_upper c) eqn:Hu.
  - exfalso. to_arith. lia.
  - split; [to_arith; lia | reflexivity].
Qed.

Lemma take_drop_while (p : N -> bool) (s : pystr) :
  s = take_while p s ++ drop_while p s
  /\ Forall (fun c => p c = true) (take_while p s)
  /\ (forall c rest, drop_while p s = c :: rest -> p c = false).
Proof.
  induction s as [|c s [IH1 [IH2 IH3]]]; simpl.
  - repeat split; [constructor | discriminate].
  - destruct (p c) eqn:Hc; simpl.
    + repeat split; [f_equal; exact IH1 | constructor; assumption | exact IH3].
    + repeat split; [constructor | intros ? ? [= <- _]; exact Hc].
Qed.

Lemma take_while_all (p : N -> bool) (s : pystr) :
  Forall (fun c => p c = true) s -> take_while p s = s /\ drop_while p s = [].
Proof.
  induction 1 as [|c s Hc _ [IH1 IH2]]; simpl; [auto|].
  rewrite Hc, IH1, IH2. auto.
Qed.

(** A stripped string does not end in a whitespace character. *)
Lemma rstrip_last (s body : pystr) (c : N) :
  rstrip s = body ++ [c] -> is_space c = false.
Proof.
  unfold rstrip. intros H.
  apply (f_equal (@rev N)) in H. rewrite rev_involutive, rev_app_distr in H.
  simpl in H. exact (proj2 (proj2 (take_drop_while is_space (rev s))) _ _ H).
Qed.

Lemma strip_no_space (s : pystr) :
  Forall (fun c => is_space c = false) s -> strip s = s.
Proof.
  intros H. unfold strip, lstrip, rstrip.
  assert (Hd : forall l, Forall (fun c => is_space c = false) l ->
                         drop_while is_space l = l).
  { intros l Hl. destruct Hl as [|c l Hc _]; simpl; [reflexivity | rewrite Hc; reflexivity]. }
  rewrite (Hd s H), Hd, rev_involutive; [reflexivity|].
  apply List.Forall_forall. intros c Hc. apply (proj1 (List.Forall_forall _ _) H).
  apply in_rev. exact Hc.
Qed.

(** On a string with no line feed at its end, the model of [re.match]
    decides "one or more characters of the class". *)
Lemma re_match_model_name_iff (s : pystr) :
  (forall body, s <> body ++ [lf]) ->
  re_match_model_name s = true <-> one_or_more model_name_char s.
Proof.
  intros Hlf. unfold re_match_model_name, one_or_more.
  destruct (take_drop_while model_name_char s) as [Hs [Hall Hfirst]].
  split.
  - destruct (take_while model_name_char s) as [|c body] eqn:Ht; [discriminate|].
    destruct (drop_while model_name_char s) as [|d [|d' rest]] eqn:Hd; try discriminate.
    + intros _. rewrite app_nil_r in Hs. rewrite Hs. split; [discriminate | exact Hall].
    + rewrite N.eqb_eq. intros ->. exfalso. exact (Hlf _ Hs).
  - intros [Hne Hcls]. destruct (take_while_all _ _ Hcls) as [-> ->].
    destruct s; [contradiction | reflexivity].
Qed.

Lemma strip_not_lf_ended (s body : pystr) : strip s <> body ++ [lf].
Proof.
  intros H. apply rstrip_last in H. discriminate.
Qed.

Lemma lower_fixed (r : pystr) :
  Forall (fun c => lower_name_char c = true) r -> lower r = r.
Proof.
  induction 1 as [|c r Hc _ IH]; [reflexivity|].
  unfold lower in *. simpl. rewrite IH.
  rewrite (proj2 (lower_name_char_fixed c Hc)). reflexivity.
Qed.

(** The strings [validate_model_name] accepts, and what it returns. *)
Lemma validate_model_name_returns (s r : pystr) :
  validate_model_name (PStr s) = Ok r <->
  s <> [] /\ one_or_more model_name_char (strip s) /\ r = lower (strip s).
Proof.
  unfold validate_model_name. cbn [is_str truthy negb orb as_str].
  destruct s as [|c s]; cbn [negb orb].
  { split; [discriminate | intros [H _]; contradiction]. }
  pose proof (re_match_model_name_iff (strip (c :: s)) (strip_not_lf_ended _)) as Hre.
  destruct (re_match_model_name (strip (c :: s))); cbn [negb].
  - split.
    + intros [= <-]. split; [discriminate|]. split; [apply Hre; reflexivity | reflexivity].
    + intros [_ [_ ->]]. reflexivity.
  - split; [discriminate|]. intros [_ [H _]]. apply Hre in H. discriminate.
Qed.

(** C9. A string [validate_model_name] accepts, that is a non-empty
    string whose stripped form consists of one or more characters of
    [[a-zA-Z0-9._-]], is mapped to its stripped form in lower case; the
    result consists of one or more characters of [[a-z0-9._-]]; and
    validating the result again returns it unchanged. *)
Theorem validate_model_name_idempotent (s : pystr) :
  s <> [] ->
  one_or_more model_name_char (strip s) ->
  validate_model_name (PStr s) = Ok (lower (strip s))
  /\ one_or_more lower_name_char (lower (strip s))
  /\ validate_model_name (PStr (lower (strip s))) = validate_model_name (PStr s).
Proof.
  intros Hne [Hne' Hcls].
  assert (Hfirst : validate_model_name (PStr s) = Ok (lower (strip s))).
  { apply validate_model_name_returns. repeat split; assumption. }
  assert (Hlow : Forall (fun c => lower_name_char c = true) (lower (strip s))).
  { unfold lower. apply List.Forall_forall. intros c Hc. apply in_map_iff in Hc.
    destruct Hc as [x [<- Hx]]. apply lower_char_name_char.
    exact (proj1 (List.Forall_forall _ _) Hcls x Hx). }
  assert (Hne2 : lower (strip s) <> []).
  { unfold lower. destruct (strip s); [contradiction | discriminate]. }
  split; [exact Hfirst|]. split; [split; assumption|].
  rewrite Hfirst. apply validate_model_name_returns.
  assert (Hstrip : strip (lower (strip s)) = lower (strip s)).
  { apply strip_no_space. apply List.Forall_forall. intros c Hc.
    apply name_char_not_space, lower_name_char_fixed.
    exact (proj1 (List.Forall_forall _ _) Hlow c Hc). }
  rewrite Hstrip. split; [exact Hne2|]. split.
  - split; [exact Hne2|]. apply List.Forall_forall. intros c Hc.
    apply lower_name_char_fixed. exact (proj1 (List.Forall_forall _ _) Hlow c Hc).
  - symmetry. apply lower_fixed. exact Hlow.
Qed.

(** The theorem at the model name [" GPT2 "]. *)
Lemma validate_model_name_idempotent_witness :
  validate_model_name (PStr (str " GPT2 ")) = Ok (str "gpt2")
  /\ one_or_more lower_name_char (str "gpt2")
  /\ validate_model_name (PStr (str "gpt2")) = validate_model_name (PStr (str " GPT2 ")).
Proof.
  apply (validate_model_name_idempotent (str " GPT2 ")).
  - discriminate.
  - split; [discriminate | repeat constructor].
Defined.

(** ** retry.py *)

Section RetryProperties.

Import Retry.
Local Open Scope nat_scope.

Context {T D : Type}.
Variable mul : D -> D -> D.
Variable fmt_delay : D -> pystr.
Variable sleep : D -> result unit.
Variable max_attempts : nat.
Variable delay backoff : D.
Variable exceptions : list exc_class.
Variable on_retry : option (exn -> nat -> result unit).
Variable func_name : pystr.
Variable func : nat -> result T.

Abbreviation loop :=
  (retry_loop mul fmt_delay sleep max_attempts backoff exceptions on_retry
     func_name func).

Lemma scaled_shift (d : D) (k : nat) :
  scaled mul backoff (mul d backoff) k = scaled mul backoff d (S k).
Proof.
  induction k as [|k IH]; [reflexivity|]. simpl. rewrite IH. reflexivity.
Qed.

Lemma backed_off_scaled (k : nat) :
  backed_off mul delay backoff k = scaled mul backoff delay k.
Proof.
  induction k as [|k IH]; [reflexivity|]. simpl. rewrite IH. reflexivity.
Qed.

Lemma attempts_invoked_app (a b : list (event D)) :
  attempts_invoked (a ++ b) = attempts_invoked a ++ attempts_invoked b.
Proof.
  induction a as [|[] a IH]; simpl; rewrite ?IH; reflexivity.
Qed.

Lemma invocations_attempts (events : list (event D)) :
  invocations events = length (attempts_invoked events).
Proof.
  induction events as [|[] events IH]; simpl; rewrite ?IH; reflexivity.
Qed.

Lemma sleeps_app (a b : list (event D)) :
  sleeps (a ++ b) = sleeps a ++ sleeps b.
Proof.
  induction a as [|[] a IH]; simpl; rewrite ?IH; reflexivity.
Qed.

Lemma call_on_retry_quiet (e : exn) (attempt : nat) :
  attempts_invoked (fst (@call_on_retry D on_retry e attempt)) = []
  /\ sleeps (fst (@call_on_retry D on_retry e attempt)) = [].
Proof.
  unfold call_on_retry. destruct on_retry; simpl; auto.
Qed.

Lemma scaled_seq (d : D) (n : nat) :
  d :: map (scaled mul backoff (mul d backoff)) (seq 0 n)
  = map (scaled mul backoff d) (seq 0 (S n)).
Proof.
  cbn [seq map scaled]. f_equal. rewrite <- seq_shift, map_map.
  apply map_ext. intros k. apply scaled_shift.
Qed.

Ltac six := refine (conj _ (conj _ (conj _ (conj _ (conj _ _))))).

(** Closes the goals of a run in which only the current attempt was
    invoked. *)
Ltac one_invocation Hf :=
  six; try lia; try reflexivity;
  try (intros k v' [<- | []] Hk; rewrite Hf in Hk;
       first [ discriminate | injection Hk as <-; split; [reflexivity | lia] ]);
  try (intros e' [Hk | []] He Hc; try lia; rewrite <- Hk, Hf in He;
       first [ discriminate
             | injection He as <-;
               first [ congruence | unfold gave_up, all_attempts_failed; eauto ] ]).

Lemma loop_shape (remaining attempt : nat) (d : D) (last : option exn) :
  attempt + remaining = S max_attempts ->
  let run := loop remaining attempt d last in
  attempts_invoked (fst run) = seq attempt (invocations (fst run))
  /\ (invocations (fst run) <= remaining)%nat
  /\ sleeps (fst run) = map (scaled mul backoff d) (seq 0 (length (sleeps (fst run))))
  /\ (invocations (fst run) <= S (length (sleeps (fst run))))%nat
  /\ (forall k v, In k (attempts_invoked (fst run)) -> func k = Ok v ->
        snd run = Ok v /\ attempt + invocations (fst run) = S k)
  /\ (forall e, In max_attempts (attempts_invoked (fst run)) ->
        func max_attempts = Raise e -> caught_by exceptions e = true ->
        gave_up (snd run) e).
Proof.
  revert attempt d last.
  induction remaining as [|remaining IH]; intros attempt d last Hsum; cbn zeta.
  - simpl. six; try lia; try reflexivity; intros; contradiction.
  - cbn [retry_loop]. destruct (func attempt) as [v|e] eqn:Hf.
    { simpl. one_invocation Hf. }
    destruct (caught_by exceptions e) eqn:Hcaught.
    2:{ simpl. one_invocation Hf. }
    destruct (Nat.ltb_spec attempt max_attempts) as [Hlt | Hge].
    + pose proof (call_on_retry_quiet e attempt) as [Hq1 Hq2].
      destruct (call_on_retry on_retry e attempt) as [called r1]. simpl in Hq1, Hq2.
      assert (Hq3 : invocations called = O)
        by (rewrite invocations_attempts, Hq1; reflexivity).
      destruct r1 as [[] | e1].
      2:{ simpl. rewrite Hq1, Hq2, Hq3. simpl. one_invocation Hf. }
      destruct (sleep d) as [[] | e2].
      2:{ simpl. rewrite attempts_invoked_app, sleeps_app, invocations_attempts,
            attempts_invoked_app, Hq1, Hq2. simpl. one_invocation Hf. }
      specialize (IH (S attempt) (mul d backoff) (Some e) ltac:(lia)). cbn zeta in IH.
      destruct (loop remaining (S attempt) (mul d backoff) (Some e)) as [later r].
      simpl in IH. destruct IH as [I1 [I2 [I3 [I4 [I5 I6]]]]].
      simpl. rewrite attempts_invoked_app, sleeps_app, invocations_attempts,
        attempts_invoked_app, Hq1, Hq2. simpl.
      rewrite <- invocations_attempts.
      six.
      * f_equal. exact I1.
      * lia.
      * rewrite I3 at 1. apply scaled_seq.
      * lia.
      * intros k v' [<- | Hk] Hv; [rewrite Hf in Hv; discriminate|].
        destruct (I5 _ _ Hk Hv) as [-> Hn]. split; [reflexivity | lia].
      * intros e' [Hk | Hk] He Hc; [lia | exact (I6 e' Hk He Hc)].
    + assert (remaining = O) by lia. subst remaining. simpl. one_invocation Hf.
Qed.

Lemma was_invoked_attempts (k : nat) (events : list (event D)) :
  was_invoked k events <-> In k (attempts_invoked events).
Proof.
  unfold was_invoked. induction events as [|ev events IH]; [reflexivity|].
  destruct ev; simpl; rewrite <- IH; split;
    try (intros [H | H]; [discriminate | exact H]);
    try (intros H; right; exact H).
  - intros [[= <-] | H]; [left; reflexivity | right; exact H].
  - intros [<- | H]; [left; reflexivity | right; exact H].
Qed.

Lemma loop_progress (remaining attempt : nat) (d : D) (last : option exn) (k : nat) :
  undisturbed sleep on_retry ->
  (attempt <= k < attempt + remaining)%nat ->
  k <= max_attempts ->
  (forall j, (attempt <= j < k)%nat ->
             exists e, func j = Raise e /\ caught_by exceptions e = true) ->
  In k (attempts_invoked (fst (loop remaining attempt d last))).
Proof.
  intros [Hsleep Hcb]. revert attempt d last.
  induction remaining as [|remaining IH]; intros attempt d last Hk Hmax Hfail; [lia|].
  cbn [retry_loop].
  destruct (Nat.eq_dec k attempt) as [-> | Hne].
  - destruct (func attempt) as [v|e]; [left; reflexivity|].
    destruct (caught_by exceptions e); [|left; reflexivity].
    destruct (attempt <? max_attempts)%nat.
    + destruct (call_on_retry on_retry e attempt) as [called [[]|e1]];
        [|left; reflexivity].
      destruct (sleep d) as [[]|e2]; [|left; reflexivity].
      destruct (loop remaining (S attempt) (mul d backoff) (Some e)). left; reflexivity.
    + destruct (loop remaining (S attempt) d (Some e)). left; reflexivity.
  - destruct (Hfail attempt ltac:(lia)) as [e [-> ->]].
    destruct (Nat.ltb_spec attempt max_attempts) as [_ | Hge]; [|lia].
    unfold call_on_retry.
    assert (Hlater : In k (attempts_invoked
                             (fst (loop remaining (S attempt) (mul d backoff) (Some e))))).
    { apply IH; [lia | exact Hmax | intros j Hj; apply Hfail; lia]. }
    remember (loop remaining (S attempt) (mul d backoff) (Some e)) as later_run eqn:Hrun.
    clear Hrun. destruct later_run as [later r]. simpl in Hlater.
    destruct on_retry as [callback|] eqn:Hon.
    + rewrite (Hcb callback e attempt eq_refl), Hsleep. simpl. right. exact Hlater.
    + rewrite Hsleep. simpl. right. exact Hlater.
Qed.

(** C7. A run of a function wrapped by [retry]:
    - the function is invoked at most [max_attempts] times, at the
      attempts 1, 2, ... in order;
    - when an invocation returns, its value is the value of the run
      and it is the last invocation;
    - when the [max_attempts]-th invocation takes place and raises a
      listed exception, the run raises a [DiagnosticError] raised from
      that exception; this is the case when every invocation raises a
      listed exception, [time.sleep] returns and no callback raises;
    - the [k]-th sleep lasts [delay * backoff * ... * backoff] with
      [k - 1] factors [backoff], and the invocation after it takes place
      only once it is over. *)
Theorem retry_contract :
  let run := retry mul fmt_delay sleep max_attempts delay backoff exceptions
               on_retry func_name func in
  (invocations (fst run) <= max_attempts)%nat
  /\ attempts_invoked (fst run) = seq 1 (invocations (fst run))
  /\ (forall k v, was_invoked k (fst run) -> func k = Ok v ->
        snd run = Ok v /\ invocations (fst run) = k)
  /\ (forall last, was_invoked max_attempts (fst run) ->
        func max_attempts = Raise last -> caught_by exceptions last = true ->
        gave_up (snd run) last)
  /\ (undisturbed sleep on_retry -> (1 <= max_attempts)%nat ->
      (forall k, (1 <= k <= max_attempts)%nat ->
                 exists e, func k = Raise e /\ caught_by exceptions e = true) ->
      forall last, func max_attempts = Raise last -> gave_up (snd run) last)
  /\ (forall k d, nth_error (sleeps (fst run)) k = Some d ->
        d = backed_off mul delay backoff k)
  /\ (invocations (fst run) <= S (length (sleeps (fst run))))%nat.
Proof.
  cbn zeta. unfold retry.
  destruct (loop_shape max_attempts 1 delay None eq_refl) as [I1 [I2 [I3 [I4 [I5 I6]]]]].
  cbn zeta in *.
  split; [exact I2|]. split; [exact I1|]. split.
  { intros k v Hk Hv. apply was_invoked_attempts in Hk.
    destruct (I5 k v Hk Hv) as [Hr Hn]. split; [exact Hr | lia]. }
  split.
  { intros last Hk. apply was_invoked_attempts in Hk. exact (I6 last Hk). }
  split.
  { intros Hq Hone Hfail last Hlast.
    destruct (Hfail max_attempts ltac:(lia)) as [e [He Hc]].
    rewrite Hlast in He. injection He as <-.
    apply (I6 last); [|exact Hlast | exact Hc].
    apply loop_progress; [exact Hq | lia | lia |].
    intros j Hj. apply Hfail. lia. }
  split; [|exact I4].
  intros k d Hk. rewrite I3 in Hk.
  rewrite backed_off_scaled.
  apply nth_error_In in Hk as Hin.
  assert (Hlen : (k < length (sleeps (fst (loop max_attempts 1%nat delay None))))%nat).
  { apply nth_error_Some. rewrite I3 at 1. rewrite Hk. discriminate. }
  rewrite nth_error_map in Hk.
  rewrite nth_error_seq in Hk.
  destruct (Nat.ltb_spec k (length (sleeps (fst (loop max_attempts 1%nat delay None)))));
    [|lia].
  simpl in Hk. injection Hk as <-. reflexivity.
Qed.

End RetryProperties.

(** Over the integers the delay before the [k]-th new attempt is
    [delay * backoff ^ (k - 1)]. *)
Lemma backed_off_power (delay backoff : Z) (k : nat) :
  Retry.backed_off Z.mul delay backoff k = (delay * backoff ^ Z.of_nat k)%Z.
Proof.
  induction k as [|k IH].
  - cbn. lia.
  - cbn [Retry.backed_off]. rewrite IH, Nat2Z.inj_succ, Z.pow_succ_r by lia. lia.
Qed.

(** With no attempt allowed the function is not invoked, no exception
    is at hand, and the wrapper raises its [RuntimeError]. *)
Example retry_without_attempts :
  Retry.retry Z.mul of_Z (fun _ => Ok ()) 0 1%Z 2%Z [ConnectionError] None
    (str "fetch") flaky
  = ([], Raise (builtin_error RuntimeError (str "Retry logic failed unexpectedly"))).
Proof. reflexivity. Qed.

(** The theorem at a run of three attempts, with delays 1 and 2. *)
Lemma retry_contract_witness :
  let run := Retry.retry Z.mul of_Z (fun _ => Ok ()) 3 1%Z 2%Z [ConnectionError]
               None (str "fetch") flaky in
  snd run = Ok 7%Z
  /\ Retry.invocations (fst run) = 3%nat
  /\ Retry.sleeps (fst run) = [1%Z; 2%Z].
Proof.
  cbn zeta.
  pose proof (retry_contract Z.mul of_Z (fun _ => Ok ()) 3 1%Z 2%Z [ConnectionError]
                None (str "fetch") flaky) as H.
  cbn zeta in H. destruct H as [_ [_ [H _]]].
  destruct (H 3%nat 7%Z) as [Hvalue Hcount].
  - unfold Retry.was_invoked. vm_compute. tauto.
  - reflexivity.
  - split; [exact Hvalue|]. split; [exact Hcount | reflexivity].
Defined.

(** ** parallel.py *)

Section ParallelProperties.

Import Parallel.
Local Open Scope nat_scope.

Context {T R : Type}.
Variable func : T -> result R.
Variable show : T -> pystr.

(** Looking every position up, in order, gives the list back. *)
Lemma omap_lookup_seq (pre l : list T) :
  omap (fun i => (pre ++ l) !! i) (seq (length pre) (length l)) = l.
Proof.
  revert pre. induction l as [|x l IH]; intros pre; [reflexivity|].
  cbn [length seq]. change (omap ?f (?i :: ?l)) with
    (match f i with Some y => y :: omap f l | None => omap f l end).
  cbv beta. rewrite list_lookup_middle by reflexivity. f_equal.
  specialize (IH (pre ++ [x])). rewrite <- app_assoc, length_app in IH.
  cbn [length app] in IH. rewrite Nat.add_1_r in IH. exact IH.
Qed.

Lemma omap_Permutation_lookup (items : list T) (a b : list nat) :
  Permutation a b ->
  Permutation (omap (fun i => items !! i) a) (omap (fun i => items !! i) b).
Proof.
  induction 1 as [| i a b _ IH | i j a | a b c _ IH1 _ IH2];
    repeat change (omap ?f (?i :: ?l)) with
      (match f i with Some y => y :: omap f l | None => omap f l end);
    cbv beta.
  - constructor.
  - destruct (items !! i); [constructor|]; exact IH.
  - destruct (items !! i), (items !! j); try reflexivity. constructor.
  - etransitivity; eassumption.
Qed.

(** When every future completes, [as_completed] yields the items, in
    the order of completion, and does not time out. *)
Lemma as_completed_all (items : list T) (completion : list nat) :
  all_complete items completion ->
  Permutation (fst (as_completed items completion)) items
  /\ snd (as_completed items completion) = false.
Proof.
  intros Hall. unfold as_completed. cbn [fst snd].
  assert (Hperm : Permutation (omap (fun i => items !! i) completion) items).
  { rewrite (omap_Permutation_lookup items _ _ Hall).
    pose proof (omap_lookup_seq [] items) as H. cbn [app length] in H.
    rewrite H. reflexivity. }
  split; [exact Hperm|].
  apply Permutation_length in Hperm. rewrite Hperm. apply Nat.ltb_irrefl.
Qed.

Lemma run_parallel_with_results_loop_all (yielded : list T)
    (results : list (T * (R + exn))) :
  raises_only_Exception func yielded ->
  run_parallel_with_results_loop func yielded results
  = Ok (results ++ map (outcome_pair func) yielded).
Proof.
  revert results.
  induction yielded as [|item rest IH]; intros results Hexc;
    cbn [run_parallel_with_results_loop map].
  - rewrite app_nil_r. reflexivity.
  - assert (Hrest : raises_only_Exception func rest).
    { intros x e Hx. apply Hexc. right. exact Hx. }
    destruct (func item) as [r|e] eqn:Hf.
    + assert (Hp : outcome_pair func item = (item, inl r))
        by (unfold outcome_pair; rewrite Hf; reflexivity).
      rewrite Hp, IH, <- app_assoc by exact Hrest. reflexivity.
    + assert (Hp : outcome_pair func item = (item, inr e))
        by (unfold outcome_pair; rewrite Hf; reflexivity).
      rewrite Hp, (Hexc item e (or_introl eq_refl) Hf), IH, <- app_assoc by exact Hrest.
      reflexivity.
Qed.

(** A pool of one worker or more is created. *)
Lemma ThreadPoolExecutor_positive (max_workers : Z) :
  (0 < max_workers)%Z -> ThreadPoolExecutor max_workers = Ok ().
Proof.
  intros Hpos. unfold ThreadPoolExecutor.
  destruct (Z.leb_spec max_workers 0); [lia | reflexivity].
Qed.

(** The pairs come in the order of completion. *)
Lemma run_parallel_with_results_all (max_workers : Z) (items : list T)
    (completion : list nat) :
  (0 < max_workers)%Z ->
  all_complete items completion ->
  raises_only_Exception func items ->
  run_parallel_with_results func max_workers items completion
  = Ok (map (outcome_pair func) (fst (as_completed items completion))).
Proof.
  intros Hpos Hall Hexc. unfold run_parallel_with_results.
  destruct (as_completed_all _ _ Hall) as [Hperm Htimeout].
  destruct items as [|item items].
  { apply Permutation_sym, Permutation_nil in Hperm. rewrite Hperm. reflexivity. }
  rewrite (ThreadPoolExecutor_positive _ Hpos). unfold mbind at 1, result_bind at 1.
  destruct (as_completed (item :: items) completion) as [yielded timed_out].
  cbn [fst snd] in *. subst timed_out.
  rewrite run_parallel_with_results_loop_all; [reflexivity|].
  intros x e Hx. apply Hexc. apply (Permutation_in _ Hperm). exact Hx.
Qed.

(** The loop stops at the first exception that does not derive from
    [Exception]. *)
Lemma run_parallel_with_results_loop_escape (done rest : list T) (item : T) (e : exn)
    (results : list (T * (R + exn))) :
  raises_only_Exception func done ->
  func item = Raise e ->
  isinstance e Exception = false ->
  run_parallel_with_results_loop func (done ++ item :: rest) results = Raise e.
Proof.
  revert results. induction done as [|x done IH]; intros results Hdone Hf He.
  - cbn [app run_parallel_with_results_loop]. rewrite Hf, He. reflexivity.
  - cbn [app run_parallel_with_results_loop].
    assert (Hrest : raises_only_Exception func done).
    { intros y e' Hy. apply Hdone. right. exact Hy. }
    destruct (func x) as [r|e'] eqn:Hx.
    + apply IH; assumption.
    + rewrite (Hdone x e' (or_introl eq_refl) Hx). apply IH; assumption.
Qed.

(** C2, as the code has it.  With a pool of one worker or more:
    when the timeout does not cut the run off and the exceptions
    [func] raises on the items derive from [Exception],
    [run_parallel_with_results] returns, and what it returns holds
    exactly one pair per input item: the item with the value of
    [func(item)], or with the exception the call raised; no exception
    reaches the caller.  An exception that does not derive from
    [Exception] is not caught: the first future, in the order of
    completion, whose call raised one ends the run, and that exception
    reaches the caller.  With no worker, the pool is not created: on a
    list that is not empty the function raises the [ValueError] of the
    executor. *)
Theorem run_parallel_with_results_one_pair_per_item
    (max_workers : Z) (items : list T) (completion : list nat) :
  ((0 < max_workers)%Z ->
   all_complete items completion ->
   raises_only_Exception func items ->
   exists results,
     run_parallel_with_results func max_workers items completion = Ok results
     /\ Permutation results (map (outcome_pair func) items))
  /\ ((0 < max_workers)%Z ->
      forall done item rest e,
        fst (as_completed items completion) = done ++ item :: rest ->
        raises_only_Exception func done ->
        func item = Raise e ->
        isinstance e Exception = false ->
        run_parallel_with_results func max_workers items completion = Raise e)
  /\ ((max_workers <= 0)%Z ->
      items <> [] ->
      run_parallel_with_results func max_workers items completion
      = Raise (builtin_error ValueError (str "max_workers must be greater than 0"))).
Proof.
  split; [|split].
  - intros Hpos Hall Hexc.
    exists (map (outcome_pair func) (fst (as_completed items completion))).
    split; [apply run_parallel_with_results_all; assumption|].
    apply Permutation_map. apply as_completed_all. exact Hall.
  - intros Hpos done item rest e Hy Hdone Hf He. unfold run_parallel_with_results.
    destruct items as [|first items].
    { exfalso. unfold as_completed in Hy. cbn [fst] in Hy.
      assert (Hnil : omap (fun i => (@nil T) !! i) completion = []).
      { clear. induction completion as [|i c IH]; [reflexivity|].
        change (omap ?f (?i :: ?l)) with
          (match f i with Some y => y :: omap f l | None => omap f l end).
        cbv beta. rewrite lookup_nil. exact IH. }
      rewrite Hnil in Hy. destruct done; discriminate. }
    rewrite (ThreadPoolExecutor_positive _ Hpos). unfold mbind at 1, result_bind at 1.
    destruct (as_completed (first :: items) completion) as [yielded timed_out].
    cbn [fst] in Hy. subst yielded.
    rewrite (run_parallel_with_results_loop_escape done rest item e [] Hdone Hf He).
    reflexivity.
  - intros Hnone Hitems. unfold run_parallel_with_results, ThreadPoolExecutor.
    destruct items as [|first items]; [contradiction|].
    destruct (Z.leb_spec max_workers 0); [reflexivity | lia].
Qed.

(** [run_parallel] returns the values in the order of completion. *)
Lemma run_parallel_loop_all (yielded : list T) (values : list R)
    (results : list R) (completed : nat) :
  map func yielded = map Ok values ->
  run_parallel_loop func show yielded results completed
  = ([], Ok (results ++ values, completed + length values)).
Proof.
  revert values results completed.
  induction yielded as [|item rest IH]; intros values results completed Hv.
  - destruct values; [|discriminate]. cbn. rewrite app_nil_r, Nat.add_0_r. reflexivity.
  - destruct values as [|v values]; [discriminate|]. injection Hv as Hf Hrest.
    cbn [run_parallel_loop]. rewrite Hf, (IH values) by exact Hrest.
    rewrite <- app_assoc. cbn [length app]. do 3 f_equal. lia.
Qed.

Lemma run_parallel_in_completion_order (max_workers : Z) (items : list T)
    (completion : list nat) (values : list R) :
  (0 < max_workers)%Z ->
  all_complete items completion ->
  map func (fst (as_completed items completion)) = map Ok values ->
  run_parallel func show max_workers items completion = ([], Ok values).
Proof.
  intros Hpos Hall Hv. unfold run_parallel.
  destruct items as [|item items].
  { unfold as_completed in Hv. cbn [fst] in Hv.
    assert (Hnil : omap (fun i => (@nil T) !! i) completion = []).
    { clear. induction completion as [|i c IH]; [reflexivity|].
      change (omap ?f (?i :: ?l)) with
        (match f i with Some y => y :: omap f l | None => omap f l end).
      cbv beta. rewrite lookup_nil. exact IH. }
    rewrite Hnil in Hv. destruct values; [reflexivity | discriminate]. }
  rewrite (ThreadPoolExecutor_positive _ Hpos).
  destruct (as_completed_all _ _ Hall) as [Hperm Htimeout].
  destruct (as_completed (item :: items) completion) as [yielded timed_out].
  cbn [fst snd] in *. subst timed_out.
  rewrite (run_parallel_loop_all yielded values) by exact Hv.
  cbn [app Nat.add].
  assert (Hlen : length values = length (item :: items)).
  { apply Permutation_length in Hperm. rewrite <- Hperm.
    rewrite <- (length_map (@Ok R) values), <- Hv, length_map. reflexivity. }
  rewrite Hlen, Nat.eqb_refl. reflexivity.
Qed.

End ParallelProperties.

(** The theorem at the example of the docstring and the default of
    four workers, with the futures completing in the order third,
    first, second; and at the function that leaves the interpreter on
    ["bad"], with the futures completing in the order of the items. *)
Lemma run_parallel_with_results_one_pair_per_item_witness :
  (exists results,
      Parallel.run_parallel_with_results check_library_example 4
        [str "torch"; str "bad"; str "peft"] [2; 0; 1]%nat = Ok results
      /\ Permutation results
           (map (Parallel.outcome_pair check_library_example)
              [str "torch"; str "bad"; str "peft"]))
  /\ Parallel.run_parallel_with_results exit_on_bad 4
       [str "torch"; str "bad"; str "peft"] [0; 1; 2]%nat
     = Raise (builtin_error SystemExit (str "1")).
Proof.
  split.
  - apply (run_parallel_with_results_one_pair_per_item check_library_example 4
             [str "torch"; str "bad"; str "peft"] [2; 0; 1]%nat).
    + lia.
    + unfold Parallel.all_complete. cbn [length seq].
      apply perm_trans with (l' := [0; 2; 1]%nat); [apply perm_swap|].
      apply perm_skip. apply perm_swap.
    + intros item e _. unfold check_library_example.
      destruct (bool_decide (item = str "bad")); [|discriminate].
      intros [= <-]. reflexivity.
  - apply (run_parallel_with_results_one_pair_per_item exit_on_bad 4
             [str "torch"; str "bad"; str "peft"] [0; 1; 2]%nat)
      with (done := [str "torch"]) (item := str "bad") (rest := [str "peft"]).
    + lia.
    + reflexivity.
    + intros item e [<- | []]. discriminate.
    + reflexivity.
    + reflexivity.
Defined.

(** C2 as stated fails for an exception that does not derive from
    [Exception]: the handler [except Exception] lets it through, and
    it reaches the caller although no timeout cut the run off. *)
Lemma run_parallel_with_results_lets_SystemExit_through :
  Parallel.all_complete [str "torch"; str "bad"; str "peft"] [0; 1; 2]%nat
  /\ exit_on_bad (str "bad") = Raise (builtin_error SystemExit (str "1"))
  /\ Parallel.run_parallel_with_results exit_on_bad 4
       [str "torch"; str "bad"; str "peft"] [0; 1; 2]%nat
     = Raise (builtin_error SystemExit (str "1")).
Proof.
  split; [apply Permutation_refl|]. split; reflexivity.
Qed.

(** C1 at two items whose futures complete in the order second, first,
    with the default of four workers: the timeout cuts nothing off, and
    the list [run_parallel] returns is not in the order of the input
    items. *)
Theorem run_parallel_out_of_order :
  Parallel.all_complete [1; 2]%nat [1; 0]%nat
  /\ snd (Parallel.run_parallel times_ten of_nat 4 [1; 2]%nat [1; 0]%nat)
     = Ok [20; 10]%nat
  /\ map times_ten [1; 2]%nat = [Ok 10%nat; Ok 20%nat].
Proof.
  split; [apply perm_swap|]. split; reflexivity.
Qed.

(** ** diagnose.py: the records of the probes *)

Lemma well_formedb_spec (issue : DiagnosticIssue) :
  well_formedb issue = true -> well_formed issue.
Proof.
  unfold well_formedb, well_formed. rewrite andb_true_iff. intros [Hs Ht]. split.
  - apply existsb_exists in Hs. destruct Hs as [s [Hin Hs]].
    apply bool_decide_eq_true in Hs. rewrite Hs. exact Hin.
  - destruct (head (split_ws (status issue))) as [token|]; [|discriminate].
    exists token. split; [reflexivity|].
    apply existsb_exists in Ht. destruct Ht as [c [Hin Hc]].
    apply bool_decide_eq_true in Hc. rewrite Hc. exact Hin.
Qed.

(** Splits the goal along the branches of a probe, then checks the
    records of each branch by computation. *)
Ltac branches :=
  repeat match goal with
         | |- context [match ?x with _ => _ end] =>
             lazymatch x with
             | context [match _ with _ => _ end] => fail
             | _ => destruct x eqn:?
             end
         end.

Ltac records :=
  unfold produced;
  repeat first [ apply List.Forall_nil
               | apply List.Forall_cons;
                 [apply well_formedb_spec; vm_compute; reflexivity|]
               | apply Forall_app; split ].

Ltac probe := unfold mbind, result_bind, except_Exception; cbv beta; branches; records.

Lemma check_cuda_driver_well_formed (env : Env) :
  Forall well_formed (produced (check_cuda_driver env)).
Proof. unfold check_cuda_driver. probe. Qed.

Lemma check_pytorch_cuda_well_formed (env : Env) :
  Forall well_formed (produced (check_pytorch_cuda env)).
Proof. unfold check_pytorch_cuda. cbv zeta. probe. Qed.

Lemma check_library_well_formed (env : Env) (lib_name version_req : pystr) :
  Forall well_formed (produced (check_library env lib_name version_req)).
Proof. unfold check_library. probe. Qed.

Lemma check_libraries_well_formed (env : Env) (libs : list (pystr * pystr))
    (issues : list DiagnosticIssue) :
  Forall well_formed issues ->
  Forall well_formed (produced (check_libraries env libs issues)).
Proof.
  revert issues. induction libs as [|[lib_name version_req] libs IH]; intros issues Hwf.
  - exact Hwf.
  - cbn [check_libraries]. unfold mbind, result_bind.
    pose proof (check_library_well_formed env lib_name version_req) as Hfound.
    destruct (check_library env lib_name version_req) as [found|e].
    + apply IH. apply Forall_app. split; [exact Hwf | exact Hfound].
    + constructor.
Qed.

Lemma check_ml_libraries_well_formed (env : Env) :
  Forall well_formed (produced (check_ml_libraries env)).
Proof. apply check_libraries_well_formed. constructor. Qed.

Lemma check_gpu_memory_well_formed (env : Env) :
  Forall well_formed (produced (check_gpu_memory env)).
Proof. unfold check_gpu_memory. probe. Qed.

Lemma check_disk_space_well_formed (env : Env) :
  Forall well_formed (produced (check_disk_space env)).
Proof. unfold check_disk_space. probe. Qed.

Lemma check_docker_gpu_well_formed (env : Env) :
  Forall well_formed (produced (check_docker_gpu env)).
Proof. unfold check_docker_gpu. probe. Qed.

Lemma check_internet_connectivity_well_formed (env : Env) :
  Forall well_formed (produced (check_internet_connectivity env)).
Proof. unfold check_internet_connectivity. probe. Qed.

(** The probes in a healthy and in a broken environment. *)
Example healthy_statuses :
  map status (produced (snd (diagnose_env healthy_env false true false [] [])))
  = [str "PASS - CUDA 12.4"; str "PASS - CUDA 12.4 (1 GPU(s))";
     str "PASS - 4.44.2"; str "PASS - 4.44.2"; str "PASS - 4.44.2";
     str "PASS - 4.44.2"; str "PASS - 4.44.2";
     str "PASS - 40GB free"; str "PASS - 200GB free";
     str "PASS - nvidia-docker working"; str "PASS - HF Hub accessible"].
Proof. vm_compute. reflexivity. Qed.

Example broken_statuses :
  map status (produced (snd (diagnose_env broken_env false true false [] [])))
  = [str "FAIL - nvidia-smi not found"; str "FAIL - Not installed";
     str "FAIL - Check error"; str "INFO - Cache dir not found";
     str "INFO - Docker not installed"; str "PASS - HF Hub accessible"].
Proof. vm_compute. reflexivity. Qed.

(** C4. Every record a probe produces has one of the severities
    "critical", "warning", "info", and a status whose first
    whitespace-separated token is one of PASS, FAIL, WARN, INFO. *)
Theorem probe_records_well_formed (env : Env) :
  Forall well_formed (produced (check_cuda_driver env))
  /\ Forall well_formed (produced (check_pytorch_cuda env))
  /\ Forall well_formed (produced (check_ml_libraries env))
  /\ Forall well_formed (produced (check_gpu_memory env))
  /\ Forall well_formed (produced (check_disk_space env))
  /\ Forall well_formed (produced (check_docker_gpu env))
  /\ Forall well_formed (produced (check_internet_connectivity env)).
Proof.
  repeat split.
  - apply check_cuda_driver_well_formed.
  - apply check_pytorch_cuda_well_formed.
  - apply check_ml_libraries_well_formed.
  - apply check_gpu_memory_well_formed.
  - apply check_disk_space_well_formed.
  - apply check_docker_gpu_well_formed.
  - apply check_internet_connectivity_well_formed.
Qed.

(** ** diagnose.py: diagnose_env *)

Section DiagnoseEnv.

Import Parallel.



Lemma collect_core_all (checks : list check) (all_issues : list DiagnosticIssue) :
  collect_core (map (outcome_pair call) checks) all_issues
  = (failures core_failure_log checks, all_issues ++ flat_map core_records checks).
Proof.
  revert all_issues. induction checks as [|c checks IH]; intros all_issues.
  - cbn. rewrite app_nil_r. reflexivity.
  - cbn [map failures flat_map]. unfold outcome_pair at 1, core_records at 1.
    destruct (call c) as [found|e]; cbn [collect_core];
      rewrite IH, <- app_assoc; reflexivity.
Qed.

Lemma collect_extended_all (checks : list check) (all_issues : list DiagnosticIssue) :
  collect_extended (map (outcome_pair call) checks) all_issues
  = (failures extended_failure_log checks,
     all_issues ++ flat_map extended_records checks).
Proof.
  revert all_issues. induction checks as [|c checks IH]; intros all_issues.
  - cbn. rewrite app_nil_r. reflexivity.
  - cbn [map failures flat_map]. unfold outcome_pair at 1, extended_records at 1.
    destruct (call c) as [found|e]; cbn [collect_extended]; rewrite IH;
      rewrite <- ?app_assoc; reflexivity.
Qed.


End DiagnoseEnv.




(** ** The renderers and the exporters leave the records alone *)

Create HintDb frame.

Lemma preserves_mem_ret {A} (a : A) : preserves_mem (mret a).
Proof. intros w. reflexivity. Qed.

Lemma preserves_mem_bind {A B} (m : IO A) (f : A -> IO B) :
  preserves_mem m -> (forall a, preserves_mem (f a)) -> preserves_mem (m ≫= f).
Proof.
  intros Hm Hf w. unfold mbind, IO_bind. specialize (Hm w).
  destruct (m w) as [[a | e] w']; cbn [snd] in *.
  - rewrite Hf. exact Hm.
  - exact Hm.
Qed.

Lemma preserves_mem_read_issues : preserves_mem read_issues.
Proof. intros w. reflexivity. Qed.

Lemma preserves_mem_console_print (r : rendered) : preserves_mem (console_print r).
Proof. intros w. unfold console_print. destruct (rendering w r); reflexivity. Qed.

Lemma preserves_mem_on_console (r : rendered) : preserves_mem (on_console r).
Proof. intros w. reflexivity. Qed.

Lemma preserves_mem_write_text (path text : pystr) : preserves_mem (write_text path text).
Proof. intros w. reflexivity. Qed.

Lemma preserves_mem_datetime_now : preserves_mem datetime_now.
Proof. intros w. reflexivity. Qed.

Lemma preserves_mem_lift {A} (r : result A) : preserves_mem (lift r).
Proof. intros w. reflexivity. Qed.

Lemma preserves_mem_when (b : bool) (m : IO unit) :
  preserves_mem m -> preserves_mem (when b m).
Proof. intros Hm. destruct b; [exact Hm | apply preserves_mem_ret]. Qed.

#[local] Hint Resolve preserves_mem_ret preserves_mem_read_issues
  preserves_mem_console_print preserves_mem_write_text preserves_mem_datetime_now
  preserves_mem_lift preserves_mem_when : frame.

Ltac frame :=
  repeat first
    [ apply preserves_mem_bind; [|intros ?]
    | solve [auto with frame]
    | progress cbv zeta
    | match goal with
      | |- preserves_mem (if ?b then _ else _) => destruct b
      end ].

Lemma print_diagnostic_table_preserves_mem (use_emojis : bool) :
  preserves_mem (print_diagnostic_table use_emojis).
Proof. unfold print_diagnostic_table. frame. Qed.

Lemma export_json_preserves_mem (output_file : option pystr) (include_metadata : bool) :
  preserves_mem (export_json output_file include_metadata).
Proof. unfold export_json. frame. Qed.

Lemma export_csv_preserves_mem (output_file : option pystr) :
  preserves_mem (export_csv output_file).
Proof. unfold export_csv. frame. Qed.

Lemma export_html_preserves_mem (output_file : option pystr) :
  preserves_mem (export_html output_file).
Proof. unfold export_html. frame. Qed.

(** C5. [export_json], [export_csv], [export_html] and
    [print_diagnostic_table] leave the list of records as it was: the
    same records, with the same fields, in the same order. *)
Theorem records_unchanged (w : World) (use_emojis include_metadata : bool)
    (output_file : option pystr) :
  mem (snd (export_json output_file include_metadata w)) = mem w
  /\ mem (snd (export_csv output_file w)) = mem w
  /\ mem (snd (export_html output_file w)) = mem w
  /\ mem (snd (print_diagnostic_table use_emojis w)) = mem w.
Proof.
  split; [apply export_json_preserves_mem|].
  split; [apply export_csv_preserves_mem|].
  split; [apply export_html_preserves_mem|].
  apply print_diagnostic_table_preserves_mem.
Qed.

(** ** What the exporters write *)

Lemma fold_left_append (issues : list DiagnosticIssue) (html : pystr) :
  fold_left (fun html issue => html ++ html_row issue) issues html
  = html ++ concat (map html_row issues).
Proof.
  revert html. induction issues as [|issue issues IH]; intros html; cbn.
  - rewrite app_nil_r. reflexivity.
  - rewrite IH, <- app_assoc. reflexivity.
Qed.

Lemma export_csv_writes (output_file : option pystr) (w : World) :
  written (export_csv output_file w)
  = Some (writerow csv_header
            ++ concat (map (fun issue => writerow (csv_row issue)) (mem w))).
Proof.
  unfold written, export_csv, mbind, IO_bind, read_issues, write_text, mret, IO_ret.
  cbn [fst snd files]. apply lookup_insert_eq.
Qed.

Lemma export_json_writes (output_file : option pystr) (include_metadata : bool)
    (w : World) :
  written (export_json output_file include_metadata w)
  = Some (json_dumps
            (JDict ([(str "issues", JList (map issue_to_dict (mem w)));
                     (str "summary", json_summary (mem w))]
                      ++ if include_metadata
                         then [(str "metadata", json_metadata (now w))]
                         else []))).
Proof.
  unfold written, export_json, mbind, IO_bind, read_issues, write_text, datetime_now,
    mret, IO_ret.
  destruct include_metadata; cbn [fst snd files now].
  - rewrite lookup_insert_eq. reflexivity.
  - rewrite lookup_insert_eq, app_nil_r. reflexivity.
Qed.

(** The counts of [export_html], as the function computes them. *)
Lemma export_html_writes (output_file : option pystr) (w : World) :
  written (export_html output_file w)
  = Some (html_head (strftime (now w)) __version__ (length (mem w))
            (count_where (fun i => contains (str "PASS") (status i)) (mem w))
            (count_where (fun i => bool_decide (severity i = str "warning")
                                   && (contains (str "WARN") (status i)
                                       || contains (str "FAIL") (status i))) (mem w))
            (count_where (fun i => bool_decide (severity i = str "critical")
                                   && contains (str "FAIL") (status i)) (mem w))
            ++ concat (map html_row (mem w)) ++ html_foot).
Proof.
  unfold written, export_html, mbind, IO_bind, read_issues, write_text, datetime_now,
    mret, IO_ret.
  cbn [fst snd files now]. rewrite lookup_insert_eq, fold_left_append, <- app_assoc.
  reflexivity.
Qed.

(** C6, as the code has it.  On equal lists of records, [export_csv]
    and [export_json] without metadata write the same text, whatever
    the rest of the state; [export_json] with metadata and
    [export_html] write the same text when the clock reads the same,
    for they write the time of the call into the file. *)
Theorem exports_determined_by_records_and_clock (w1 w2 : World)
    (output_file : option pystr) :
  mem w1 = mem w2 ->
  (written (export_csv output_file w1) = written (export_csv output_file w2)
   /\ is_Some (written (export_csv output_file w1)))
  /\ (written (export_json output_file false w1)
      = written (export_json output_file false w2)
      /\ is_Some (written (export_json output_file false w1)))
  /\ (now w1 = now w2 ->
      written (export_json output_file true w1)
      = written (export_json output_file true w2)
      /\ written (export_html output_file w1) = written (export_html output_file w2)
      /\ is_Some (written (export_json output_file true w1))
      /\ is_Some (written (export_html output_file w1))).
Proof.
  intros Hmem.
  rewrite !export_csv_writes, !export_json_writes, !export_html_writes, Hmem.
  split; [split; [reflexivity | eauto]|].
  split; [split; [reflexivity | eauto]|].
  intros ->. repeat split; eauto.
Qed.

(** The theorem at two states that differ in their console and files. *)
Lemma exports_determined_by_records_and_clock_witness :
  let w2 := {| mem := mem at_noon; console := [NewLine]; log := [];
               files := {[ str "old.txt" := str "kept" ]}; now := now at_noon;
               rich_print := rich_print at_noon; file_at := file_at at_noon |} in
  (written (export_csv None at_noon) = written (export_csv None w2)
   /\ is_Some (written (export_csv None at_noon)))
  /\ (written (export_json None false at_noon) = written (export_json None false w2)
      /\ is_Some (written (export_json None false at_noon)))
  /\ (now at_noon = now w2 ->
      written (export_json None true at_noon) = written (export_json None true w2)
      /\ written (export_html None at_noon) = written (export_html None w2)
      /\ is_Some (written (export_json None true at_noon))
      /\ is_Some (written (export_html None at_noon))).
Proof.
  cbn zeta. apply exports_determined_by_records_and_clock. reflexivity.
Defined.

(** C6 as stated fails: on the same (empty) list of records, a second
    apart, [export_html] and [export_json] with its default metadata
    write different texts. *)
Lemma exports_embed_the_time_of_the_call :
  mem at_noon = mem just_after_noon
  /\ written (export_html None at_noon) <> written (export_html None just_after_noon)
  /\ written (export_json None true at_noon)
     <> written (export_json None true just_after_noon).
Proof.
  split; [reflexivity|]. split.
  - refine (proj1 (bool_decide_eq_false (_ = _)) _). vm_compute. reflexivity.
  - refine (proj1 (bool_decide_eq_false (_ = _)) _). vm_compute. reflexivity.
Qed.

(** ** The three summaries *)

Lemma fold_left_add (l : list nat) (a : nat) :
  fold_left Nat.add l a = (a + fold_left Nat.add l O)%nat.
Proof.
  revert a. induction l as [|x l IH]; intros a; cbn [fold_left].
  - lia.
  - rewrite (IH (a + x)%nat), (IH (0 + x)%nat). lia.
Qed.

Lemma count_where_cons (cond : DiagnosticIssue -> bool) (i : DiagnosticIssue)
    (issues : list DiagnosticIssue) :
  count_where cond (i :: issues)
  = ((if cond i then 1 else 0) + count_where cond issues)%nat.
Proof.
  unfold count_where, sum. cbn [List.filter].
  destruct (cond i); cbn [map fold_left]; [|reflexivity].
  rewrite fold_left_add. reflexivity.
Qed.

(** [sum(1 for i in issues if cond(i))] counts the records for which
    the condition holds. *)
Lemma count_where_counted (cond : DiagnosticIssue -> bool) (P : DiagnosticIssue -> Prop)
    (issues : list DiagnosticIssue) :
  (forall i, cond i = true <-> P i) ->
  counted P issues (count_where cond issues).
Proof.
  intros Hcond. induction issues as [|i issues IH].
  - constructor.
  - rewrite count_where_cons. destruct (cond i) eqn:Hi.
    + apply counted_in; [apply Hcond; exact Hi | exact IH].
    + apply counted_out; [|exact IH].
      intros HP. apply Hcond in HP. congruence.
Qed.

Lemma critical_condition (i : DiagnosticIssue) :
  bool_decide (severity i = str "critical") && contains (str "FAIL") (status i) = true
  <-> counts_as_critical i.
Proof.
  unfold counts_as_critical.
  rewrite andb_true_iff, bool_decide_eq_true, contains_spec. reflexivity.
Qed.

Lemma warning_condition (i : DiagnosticIssue) :
  bool_decide (severity i = str "warning")
  && (contains (str "WARN") (status i) || contains (str "FAIL") (status i)) = true
  <-> counts_as_warning i.
Proof.
  unfold counts_as_warning.
  rewrite andb_true_iff, orb_true_iff, bool_decide_eq_true, !contains_spec. reflexivity.
Qed.

Lemma passed_condition (i : DiagnosticIssue) :
  contains (str "PASS") (status i) = true <-> counts_as_passed i.
Proof. apply contains_spec. Qed.

Lemma to_row_returns (use_emojis : bool) (issue : DiagnosticIssue) :
  split_ws (status issue) <> [] -> exists row, to_row use_emojis issue = Ok row.
Proof.
  intros Htok. unfold to_row, first_token.
  destruct (split_ws (status issue)) as [|token rest]; [contradiction|].
  eexists. reflexivity.
Qed.

(** The table gets one row per record when every status holds a token. *)
Lemma add_rows_returns (use_emojis : bool) (issues : list DiagnosticIssue)
    (rows : list (pystr * pystr * pystr * pystr)) :
  statuses_have_tokens issues ->
  exists added, add_rows use_emojis issues rows = Ok (rows ++ added)
                /\ length added = length issues.
Proof.
  revert rows. induction issues as [|issue issues IH]; intros rows Htok.
  - exists []. rewrite app_nil_r. split; reflexivity.
  - cbn [add_rows].
    destruct (to_row_returns use_emojis issue (Htok issue (or_introl eq_refl)))
      as [row ->].
    destruct (IH (rows ++ [row])) as [added [Hrun Hlen]].
    { intros x Hx. apply Htok. right. exact Hx. }
    exists (row :: added). cbn [mbind result_bind]. unfold mbind, result_bind.
    rewrite Hrun, <- app_assoc. split; [reflexivity|].
    cbn [length]. rewrite Hlen. reflexivity.
Qed.

Lemma print_diagnostic_table_prints (use_emojis : bool) (w : World)
    (rows : list (pystr * pystr * pystr * pystr)) :
  prints_all w ->
  add_rows use_emojis (mem w) [] = Ok rows ->
  let passed := count_where (fun i => contains (str "PASS") (status i)) (mem w) in
  let warnings :=
    count_where (fun i => bool_decide (severity i = str "warning")
                          && (contains (str "WARN") (status i)
                              || contains (str "FAIL") (status i))) (mem w) in
  let critical :=
    count_where (fun i => bool_decide (severity i = str "critical")
                          && contains (str "FAIL") (status i)) (mem w) in
  fst (print_diagnostic_table use_emojis w) = Ok ()
  /\ console (snd (print_diagnostic_table use_emojis w))
     = console w
         ++ [NewLine; TableRendered table_title table_columns rows; NewLine]
         ++ summary_lines use_emojis passed warnings critical
         ++ [closing_line use_emojis warnings critical].
Proof.
  intros Hall Hrows passed warnings critical.
  unfold print_diagnostic_table, mbind, IO_bind, read_issues, lift, when, console_print,
    rendering, on_console, mret, IO_ret, summary_lines, closing_line.
  rewrite Hrows. fold passed warnings critical.
  destruct (0 <? warnings)%nat, (0 <? critical)%nat,
    ((critical =? 0)%nat && (warnings =? 0)%nat);
    cbn [fst snd console rich_print app]; rewrite ?Hall;
    cbn [fst snd console rich_print app]; rewrite ?Hall;
    cbn [fst snd console rich_print app]; rewrite ?Hall;
    cbn [fst snd console rich_print app]; rewrite ?Hall;
    cbn [fst snd console rich_print app]; rewrite ?Hall;
    cbn [fst snd console rich_print app];
    (split; [reflexivity|]); rewrite <- ?app_assoc; reflexivity.
Qed.

(** Where the table is printed, the three summaries agree.  For a
    list of records whose statuses each hold a token, on a console
    that prints what it is given, there are counts [passed],
    [warnings] and [critical], obtained as the specification says, such
    that the JSON export writes them with the length of the list as its
    summary, the HTML export writes them into its summary cards, and
    [print_diagnostic_table] prints them. *)
Lemma summaries_agree (w : World) (use_emojis include_metadata : bool)
    (json_output html_output : option pystr) :
  statuses_have_tokens (mem w) ->
  prints_all w ->
  exists passed warnings critical,
    counted counts_as_passed (mem w) passed
    /\ counted counts_as_warning (mem w) warnings
    /\ counted counts_as_critical (mem w) critical
    /\ written (export_json json_output include_metadata w)
       = Some (json_dumps
                 (JDict ([(str "issues", JList (map issue_to_dict (mem w)));
                          (str "summary",
                           summary_dict (length (mem w)) passed warnings critical)]
                           ++ if include_metadata
                              then [(str "metadata", json_metadata (now w))]
                              else [])))
    /\ written (export_html html_output w)
       = Some (html_head (strftime (now w)) __version__ (length (mem w))
                 passed warnings critical
                 ++ concat (map html_row (mem w)) ++ html_foot)
    /\ fst (print_diagnostic_table use_emojis w) = Ok ()
    /\ exists rows,
         length rows = length (mem w)
         /\ console (snd (print_diagnostic_table use_emojis w))
            = console w
                ++ [NewLine; TableRendered table_title table_columns rows; NewLine]
                ++ summary_lines use_emojis passed warnings critical
                ++ [closing_line use_emojis warnings critical].
Proof.
  intros Htok Hall.
  exists (count_where (fun i => contains (str "PASS") (status i)) (mem w)).
  exists (count_where (fun i => bool_decide (severity i = str "warning")
                                && (contains (str "WARN") (status i)
                                    || contains (str "FAIL") (status i))) (mem w)).
  exists (count_where (fun i => bool_decide (severity i = str "critical")
                                && contains (str "FAIL") (status i)) (mem w)).
  split; [apply count_where_counted, passed_condition|].
  split; [apply count_where_counted, warning_condition|].
  split; [apply count_where_counted, critical_condition|].
  split; [apply export_json_writes|].
  split; [apply export_html_writes|].
  destruct (add_rows_returns use_emojis (mem w) [] Htok) as [rows [Hrows Hlen]].
  cbn [app] in Hrows.
  destruct (print_diagnostic_table_prints use_emojis w rows Hall Hrows)
    as [Hok Hconsole].
  split; [exact Hok|]. exists rows. split; [exact Hlen | exact Hconsole].
Qed.

(** The lemma at a list of one failed and one passed check. *)
Lemma summaries_agree_witness :
  exists passed warnings critical,
    counted counts_as_passed (mem two_records) passed
    /\ counted counts_as_warning (mem two_records) warnings
    /\ counted counts_as_critical (mem two_records) critical
    /\ written (export_json None false two_records)
       = Some (json_dumps
                 (JDict ([(str "issues", JList (map issue_to_dict (mem two_records)));
                          (str "summary",
                           summary_dict (length (mem two_records))
                             passed warnings critical)]
                           ++ [])))
    /\ written (export_html None two_records)
       = Some (html_head (strftime (now two_records)) __version__
                 (length (mem two_records)) passed warnings critical
                 ++ concat (map html_row (mem two_records)) ++ html_foot)
    /\ fst (print_diagnostic_table false two_records) = Ok ()
    /\ exists rows,
         length rows = length (mem two_records)
         /\ console (snd (print_diagnostic_table false two_records))
            = console two_records
                ++ [NewLine; TableRendered table_title table_columns rows; NewLine]
                ++ summary_lines false passed warnings critical
                ++ [closing_line false warnings critical].
Proof.
  apply (summaries_agree two_records false false None None).
  - intros issue [<- | [<- | []]]; vm_compute; discriminate.
  - intros r. reflexivity.
Defined.

(** C10 fails in two ways, whatever the icons.  At a record with an
    empty status the JSON export and the HTML export write their
    summaries, of one record that is neither passed, nor a warning, nor
    critical, and [print_diagnostic_table] raises the [IndexError] of
    [status.split()[0]] before it prints anything, its summary
    included: the fallback ["?"] of [to_row] is not reached.  At a
    record whose status holds a closing tag that nothing opens, the
    exports write their summaries, of one critical record, and
    [print_diagnostic_table] raises what rich raises on the table,
    after an empty line and before its summary. *)
Theorem print_diagnostic_table_prints_no_summary (use_emojis : bool) :
  (written (export_json None false blank_status)
   = Some (json_dumps
             (JDict [(str "issues", JList (map issue_to_dict (mem blank_status)));
                     (str "summary", summary_dict 1 0 0 0)]))
   /\ written (export_html None blank_status)
      = Some (html_head (strftime (now blank_status)) __version__ 1 0 0 0
                ++ concat (map html_row (mem blank_status)) ++ html_foot)
   /\ fst (print_diagnostic_table use_emojis blank_status)
      = Raise (builtin_error IndexError (str "list index out of range"))
   /\ console (snd (print_diagnostic_table use_emojis blank_status)) = [])
  /\ (written (export_json None false stray_tag)
      = Some (json_dumps
                (JDict [(str "issues", JList (map issue_to_dict (mem stray_tag)));
                        (str "summary", summary_dict 1 0 0 1)]))
      /\ written (export_html None stray_tag)
         = Some (html_head (strftime (now stray_tag)) __version__ 1 0 0 1
                   ++ concat (map html_row (mem stray_tag)) ++ html_foot)
      /\ fst (print_diagnostic_table use_emojis stray_tag)
         = Raise (builtin_error MarkupError
                    (str "closing tag '[/b]' at position "
                       ++ of_nat (length (Icons.icon_cross use_emojis) + 36)
                       ++ str " doesn't match any open tag"))
      /\ console (snd (print_diagnostic_table use_emojis stray_tag)) = [NewLine]).
Proof.
  split.
  - split; [rewrite export_json_writes; reflexivity|].
    split; [rewrite export_html_writes; reflexivity|].
    split; reflexivity.
  - split; [rewrite export_json_writes; reflexivity|].
    split; [rewrite export_html_writes; reflexivity|].
    split; destruct use_emojis; vm_compute; reflexivity.
Qed.

(** ** The command [diagnose] from end to end *)

Section Pipeline.

Import Parallel Cli.

Lemma run_parallel_with_results_loop_pairs {T R} (func : T -> result R)
    (yielded : list T) (acc results : list (T * (R + exn))) :
  run_parallel_with_results_loop func yielded acc = Ok results ->
  results = acc ++ map (outcome_pair func) yielded.
Proof.
  revert acc. induction yielded as [|item rest IH]; intros acc Hrun.
  - injection Hrun as <-. cbn. rewrite app_nil_r. reflexivity.
  - cbn [run_parallel_with_results_loop] in Hrun. cbn [map].
    unfold outcome_pair at 1. destruct (func item) as [r|e].
    + apply IH in Hrun. rewrite Hrun, <- app_assoc. reflexivity.
    + destruct (isinstance e Exception); [|discriminate].
      apply IH in Hrun. rewrite Hrun, <- app_assoc. reflexivity.
Qed.

Lemma as_completed_yields_items {T} (items : list T) (completion : list nat) (item : T) :
  In item (fst (as_completed items completion)) -> In item items.
Proof.
  unfold as_completed. cbn [fst].
  induction completion as [|i completion IH]; [intros []|].
  change (omap ?f (?i :: ?l)) with
    (match f i with Some y => y :: omap f l | None => omap f l end).
  cbv beta. destruct (items !! i) as [x|] eqn:Hi; [|exact IH].
  intros [<- | Hin]; [|exact (IH Hin)].
  apply list_elem_of_In. exact (list_elem_of_lookup_2 _ _ _ Hi).
Qed.

Lemma check_error_issue_well_formed (c : check) (e : exn) :
  well_formed (check_error_issue c e).
Proof. apply well_formedb_spec. reflexivity. Qed.

Lemma checks_contribute_well_formed (env : Env) (c : check) :
  In c (core_checks env ++ extended_checks env) -> contributes_well_formed c.
Proof.
  pose proof (check_cuda_driver_well_formed env) as H1.
  pose proof (check_pytorch_cuda_well_formed env) as H2.
  pose proof (check_ml_libraries_well_formed env) as H3.
  pose proof (check_gpu_memory_well_formed env) as H4.
  pose proof (check_disk_space_well_formed env) as H5.
  pose proof (check_docker_gpu_well_formed env) as H6.
  pose proof (check_internet_connectivity_well_formed env) as H7.
  assert (Hall : forall r, Forall well_formed (produced r) ->
                           forall name, contributes_well_formed
                                          {| check_name := name; call := r |}).
  { intros r Hr name. unfold contributes_well_formed, core_records, extended_records.
    cbn [call]. destruct r as [found|e]; cbn [produced] in Hr.
    - split; exact Hr.
    - split; [|constructor].
      constructor; [apply check_error_issue_well_formed | constructor]. }
  cbn [core_checks extended_checks app In].
  intros [<- | [<- | [<- | [<- | [<- | [<- | [<- | []]]]]]]]; apply Hall; assumption.
Qed.

Lemma flat_map_well_formed (records : check -> list DiagnosticIssue)
    (checks : list check) :
  (forall c, In c checks -> Forall well_formed (records c)) ->
  Forall well_formed (flat_map records checks).
Proof.
  intros H. induction checks as [|c checks IH]; cbn [flat_map]; [constructor|].
  apply Forall_app. split.
  - apply H. left. reflexivity.
  - apply IH. intros x Hx. apply H. right. exact Hx.
Qed.

Lemma run_core_sequential_well_formed (checks : list check)
    (all_issues issues : list DiagnosticIssue) :
  (forall c, In c checks -> contributes_well_formed c) ->
  Forall well_formed all_issues ->
  snd (run_core_sequential checks all_issues) = Ok issues ->
  Forall well_formed issues.
Proof.
  revert all_issues. induction checks as [|c checks IH]; intros all_issues Hc Hacc Hrun.
  - injection Hrun as <-. exact Hacc.
  - cbn [run_core_sequential] in Hrun.
    destruct (Hc c (or_introl eq_refl)) as [Hcore _]. unfold core_records in Hcore.
    assert (Hrest : forall x, In x checks -> contributes_well_formed x)
      by (intros x Hx; apply Hc; right; exact Hx).
    destruct (call c) as [found|e].
    + apply (IH (all_issues ++ found)); [exact Hrest | | exact Hrun].
      apply Forall_app. split; assumption.
    + destruct (isinstance e Exception); [|discriminate].
      destruct (run_core_sequential checks (all_issues ++ [check_error_issue c e]))
        as [events r] eqn:Hlater.
      cbn [snd] in Hrun. subst r.
      apply (IH (all_issues ++ [check_error_issue c e])); [exact Hrest | |].
      * apply Forall_app. split; assumption.
      * rewrite Hlater. reflexivity.
Qed.

Lemma run_extended_sequential_well_formed (checks : list check)
    (all_issues issues : list DiagnosticIssue) :
  (forall c, In c checks -> contributes_well_formed c) ->
  Forall well_formed all_issues ->
  snd (run_extended_sequential checks all_issues) = Ok issues ->
  Forall well_formed issues.
Proof.
  revert all_issues. induction checks as [|c checks IH]; intros all_issues Hc Hacc Hrun.
  - injection Hrun as <-. exact Hacc.
  - cbn [run_extended_sequential] in Hrun.
    destruct (Hc c (or_introl eq_refl)) as [_ Hext]. unfold extended_records in Hext.
    assert (Hrest : forall x, In x checks -> contributes_well_formed x)
      by (intros x Hx; apply Hc; right; exact Hx).
    destruct (call c) as [found|e].
    + apply (IH (all_issues ++ found)); [exact Hrest | | exact Hrun].
      apply Forall_app. split; assumption.
    + destruct (isinstance e Exception); [|discriminate].
      destruct (run_extended_sequential checks all_issues) as [events r] eqn:Hlater.
      cbn [snd] in Hrun. subst r.
      apply (IH all_issues); [exact Hrest | exact Hacc |].
      rewrite Hlater. reflexivity.
Qed.

(** Every record [diagnose_env] returns is well formed. *)
Lemma diagnose_env_records_well_formed (env : Env) (use_emojis full parallel : bool)
    (completion_core completion_extended : list nat) :
  Forall well_formed
    (produced (snd (diagnose_env env use_emojis full parallel
                      completion_core completion_extended))).
Proof.
  assert (Hcore : forall c, In c (core_checks env) -> contributes_well_formed c).
  { intros c Hc. apply (checks_contribute_well_formed env). apply in_or_app. left. exact Hc. }
  assert (Hext : forall c, In c (extended_checks env) -> contributes_well_formed c).
  { intros c Hc. apply (checks_contribute_well_formed env). apply in_or_app. right. exact Hc. }
  assert (Hpar : forall max_workers checks completion results,
             (forall c, In c checks -> contributes_well_formed c) ->
             run_parallel_with_results call max_workers checks completion = Ok results ->
             exists yielded, results = map (outcome_pair call) yielded
                             /\ forall c, In c yielded -> contributes_well_formed c).
  { intros max_workers checks completion results Hc Hrun.
    unfold run_parallel_with_results in Hrun.
    destruct checks as [|c0 checks].
    { injection Hrun as <-. exists []. split; [reflexivity | intros c []]. }
    destruct (ThreadPoolExecutor max_workers) as [[]|e0]; [|discriminate].
    unfold mbind at 1, result_bind at 1 in Hrun.
    pose proof (as_completed_yields_items (c0 :: checks) completion) as Hsub.
    destruct (as_completed (c0 :: checks) completion) as [yielded timed_out].
    cbn [fst] in Hsub. unfold mbind, result_bind in Hrun.
    destruct (run_parallel_with_results_loop call yielded []) as [pairs|e] eqn:Hloop;
      [|discriminate].
    destruct timed_out; [discriminate|]. injection Hrun as <-.
    apply run_parallel_with_results_loop_pairs in Hloop. cbn [app] in Hloop.
    exists yielded. split; [exact Hloop|]. intros c Hin. apply Hc, Hsub, Hin. }
  unfold diagnose_env.
  destruct parallel.
  - destruct (run_parallel_with_results call 3 (core_checks env) completion_core)
      as [results|e] eqn:Hrun; [|constructor].
    destruct (Hpar _ _ _ _ Hcore Hrun) as [yielded [-> Hy]].
    rewrite collect_core_all. cbn [app].
    assert (Hfirst : Forall well_formed (flat_map core_records yielded)).
    { apply flat_map_well_formed. intros c Hc. apply Hy. exact Hc. }
    destruct full; [|exact Hfirst].
    destruct (run_parallel_with_results call 4 (extended_checks env) completion_extended)
      as [results2|e] eqn:Hrun2; [|constructor].
    destruct (Hpar _ _ _ _ Hext Hrun2) as [yielded2 [-> Hy2]].
    rewrite collect_extended_all. cbn [snd produced].
    apply Forall_app. split; [exact Hfirst|].
    apply flat_map_well_formed. intros c Hc. apply Hy2. exact Hc.
  - destruct (run_core_sequential (core_checks env) []) as [events1 [issues|e]] eqn:Hseq;
      [|constructor].
    assert (Hfirst : Forall well_formed issues).
    { apply (run_core_sequential_well_formed (core_checks env) [] issues Hcore);
        [constructor | rewrite Hseq; reflexivity]. }
    destruct full; [|exact Hfirst].
    destruct (run_extended_sequential (extended_checks env) issues)
      as [events2 [issues2|e]] eqn:Hseq2; [|constructor].
    cbn [snd produced].
    apply (run_extended_sequential_well_formed (extended_checks env) issues issues2 Hext);
      [exact Hfirst | rewrite Hseq2; reflexivity].
Qed.

Lemma well_formed_has_token (issues : list DiagnosticIssue) :
  Forall well_formed issues -> statuses_have_tokens issues.
Proof.
  intros Hwf issue Hin.
  destruct (proj1 (List.Forall_forall _ _) Hwf issue Hin) as [_ [token [Hhead _]]].
  destruct (split_ws (status issue)); [discriminate Hhead | discriminate].
Qed.

(** In the command [diagnose] the table has its rows: the records
    [diagnose_env] returns have statuses that hold a token, and
    [to_row] finds it.  The table is printed when rich prints it. *)
Lemma diagnose_env_then_table (env : Env) (use_emojis full parallel : bool)
    (completion_core completion_extended : list nat)
    (issues : list DiagnosticIssue) (w : World) :
  snd (diagnose_env env use_emojis full parallel completion_core completion_extended)
  = Ok issues ->
  mem w = issues ->
  prints_all w ->
  fst (print_diagnostic_table use_emojis w) = Ok ().
Proof.
  intros Hrun Hmem Hall.
  pose proof (diagnose_env_records_well_formed env use_emojis full parallel
                completion_core completion_extended) as Hwf.
  rewrite Hrun in Hwf. cbn [produced] in Hwf. rewrite <- Hmem in Hwf.
  destruct (add_rows_returns use_emojis (mem w) [] (well_formed_has_token _ Hwf))
    as [rows [Hrows _]].
  exact (proj1 (print_diagnostic_table_prints use_emojis w rows Hall Hrows)).
Qed.

Lemma bind_run {A B} (m : IO A) (f : A -> IO B) (w : World) (a : A) (w' : World) :
  m w = (Ok a, w') -> (m ≫= f) w = f a w'.
Proof. intros H. unfold mbind, IO_bind. rewrite H. reflexivity. Qed.

Lemma emit_returns (events : list event) (w : World) :
  exists w', emit events w = (Ok (), w').
Proof.
  revert w. induction events as [|[line | lvl msg] events IH]; intros w.
  - eexists. reflexivity.
  - cbn [emit]. unfold mbind, IO_bind, on_console. apply IH.
  - cbn [emit]. unfold mbind, IO_bind, logger. apply IH.
Qed.

Lemma print_benchmarks_preserves_mem (env : Env) (benchmarks : list (pystr * Q)) :
  preserves_mem (print_benchmarks env benchmarks).
Proof.
  induction benchmarks as [|[op time_ms] rest IH]; cbn [print_benchmarks].
  - apply preserves_mem_ret.
  - apply preserves_mem_bind; [apply preserves_mem_console_print | intros _; exact IH].
Qed.

Lemma run_benchmark_preserves_mem (env : Env) (benchmarks : result (list (pystr * Q))) :
  preserves_mem (run_benchmark env benchmarks).
Proof.
  unfold run_benchmark.
  apply preserves_mem_bind; [apply preserves_mem_console_print | intros _].
  apply preserves_mem_bind; [apply preserves_mem_console_print | intros _].
  destruct benchmarks as [[|b rest] | e].
  - apply preserves_mem_console_print.
  - apply preserves_mem_bind; [apply preserves_mem_console_print | intros _].
    apply print_benchmarks_preserves_mem.
  - destruct (isinstance e Exception);
      [apply preserves_mem_console_print | apply preserves_mem_lift].
Qed.

(** When [diagnose_env] returns, the list it returned is the list the
    command holds at its end: the table and the exports in between
    have read it and left it alone. *)
Lemma diagnose_keeps_its_records (env : Env) (use_emojis full : bool)
    (json_output csv_output html_output : option pystr)
    (benchmarks : result (list (pystr * Q)))
    (completion_core completion_extended : list nat)
    (issues : list DiagnosticIssue) (w : World) :
  snd (diagnose_env env use_emojis full true completion_core completion_extended)
  = Ok issues ->
  mem (snd (diagnose env use_emojis full json_output csv_output html_output
              benchmarks completion_core completion_extended w)) = issues.
Proof.
  intros Hrun.
  assert (Hcall : exists w1,
             call_diagnose_env env use_emojis full completion_core completion_extended w
             = (Ok issues, w1)).
  { unfold call_diagnose_env.
    destruct (diagnose_env env use_emojis full true completion_core completion_extended)
      as [events r]. cbn [snd] in Hrun. subst r.
    destruct (emit_returns events w) as [w1 Hemit]. exists w1.
    rewrite (bind_run _ _ _ _ _ Hemit). reflexivity. }
  destruct Hcall as [w1 Hcall]. unfold diagnose.
  rewrite (bind_run _ _ _ _ _ Hcall).
  rewrite (bind_run (bind_issues issues) _ w1 () _ eq_refl).
  match goal with
  | |- mem (snd (?rest ?w2)) = _ =>
      assert (Hrest : preserves_mem rest); [|exact (Hrest w2)]
  end.
  apply preserves_mem_bind; [apply print_diagnostic_table_preserves_mem | intros _].
  apply preserves_mem_bind.
  { destruct json_output; [|apply preserves_mem_ret].
    apply preserves_mem_bind; [apply export_json_preserves_mem | intros _].
    apply preserves_mem_console_print. }
  intros _. apply preserves_mem_bind.
  { destruct csv_output; [|apply preserves_mem_ret].
    apply preserves_mem_bind; [apply export_csv_preserves_mem | intros _].
    apply preserves_mem_console_print. }
  intros _. apply preserves_mem_bind.
  { destruct html_output; [|apply preserves_mem_ret].
    apply preserves_mem_bind; [apply export_html_preserves_mem | intros _].
    apply preserves_mem_console_print. }
  intros _. destruct full; [apply run_benchmark_preserves_mem | apply preserves_mem_ret].
Qed.

(** An assignment does change the list: [preserves_mem] is a property
    of the renderers and the exporters, not of every computation. *)
Example bind_issues_changes_the_list :
  mem (snd (bind_issues (mem two_records) at_noon)) <> mem at_noon.
Proof. discriminate. Qed.

End Pipeline.

(** ** retry.py: exceptions that are not retried, and the callback *)

Section RetryProtocol.

Import Retry.
Local Open Scope nat_scope.

Context {T D : Type}.
Variable mul : D -> D -> D.
Variable fmt_delay : D -> pystr.
Variable sleep : D -> result unit.
Variable max_attempts : nat.
Variable delay backoff : D.
Variable exceptions : list exc_class.
Variable on_retry : option (exn -> nat -> result unit).
Variable func_name : pystr.
Variable func : nat -> result T.

Abbreviation rounds :=
  (retry_loop mul fmt_delay sleep max_attempts backoff exceptions on_retry
     func_name func).

Lemma callbacks_app (a b : list (event D)) :
  callbacks (a ++ b) = callbacks a ++ callbacks b.
Proof.
  induction a as [|[] a IH]; simpl; rewrite ?IH; reflexivity.
Qed.

Lemma call_on_retry_events (e : exn) (attempt : nat) :
  fst (@call_on_retry D on_retry e attempt)
  = match on_retry with Some _ => [OnRetry e attempt] | None => [] end.
Proof. unfold call_on_retry. destruct on_retry; reflexivity. Qed.

(** An invocation that raises an exception outside [exceptions] ends the
    run. *)
Lemma rounds_unlisted (remaining attempt : nat) (d : D) (last : option exn) :
  let run := rounds remaining attempt d last in
  forall k e, In k (attempts_invoked (fst run)) -> func k = Raise e ->
    caught_by exceptions e = false ->
    snd run = Raise e /\ exists before, fst run = before ++ [Invoked k].
Proof.
  revert attempt d last.
  induction remaining as [|remaining IH]; intros attempt d last; cbn zeta.
  - intros k e [].
  - cbn [retry_loop]. intros k e Hin Hk Hc.
    destruct (func attempt) as [v|e0] eqn:Hf.
    { destruct Hin as [<- | []]. congruence. }
    destruct (caught_by exceptions e0) eqn:Hcaught.
    2:{ destruct Hin as [<- | []]. rewrite Hf in Hk. injection Hk as <-.
        split; [reflexivity | exists []; reflexivity]. }
    assert (Hne : k <> attempt) by (intros ->; congruence).
    destruct (attempt <? max_attempts).
    + rewrite (surjective_pairing (call_on_retry on_retry e0 attempt)) in Hin |- *.
      rewrite call_on_retry_events in Hin |- *.
      destruct (snd (call_on_retry on_retry e0 attempt)) as [[]|e1].
      2:{ exfalso. cbn [fst] in Hin.
          destruct on_retry; simpl in Hin; destruct Hin as [Hin | Hin];
            try congruence; try (destruct Hin; congruence). }
      destruct (sleep d) as [[]|e2].
      2:{ exfalso. cbn [fst] in Hin. rewrite attempts_invoked_app in Hin.
          destruct on_retry; simpl in Hin; destruct Hin as [Hin | Hin];
            try congruence; try (destruct Hin; congruence). }
      specialize (IH (S attempt) (mul d backoff) (Some e0) k e).
      destruct (rounds remaining (S attempt) (mul d backoff) (Some e0)) as [later r].
      cbn [fst snd] in *.
      assert (Hlater : In k (attempts_invoked later)).
      { change (Invoked attempt :: ?x) with ([Invoked (D:=D) attempt] ++ x) in Hin.
        rewrite !attempts_invoked_app in Hin. cbn [attempts_invoked app] in Hin.
        destruct on_retry; simpl in Hin; destruct Hin as [Hin | Hin]; congruence. }
      destruct (IH Hlater Hk Hc) as [-> [before ->]].
      split; [reflexivity|]. eexists. rewrite !app_comm_cons, app_assoc. reflexivity.
    + specialize (IH (S attempt) d (Some e0) k e).
      destruct (rounds remaining (S attempt) d (Some e0)) as [later r].
      cbn [fst snd] in *. destruct Hin as [Hin | Hin]; [congruence|].
      destruct (IH Hin Hk Hc) as [-> [before ->]].
      split; [reflexivity|]. exists (Invoked attempt :: LogError (error_message max_attempts func_name e0) :: before).
      reflexivity.
Qed.


Lemma sleeps_cons_other (ev : event D) (events : list (event D)) :
  (forall d, ev <> Slept d) -> sleeps (ev :: events) = sleeps events.
Proof. destruct ev; intros H; try reflexivity. exfalso. exact (H d eq_refl). Qed.

(** The calls of the callback and the sleeps of a run. *)
Ltac parts := refine (conj _ (conj _ (conj _ (conj _ (conj _ _))))).

Ltac no_callback :=
  cbn; parts;
  [ intros [|?] ? ? ?; discriminate
  | intros ? ? ? ? ? []
  | lia | lia
  | intros _; lia
  | intros _; reflexivity ].

Lemma rounds_callbacks (remaining attempt : nat) (d : D) (last : option exn) :
  let run := rounds remaining attempt d last in
  (forall i e k, nth_error (callbacks (fst run)) i = Some (e, k) ->
     k = attempt + i /\ func k = Raise e /\ caught_by exceptions e = true
     /\ k < max_attempts)
  /\ (forall cb e k e', on_retry = Some cb -> In (e, k) (callbacks (fst run)) ->
        cb e k = Raise e' ->
        snd run = Raise e' /\ exists before, fst run = before ++ [OnRetry e k])
  /\ length (sleeps (fst run)) <= max_attempts - attempt
  /\ length (callbacks (fst run)) <= max_attempts - attempt
  /\ (on_retry <> None ->
       length (sleeps (fst run)) <= length (callbacks (fst run))
       /\ length (callbacks (fst run)) <= S (length (sleeps (fst run))))
  /\ (on_retry = None -> callbacks (fst run) = []).
Proof.
  revert attempt d last.
  induction remaining as [|remaining IH]; intros attempt d last; cbn zeta.
  { no_callback. }
  cbn [retry_loop].
  destruct (func attempt) as [v|e0] eqn:Hf.
  { no_callback. }
  destruct (caught_by exceptions e0) eqn:Hcaught.
  2:{ no_callback. }
  destruct (Nat.ltb_spec attempt max_attempts) as [Hlt | Hge].
  - unfold call_on_retry. destruct on_retry as [cb|] eqn:Hon.
    + assert (Hfirst : forall i e k,
                 nth_error [(e0, attempt)] i = Some (e, k) ->
                 k = attempt + i /\ func k = Raise e /\ caught_by exceptions e = true
                 /\ k < max_attempts).
      { intros [|[|i]] e k; cbn; try discriminate. intros [= <- <-].
        rewrite Nat.add_0_r. auto. }
      destruct (cb e0 attempt) as [[]|e1] eqn:Hcb.
      2:{ cbn. parts.
          - exact Hfirst.
          - intros cb' e k e' [= <-] [[= <- <-] | []] Hr.
            rewrite Hcb in Hr. injection Hr as <-.
            split; [reflexivity|]. eexists [_; _]. reflexivity.
          - lia.
          - lia.
          - intros _. lia.
          - discriminate. }
      destruct (sleep d) as [[]|e2].
      2:{ cbn. parts.
          - exact Hfirst.
          - intros cb' e k e' [= <-] [[= <- <-] | []] Hr. congruence.
          - lia.
          - lia.
          - intros _. lia.
          - discriminate. }
      specialize (IH (S attempt) (mul d backoff) (Some e0)). cbn zeta in IH.
      destruct (retry_loop mul fmt_delay sleep max_attempts backoff exceptions
                  (Some cb) func_name func remaining (S attempt) (mul d backoff)
                  (Some e0)) as [later r].
      cbn [fst snd] in *. destruct IH as [I1 [I2 [I3 [I4 [I5 I6]]]]].
      destruct (I5 ltac:(discriminate)) as [I5a I5b].
      cbn [app callbacks sleeps length]. parts.
      * intros [|i] e k Hi; [apply (Hfirst 0 e k Hi)|].
        cbn in Hi. destruct (I1 i e k Hi) as [-> Hrest].
        split; [lia | exact Hrest].
      * intros cb' e k e' [= <-] [[= <- <-] | Hin] Hr; [congruence|].
        destruct (I2 cb e k e' eq_refl Hin Hr) as [-> [before ->]].
        split; [reflexivity|]. eexists. rewrite !app_comm_cons. reflexivity.
      * lia.
      * lia.
      * intros _. lia.
      * discriminate.
    + destruct (sleep d) as [[]|e2].
      2:{ cbn. parts.
          - intros [|?] ? ? ?; discriminate.
          - intros ? ? ? ? ? [].
          - lia.
          - lia.
          - intros H. contradiction.
          - reflexivity. }
      specialize (IH (S attempt) (mul d backoff) (Some e0)). cbn zeta in IH.
      destruct (retry_loop mul fmt_delay sleep max_attempts backoff exceptions
                  None func_name func remaining (S attempt) (mul d backoff)
                  (Some e0)) as [later r].
      cbn [fst snd] in *. destruct IH as [I1 [I2 [I3 [I4 [I5 I6]]]]].
      specialize (I6 eq_refl). cbn [app callbacks sleeps length]. rewrite I6. parts.
      * intros [|?] ? ? ?; discriminate.
      * intros ? ? ? ? ? [].
      * lia.
      * cbn. lia.
      * intros H. contradiction.
      * reflexivity.
  - specialize (IH (S attempt) d (Some e0)). cbn zeta in IH.
    destruct (rounds remaining (S attempt) d (Some e0)) as [later r].
    cbn [fst snd] in *. destruct IH as [I1 [I2 [I3 [I4 [I5 I6]]]]].
    assert (Hnone : callbacks later = [])
      by (destruct (callbacks later); [reflexivity | cbn in I4; lia]).
    assert (Hnos : sleeps later = [])
      by (destruct (sleeps later); [reflexivity | cbn in I3; lia]).
    cbn [callbacks sleeps]. rewrite Hnone, Hnos. no_callback.
Qed.


(** X1. An exception that is not an instance of one of [exceptions]
    is not retried: when an invocation raises one, the wrapper raises
    that very exception, that invocation is the last event of the run,
    so that nothing is logged, called back or slept after it, and the
    number of invocations is the number of that attempt. *)
Theorem retry_propagates_unlisted_exception (k : nat) (e : exn) :
  let run := retry mul fmt_delay sleep max_attempts delay backoff exceptions
               on_retry func_name func in
  was_invoked k (fst run) ->
  func k = Raise e ->
  caught_by exceptions e = false ->
  snd run = Raise e
  /\ invocations (fst run) = k
  /\ exists before, fst run = before ++ [Invoked k].
Proof.
  cbn zeta. unfold retry. intros Hk Hf Hc.
  apply was_invoked_attempts in Hk.
  destruct (rounds_unlisted max_attempts 1 delay None k e Hk Hf Hc) as [Hr [before Hev]].
  split; [exact Hr|]. split; [|exists before; exact Hev].
  destruct (loop_shape mul fmt_delay sleep max_attempts backoff exceptions on_retry
              func_name func max_attempts 1 delay None eq_refl) as [Hseq _].
  cbn zeta in Hseq. rewrite Hev in Hseq |- *.
  rewrite invocations_attempts in Hseq |- *.
  rewrite attempts_invoked_app in Hseq |- *. cbn [attempts_invoked] in Hseq |- *.
  rewrite length_app in Hseq |- *. cbn [length] in Hseq |- *.
  assert (Hlast : nth_error (attempts_invoked before ++ [k])
                    (length (attempts_invoked before)) = Some k).
  { rewrite nth_error_app2, Nat.sub_diag by lia. reflexivity. }
  rewrite Hseq, nth_error_seq in Hlast.
  destruct (Nat.ltb_spec (length (attempts_invoked before))
              (length (attempts_invoked before) + 1)); [|lia].
  injection Hlast as <-. lia.
Qed.

(** X2. The callback [on_retry] is called with the exception an
    attempt raised and the number of that attempt, 1, 2, ... in order,
    only for caught exceptions and only before the last attempt.  When
    the callback raises, its exception leaves the wrapper at once: the
    call is the last event of the run.  With a callback, the sleeps are
    as many as the calls of the callback, or one fewer; without one, no
    call is made. *)
Theorem retry_callback_protocol :
  let run := retry mul fmt_delay sleep max_attempts delay backoff exceptions
               on_retry func_name func in
  (forall i e k, nth_error (callbacks (fst run)) i = Some (e, k) ->
     k = S i /\ func k = Raise e /\ caught_by exceptions e = true /\ k < max_attempts)
  /\ (forall cb e k e', on_retry = Some cb -> In (e, k) (callbacks (fst run)) ->
        cb e k = Raise e' ->
        snd run = Raise e' /\ exists before, fst run = before ++ [OnRetry e k])
  /\ (on_retry <> None ->
       length (sleeps (fst run)) <= length (callbacks (fst run))
       /\ length (callbacks (fst run)) <= S (length (sleeps (fst run))))
  /\ (on_retry = None -> callbacks (fst run) = []).
Proof.
  cbn zeta. unfold retry.
  destruct (rounds_callbacks max_attempts 1 delay None) as [H1 [H2 [_ [_ [H5 H6]]]]].
  cbn zeta in *. split; [exact H1|]. split; [exact H2|]. split; [exact H5 | exact H6].
Qed.

End RetryProtocol.

(** The theorem at a function that fails with a [ConnectionError]
    and then with a [ValueError], retried on [ConnectionError] alone. *)
Lemma retry_propagates_unlisted_exception_witness :
  let run := Retry.retry Z.mul of_Z (fun _ => Ok ()) 3 1%Z 2%Z [ConnectionError]
               None (str "fetch") fails_differently in
  snd run = Raise (builtin_error ValueError (str "malformed response"))
  /\ Retry.invocations (fst run) = 2%nat
  /\ exists before, fst run = before ++ [Retry.Invoked 2].
Proof.
  cbn zeta.
  apply (retry_propagates_unlisted_exception Z.mul of_Z (fun _ => Ok ()) 3 1%Z 2%Z
           [ConnectionError] None (str "fetch") fails_differently 2).
  - unfold Retry.was_invoked. vm_compute. tauto.
  - reflexivity.
  - reflexivity.
Defined.

(** X3. A function decorated with [retry_network] is invoked at most
    three times, and the wrapper sleeps at most twice between the
    invocations: for 1 second, then for 2 seconds. *)
Theorem retry_network_is_bounded {T : Type} (fmt_delay : Q -> pystr)
    (sleep : Q -> result unit) (func_name : pystr) (func : nat -> result T) :
  let run := Retry.retry_network fmt_delay sleep func_name func in
  (Retry.invocations (fst run) <= 3)%nat
  /\ exists rest, Retry.sleeps (fst run) ++ rest = [1%Q; 2%Q].
Proof.
  cbn zeta. unfold Retry.retry_network, Retry.retry.
  destruct (loop_shape Qmult fmt_delay sleep 3 2%Q
              [ConnectionError; TimeoutError; OSError] None func_name func
              3 1 1%Q None eq_refl) as [_ [Hn [Hs _]]].
  destruct (rounds_callbacks Qmult fmt_delay sleep 3 2%Q
              [ConnectionError; TimeoutError; OSError] None func_name func
              3 1 1%Q None) as [_ [_ [Hlen _]]].
  cbn zeta in *. split; [exact Hn|].
  rewrite Hs.
  destruct (length (Retry.sleeps _)) as [|[|[|n]]]; cbn in Hlen; try lia.
  - exists [1%Q; 2%Q]. reflexivity.
  - exists [2%Q]. reflexivity.
  - exists []. reflexivity.
Qed.


(** ** parallel.py: run_parallel *)

Section ParallelMore.

Import Parallel.
Local Open Scope nat_scope.

Context {T R : Type}.
Variable func : T -> result R.
Variable show : T -> pystr.

Lemma returned_values (l : list T) :
  (forall item, In item l -> is_ok (func item) = true) ->
  exists values, map func l = map Ok values.
Proof.
  induction l as [|x l IH]; intros Hok.
  - exists []. reflexivity.
  - destruct IH as [values Hv]; [intros item Hin; apply Hok; right; exact Hin|].
    specialize (Hok x (or_introl eq_refl)).
    destruct (func x) as [v|e] eqn:Hx; [|discriminate].
    exists (v :: values). cbn [map]. rewrite Hx, Hv. reflexivity.
Qed.

(** X4. When every call returns and the timeout cuts nothing off,
    [run_parallel], with a pool of one worker or more, returns the
    values of [func(item)] for the items, one for each item, and logs
    nothing. *)
Theorem run_parallel_returns_every_value (max_workers : Z) (items : list T)
    (completion : list nat) :
  (0 < max_workers)%Z ->
  all_complete items completion ->
  (forall item, In item items -> is_ok (func item) = true) ->
  exists values,
    run_parallel func show max_workers items completion = ([], Ok values)
    /\ Permutation (map Ok values) (map func items).
Proof.
  intros Hpos Hall Hok.
  destruct (as_completed_all items completion Hall) as [Hperm _].
  destruct (returned_values (fst (as_completed items completion))) as [values Hv].
  { intros item Hin. apply Hok. apply (Permutation_in _ Hperm). exact Hin. }
  exists values. split.
  - apply run_parallel_in_completion_order; assumption.
  - rewrite <- Hv. apply Permutation_map. exact Hperm.
Qed.

Lemma run_parallel_loop_failure (done rest : list T) (item : T) (e : exn)
    (results : list R) (completed : nat) :
  (forall x, In x done -> is_ok (func x) = true) ->
  func item = Raise e ->
  run_parallel_loop func show (done ++ item :: rest) results completed
  = (if isinstance e Exception
     then [(ERROR, str "Error processing " ++ show item ++ str ": " ++ exn_str e)]
     else [],
     Raise e).
Proof.
  revert results completed.
  induction done as [|x done IH]; intros results completed Hok He.
  - cbn [app run_parallel_loop]. rewrite He. destruct (isinstance e Exception); reflexivity.
  - cbn [app run_parallel_loop].
    pose proof (Hok x (or_introl eq_refl)) as Hx.
    destruct (func x) as [v|e']; [|discriminate].
    apply IH; [intros y Hy; apply Hok; right; exact Hy | exact He].
Qed.

(** X5. [run_parallel], with a pool of one worker or more, stops at
    the first future, in the order of completion, whose call raised: it
    raises that exception, logs one error for it when it derives from
    [Exception], and neither returns the values collected so far nor
    looks at the futures after it. *)
Theorem run_parallel_raises_first_failure (max_workers : Z) (items : list T)
    (completion : list nat) (done rest : list T) (item : T) (e : exn) :
  (0 < max_workers)%Z ->
  fst (as_completed items completion) = done ++ item :: rest ->
  (forall x, In x done -> is_ok (func x) = true) ->
  func item = Raise e ->
  run_parallel func show max_workers items completion
  = (if isinstance e Exception
     then [(ERROR, str "Error processing " ++ show item ++ str ": " ++ exn_str e)]
     else [],
     Raise e).
Proof.
  intros Hpos Hy Hok He. unfold run_parallel.
  destruct items as [|first items].
  { exfalso. unfold as_completed in Hy. cbn [fst] in Hy.
    assert (Hnil : omap (fun i => (@nil T) !! i) completion = []).
    { clear. induction completion as [|i c IH]; [reflexivity|].
      change (omap ?f (?i :: ?l)) with
        (match f i with Some y => y :: omap f l | None => omap f l end).
      cbv beta. rewrite lookup_nil. exact IH. }
    rewrite Hnil in Hy. destruct done; discriminate. }
  rewrite (ThreadPoolExecutor_positive _ Hpos).
  destruct (as_completed (first :: items) completion) as [yielded timed_out].
  cbn [fst] in Hy. subst yielded.
  rewrite (run_parallel_loop_failure done rest item e [] 0 Hok He). reflexivity.
Qed.

Lemma run_parallel_loop_outcome (yielded : list T) (results : list R) (completed : nat) :
  match snd (run_parallel_loop func show yielded results completed) with
  | Ok (_, n) => n = completed + length yielded
  | Raise e => exists item, In item yielded /\ func item = Raise e
  end.
Proof.
  revert results completed.
  induction yielded as [|item rest IH]; intros results completed.
  - cbn. lia.
  - cbn [run_parallel_loop]. destruct (func item) as [v|e] eqn:Hf.
    + specialize (IH (results ++ [v]) (S completed)).
      destruct (snd (run_parallel_loop func show rest (results ++ [v]) (S completed)))
        as [[out n]|e].
      * cbn [length]. lia.
      * destruct IH as [x [Hin Hx]]. exists x. split; [right; exact Hin | exact Hx].
    + destruct (isinstance e Exception); cbn [snd];
        exists item; (split; [left; reflexivity | exact Hf]).
Qed.

Lemma as_completed_length (items : list T) (completion : list nat) :
  List.NoDup completion ->
  length (fst (as_completed items completion)) <= length items.
Proof.
  intros Hnd. unfold as_completed. cbn [fst].
  assert (Hlen : length (omap (fun i => items !! i) completion)
                 = length (List.filter (fun i => i <? length items) completion)).
  { clear. induction completion as [|i c IH]; [reflexivity|].
    change (omap ?f (?i :: ?l)) with
      (match f i with Some y => y :: omap f l | None => omap f l end).
    cbv beta. cbn [List.filter].
    destruct (Nat.ltb_spec i (length items)) as [Hlt | Hge].
    - destruct (lookup_lt_is_Some_2 items i Hlt) as [x ->]. cbn [length]. rewrite IH. reflexivity.
    - rewrite (lookup_ge_None_2 items i Hge). exact IH. }
  rewrite Hlen.
  assert (Hseq : length (seq 0 (length items)) = length items) by apply List.length_seq.
  etransitivity; [|rewrite <- Hseq; reflexivity].
  apply List.NoDup_incl_length.
  - apply List.NoDup_filter. exact Hnd.
  - intros i Hi. apply filter_In in Hi. destruct Hi as [_ Hi].
    apply Nat.ltb_lt in Hi. apply in_seq. lia.
Qed.

(** X6. Whatever [run_parallel] raises was raised by [func] on one of
    the items, or is the [TimeoutError] of [as_completed] after fewer
    futures than items were yielded, or is the [ValueError] of an
    executor that is given no worker; the [RuntimeError] of its last
    lines is never raised.  No future completes twice. *)
Theorem run_parallel_raises_only (max_workers : Z) (items : list T)
    (completion : list nat) (e : exn) :
  List.NoDup completion ->
  snd (run_parallel func show max_workers items completion) = Raise e ->
  (exists item, In item items /\ func item = Raise e)
  \/ (e = unfinished (length items) (length (fst (as_completed items completion)))
      /\ length (fst (as_completed items completion)) < length items)
  \/ (e = builtin_error ValueError (str "max_workers must be greater than 0")
      /\ (max_workers <= 0)%Z /\ items <> []).
Proof.
  intros Hnd. unfold run_parallel.
  destruct items as [|first items]; [discriminate|].
  unfold ThreadPoolExecutor. destruct (Z.leb_spec max_workers 0) as [Hnone | Hpos].
  { cbn [snd]. intros [= <-]. right. right.
    split; [reflexivity|]. split; [exact Hnone | discriminate]. }
  pose proof (as_completed_length (first :: items) completion Hnd) as Hle.
  pose proof (as_completed_yields_items (first :: items) completion) as Hsub.
  destruct (as_completed (first :: items) completion) as [yielded timed_out] eqn:Hac.
  assert (Htimed : timed_out = (length yielded <? length (first :: items))).
  { unfold as_completed in Hac. injection Hac as <- <-. reflexivity. }
  cbn [fst] in *.
  pose proof (run_parallel_loop_outcome yielded [] 0) as Hloop.
  destruct (run_parallel_loop func show yielded [] 0) as [logged [[results completed]|e']].
  - cbn [snd] in Hloop. subst completed. cbn [Nat.add].
    destruct timed_out.
    + intros [= <-]. right. left. split; [reflexivity|].
      symmetry in Htimed. apply Nat.ltb_lt in Htimed. exact Htimed.
    + symmetry in Htimed. apply Nat.ltb_ge in Htimed.
      assert (Heq : length yielded = length (first :: items)) by lia.
      rewrite Heq, Nat.eqb_refl. discriminate.
  - cbn [snd] in *. intros [= <-]. left.
    destruct Hloop as [item [Hin Hf]]. exists item. split; [apply Hsub; exact Hin | exact Hf].
Qed.

End ParallelMore.

Lemma run_parallel_returns_every_value_witness :
  exists values,
    Parallel.run_parallel times_ten of_nat 4 [1; 2]%nat [1; 0]%nat = ([], Ok values)
    /\ Permutation (map Ok values) (map times_ten [1; 2]%nat).
Proof.
  apply (run_parallel_returns_every_value times_ten of_nat 4 [1; 2]%nat [1; 0]%nat).
  - lia.
  - unfold Parallel.all_complete. cbn [length seq]. apply perm_swap.
  - intros item _. reflexivity.
Defined.

(** The theorem at the function of the docstring, with the futures
    completing in the order of the items: the third is not looked at. *)
Lemma run_parallel_raises_first_failure_witness :
  Parallel.run_parallel check_library_example (fun name => name) 4
    [str "torch"; str "bad"; str "peft"] [0; 1; 2]%nat
  = (if isinstance (builtin_error ValueError (str "Bad library")) Exception
     then [(Parallel.ERROR,
            str "Error processing " ++ str "bad" ++ str ": "
              ++ exn_str (builtin_error ValueError (str "Bad library")))]
     else [],
     Raise (builtin_error ValueError (str "Bad library"))).
Proof.
  apply (run_parallel_raises_first_failure check_library_example (fun name => name) 4
           [str "torch"; str "bad"; str "peft"] [0; 1; 2]%nat
           [str "torch"] [str "peft"] (str "bad")).
  - lia.
  - reflexivity.
  - intros x [<- | []]. reflexivity.
  - reflexivity.
Defined.

(** The theorem at a pool that is given no worker. *)
Lemma run_parallel_raises_only_witness :
  let e := builtin_error ValueError (str "max_workers must be greater than 0") in
  (exists item,
      In item [str "torch"; str "bad"; str "peft"]
      /\ check_library_example item = Raise e)
  \/ (e = Parallel.unfinished 3
            (length (fst (Parallel.as_completed [str "torch"; str "bad"; str "peft"]
                            [0; 1; 2]%nat)))
      /\ (length (fst (Parallel.as_completed [str "torch"; str "bad"; str "peft"]
                         [0; 1; 2]%nat)) < 3)%nat)
  \/ (e = builtin_error ValueError (str "max_workers must be greater than 0")
      /\ (0 <= 0)%Z /\ [str "torch"; str "bad"; str "peft"] <> []).
Proof.
  cbn zeta.
  apply (run_parallel_raises_only check_library_example (fun name => name) 0
           [str "torch"; str "bad"; str "peft"] [0; 1; 2]%nat).
  - repeat (apply List.NoDup_cons; [cbn [In]; intuition discriminate|]).
    apply List.NoDup_nil.
  - reflexivity.
Defined.

(** ** validators.py: the log level and the stack name *)

Section CaseValidators.

Variable str_upper str_lower : pystr -> pystr.
Variable str_of : pyval -> pystr.
Variable set_order : gset pystr -> list pystr.

(** X7. [validate_log_level] and [validate_stack_name] return a
    member of their set of valid names, and return it unchanged when
    they are given it again; they accept a string in any mix of cases
    whose upper-case (lower-case) form is a valid name, and return that
    form; whatever they raise is a [ConfigurationError].  [str.upper]
    and [str.lower] are taken to map ASCII strings as [upper] and
    [lower] do. *)
Theorem case_validators_normalise :
  (forall s, isascii s -> str_upper s = upper s /\ str_lower s = lower s) ->
  (forall level u,
     validate_log_level str_upper str_of set_order level = Ok u ->
     u ∈ valid_levels
     /\ validate_log_level str_upper str_of set_order (PStr u) = Ok u)
  /\ (forall stack l,
        validate_stack_name str_lower str_of set_order stack = Ok l ->
        l ∈ valid_stacks
        /\ validate_stack_name str_lower str_of set_order (PStr l) = Ok l)
  /\ (forall s, isascii s ->
        (upper s ∈ valid_levels ->
         validate_log_level str_upper str_of set_order (PStr s) = Ok (upper s))
        /\ (lower s ∈ valid_stacks ->
            validate_stack_name str_lower str_of set_order (PStr s) = Ok (lower s)))
  /\ (forall v e,
        validate_log_level str_upper str_of set_order v = Raise e
        \/ validate_stack_name str_lower str_of set_order v = Raise e ->
        exn_class e = ConfigurationError).
Proof.
  intros Hcase.
  assert (Hlevels : forall u, u ∈ valid_levels -> str_upper u = u).
  { intros u Hu. unfold valid_levels in Hu.
    rewrite !elem_of_union, !elem_of_singleton in Hu.
    destruct Hu as [[[[-> | ->] | ->] | ->] | ->];
      match goal with
      | |- str_upper ?x = _ =>
          rewrite (proj1 (Hcase x ltac:(repeat constructor))); reflexivity
      end. }
  assert (Hstacks : forall l, l ∈ valid_stacks -> str_lower l = l).
  { intros l Hl. unfold valid_stacks in Hl.
    rewrite !elem_of_union, !elem_of_singleton in Hl.
    destruct Hl as [-> | ->];
      match goal with
      | |- str_lower ?x = _ =>
          rewrite (proj2 (Hcase x ltac:(repeat constructor))); reflexivity
      end. }
  split; [|split; [|split]].
  - intros level u. unfold validate_log_level at 1. cbv zeta.
    destruct (bool_decide _) eqn:Hin; [|discriminate]. cbn [negb].
    intros [= <-]. apply bool_decide_eq_true in Hin. split; [exact Hin|].
    unfold validate_log_level. cbn [is_str as_str]. rewrite (Hlevels _ Hin).
    rewrite (bool_decide_eq_true_2 _ Hin). reflexivity.
  - intros stack l. unfold validate_stack_name at 1. cbv zeta.
    destruct (bool_decide _) eqn:Hin; [|discriminate]. cbn [negb].
    intros [= <-]. apply bool_decide_eq_true in Hin. split; [exact Hin|].
    unfold validate_stack_name. cbn [is_str as_str]. rewrite (Hstacks _ Hin).
    rewrite (bool_decide_eq_true_2 _ Hin). reflexivity.
  - intros s Hs. destruct (Hcase s Hs) as [Hu Hl]. split.
    + intros Hin. unfold validate_log_level. cbn [is_str as_str]. rewrite Hu.
      rewrite (bool_decide_eq_true_2 _ Hin). reflexivity.
    + intros Hin. unfold validate_stack_name. cbn [is_str as_str]. rewrite Hl.
      rewrite (bool_decide_eq_true_2 _ Hin). reflexivity.
  - intros v e [H | H]; revert H;
      [unfold validate_log_level | unfold validate_stack_name]; cbv zeta;
      destruct (bool_decide _); cbn [negb]; intros [= <-]; reflexivity.
Qed.

End CaseValidators.

Lemma case_validators_normalise_witness :
  (forall level u,
     validate_log_level upper (fun _ => []) elements level = Ok u ->
     u ∈ valid_levels
     /\ validate_log_level upper (fun _ => []) elements (PStr u) = Ok u)
  /\ (forall stack l,
        validate_stack_name lower (fun _ => []) elements stack = Ok l ->
        l ∈ valid_stacks
        /\ validate_stack_name lower (fun _ => []) elements (PStr l) = Ok l)
  /\ (forall s, isascii s ->
        (upper s ∈ valid_levels ->
         validate_log_level upper (fun _ => []) elements (PStr s) = Ok (upper s))
        /\ (lower s ∈ valid_stacks ->
            validate_stack_name lower (fun _ => []) elements (PStr s) = Ok (lower s)))
  /\ (forall v e,
        validate_log_level upper (fun _ => []) elements v = Raise e
        \/ validate_stack_name lower (fun _ => []) elements v = Raise e ->
        exn_class e = ConfigurationError).
Proof.
  apply (case_validators_normalise upper lower (fun _ => []) elements).
  intros s _. split; reflexivity.
Defined.

Example validate_log_level_debug :
  validate_log_level upper (fun _ => []) elements (PStr (str "debug")) = Ok (str "DEBUG").
Proof. vm_compute. reflexivity. Qed.

(** ** utils.py *)

Lemma check_command_exists_contained (env : Env) (cmd : pystr) (e : exn) :
  check_command_exists env cmd = Raise e -> isinstance e Exception = false.
Proof.
  unfold check_command_exists. destruct (strip cmd) as [|c s]; [discriminate|].
  destruct (subprocess_run env _) as [p | e0 | e0 p]; [discriminate| |];
    destruct (isinstance e0 Exception) eqn:He; try discriminate;
    intros [= <-]; exact He.
Qed.

(** X8. [check_command_exists] answers [False] for a blank name,
    never raises an exception that derives from [Exception], and answers
    [True] only when [which] (or [where] on Windows) ran and exited with
    code 0. *)
Theorem check_command_exists_answers (env : Env) (cmd : pystr) :
  (strip cmd = [] -> check_command_exists env cmd = Ok false)
  /\ (forall e, check_command_exists env cmd = Raise e -> isinstance e Exception = false)
  /\ (check_command_exists env cmd = Ok true ->
      exists p,
        subprocess_run env [if win32 env then str "where" else str "which"; cmd]
        = Completed p
        /\ returncode p = 0%Z).
Proof.
  unfold check_command_exists. split; [intros ->; reflexivity|].
  destruct (strip cmd) as [|c s]; [split; [discriminate | discriminate]|].
  assert (Hcmd : (if win32 env then [str "where"; cmd] else [str "which"; cmd])
                 = [if win32 env then str "where" else str "which"; cmd])
    by (destruct (win32 env); reflexivity).
  rewrite Hcmd.
  destruct (subprocess_run env _) as [p | e | e p].
  - split; [discriminate|]. intros [= H]. exists p. split; [reflexivity|].
    apply Z.eqb_eq. exact H.
  - destruct (isinstance e Exception) eqn:He.
    + split; discriminate.
    + split; [intros e' [= <-]; exact He | discriminate].
  - destruct (isinstance e Exception) eqn:He.
    + split; discriminate.
    + split; [intros e' [= <-]; exact He | discriminate].
Qed.

Lemma as_strs_PStr (cmd : list pystr) : as_strs (map PStr cmd) = cmd.
Proof.
  unfold as_strs. rewrite map_map. cbn [as_str]. apply map_id.
Qed.

Lemma sanitize_command_strings (cmd : list pystr) :
  cmd <> [] ->
  (forall a pattern, In a cmd -> In pattern shell_operators -> ~ occurs_in pattern a) ->
  sanitize_command (PList (map PStr cmd)) = Ok (PList (map PStr cmd)).
Proof.
  intros Hne Hpat. unfold sanitize_command.
  destruct cmd as [|a cmd]; [contradiction|].
  cbn [map is_list truthy negb orb as_list].
  rewrite sanitize_args_ok; [reflexivity | |].
  - intros arg Hin. change (PStr a :: map PStr cmd) with (map PStr (a :: cmd)) in Hin.
    apply in_map_iff in Hin. destruct Hin as [x [<- _]]. reflexivity.
  - intros x pattern Hin. change (PStr a :: map PStr cmd) with (map PStr (a :: cmd)) in Hin.
    apply in_map_iff in Hin. destruct Hin as [y [[= <-] Hy]]. apply Hpat. exact Hy.
Qed.

(** What [run_command] does with a command and a timeout that pass the
    validators. *)
Lemma run_command_accepted (env : Env) (cmd : list pystr) (check : bool)
    (timeout : option Z) :
  cmd <> [] ->
  (forall a pattern, In a cmd -> In pattern shell_operators -> ~ occurs_in pattern a) ->
  (forall t, timeout = Some t -> (1 <= t <= 3600)%Z) ->
  run_command env cmd check timeout
  = match subprocess_run env cmd with
    | Completed result => Ok result
    | RunRaises e =>
        if isinstance e TimeoutExpired then
          let error_msg :=
            str "Command timed out after "
              ++ match timeout with Some t => of_Z t | None => str "None" end
              ++ str "s: " ++ join (str " ") cmd in
          _ ← print_markup env (str "[red]" ++ error_msg ++ str "[/red]");
          Raise (Exn DiagnosticError error_msg
                   (str "Try increasing timeout or check if the command is hanging")
                   (Some e))
        else if isinstance e FileNotFoundError then
          let error_msg := str "Command not found: " ++ hd [] cmd in
          _ ← print_markup env (str "[red]" ++ error_msg ++ str "[/red]");
          Raise (Exn DiagnosticError error_msg
                   (str "Install " ++ hd [] cmd ++ str " or ensure it's in your PATH")
                   (Some e))
        else Raise e
    | RunCalledProcessError e p => if negb check then Ok p else Raise e
    end.
Proof.
  intros Hne Hpat Htime. unfold run_command.
  rewrite (sanitize_command_strings cmd Hne Hpat).
  assert (Ht : validate_timeout timeout 1 3600 = Ok timeout).
  { unfold validate_timeout. destruct timeout as [t|]; [|reflexivity].
    specialize (Htime t eq_refl).
    destruct (Z.ltb_spec t 1); [lia|]. destruct (Z.ltb_spec 3600 t); [lia|]. reflexivity. }
  rewrite Ht. unfold mbind at 1 2, result_bind at 1 2. cbn [as_list].
  rewrite as_strs_PStr. reflexivity.
Qed.

(** A command that holds a closing tag and is not found: what leaves
    [run_command] is the error of rich, not the [DiagnosticError]. *)
Example run_command_prints_the_command :
  run_command strict_env [str "[/x]"] false (Some 30%Z)
  = Raise (builtin_error MarkupError
             (str "closing tag '[/x]' at position 24 doesn't match any open tag")).
Proof. vm_compute. reflexivity. Qed.

(** The first word of a command occurs in the command joined by
    spaces. *)
Lemma occurs_in_join_hd (cmd : list pystr) (before : pystr) :
  cmd <> [] -> occurs_in (hd [] cmd) (before ++ join (str " ") cmd).
Proof.
  destruct cmd as [|a [|b rest]]; [contradiction| |]; intros _; cbn [hd join].
  - exists before, []. rewrite app_nil_r. reflexivity.
  - exists before, (str " " ++ join (str " ") (b :: rest)). reflexivity.
Qed.

(** X9. [run_command] validates before it runs anything: an empty
    command, an argument that holds a shell operator, or a timeout
    outside 1..3600 makes it raise a [ConfigurationError] that does not
    depend on the environment.  A command it accepts is passed on as it
    is.  On a [TimeoutExpired] or a [FileNotFoundError] of
    [subprocess.run] the function prints a message that holds the
    command, between [[red]] and [[/red]]: when rich prints it, the
    function raises a [DiagnosticError] with that message from the
    exception; when rich refuses it, what rich raises leaves the
    function instead.  Any other exception comes back as it is, and a
    [CalledProcessError] as it is when [check] is set and as a result
    when it is not. *)
Theorem run_command_validates_then_translates (env : Env) (cmd : list pystr)
    (check : bool) (timeout : option Z) :
  ((cmd = []
    \/ (exists a pattern, In a cmd /\ In pattern shell_operators /\ occurs_in pattern a)
    \/ (exists t, timeout = Some t /\ (t < 1 \/ 3600 < t)%Z)) ->
   exists message suggestion, forall env',
     run_command env' cmd check timeout
     = Raise (doctor_error ConfigurationError message suggestion))
  /\ (cmd <> [] ->
      (forall a pattern, In a cmd -> In pattern shell_operators -> ~ occurs_in pattern a) ->
      (forall t, timeout = Some t -> (1 <= t <= 3600)%Z) ->
      match subprocess_run env cmd with
      | Completed p => run_command env cmd check timeout = Ok p
      | RunRaises c =>
          if isinstance c TimeoutExpired || isinstance c FileNotFoundError
          then exists message suggestion,
                 occurs_in (hd [] cmd) message
                 /\ run_command env cmd check timeout
                    = match print_markup env (str "[red]" ++ message ++ str "[/red]") with
                      | Ok _ => Raise (Exn DiagnosticError message suggestion (Some c))
                      | Raise refused => Raise refused
                      end
          else isinstance c CalledProcessError = false ->
               run_command env cmd check timeout = Raise c
      | RunCalledProcessError c p =>
          run_command env cmd check timeout = if check then Raise c else Ok p
      end).
Proof.
  split.
  - intros Hbad. unfold run_command.
    destruct (sanitize_command (PList (map PStr cmd))) as [accepted|e] eqn:Hs.
    + assert (Hok : cmd <> []
                    /\ forall a pattern, In a cmd -> In pattern shell_operators ->
                                         ~ occurs_in pattern a).
      { unfold sanitize_command in Hs. destruct cmd as [|a cmd]; [discriminate|].
        cbn [map is_list truthy negb orb as_list] in Hs.
        destruct (sanitize_args (PStr a :: map PStr cmd) []) as [r|] eqn:Hr; [|discriminate].
        apply sanitize_args_returns in Hr. destruct Hr as [_ [_ Hpat]].
        split; [discriminate|]. intros x pattern Hx. apply Hpat.
        change (PStr a :: map PStr cmd) with (map PStr (a :: cmd)).
        apply in_map. exact Hx. }
      destruct Hok as [Hne Hpat].
      destruct Hbad as [-> | [[a [pattern [Ha [Hp Ho]]]] | [t [-> Ht]]]];
        [contradiction | exfalso; exact (Hpat a pattern Ha Hp Ho) |].
      unfold mbind, result_bind, validate_timeout.
      destruct (Z.ltb_spec t 1) as [Hlt | Hge].
      * eexists _, _. intros env'. reflexivity.
      * destruct (Z.ltb_spec 3600 t) as [Hgt | Hle]; [|lia].
        eexists _, _. intros env'. reflexivity.
    + unfold sanitize_command in Hs. destruct cmd as [|a cmd].
      * injection Hs as <-. eexists _, _. intros env'. reflexivity.
      * cbn [map is_list truthy negb orb as_list] in Hs.
        destruct (sanitize_args (PStr a :: map PStr cmd) []) as [r|e'] eqn:Hr;
          [discriminate|].
        injection Hs as <-.
        assert (Hcfg : exists message suggestion,
                   e' = doctor_error ConfigurationError message suggestion).
        { clear Hbad. revert Hr. generalize (@nil pyval).
          generalize (PStr a :: map PStr cmd). intros args.
          induction args as [|arg args IH]; intros sanitized Hr; [discriminate|].
          cbn [sanitize_args] in Hr. destruct arg; try (injection Hr as <-; eauto).
          destruct (find _ dangerous_patterns); [injection Hr as <-; eauto|].
          exact (IH _ Hr). }
        destruct Hcfg as [message [suggestion ->]].
        exists message, suggestion. intros env'. reflexivity.
  - intros Hne Hpat Htime.
    rewrite (run_command_accepted env cmd check timeout Hne Hpat Htime).
    destruct (subprocess_run env cmd) as [p | c | c p].
    + reflexivity.
    + destruct (isinstance c TimeoutExpired); cbn [orb].
      { eexists _, _. split; [|unfold mbind, result_bind; reflexivity].
        rewrite !app_assoc. apply occurs_in_join_hd. exact Hne. }
      destruct (isinstance c FileNotFoundError); [|intros _; reflexivity].
      eexists _, _. split; [|unfold mbind, result_bind; reflexivity].
      exists (str "Command not found: "), []. rewrite app_nil_r. reflexivity.
    + destruct check; reflexivity.
Qed.

Lemma divided_shift (k : nat) (x : Q) : divided k (x / 1024)%Q = divided (S k) x.
Proof.
  induction k as [|k IH]; [reflexivity|]. cbn [divided]. rewrite IH. reflexivity.
Qed.

Lemma divided_power (k : nat) (n : Z) :
  (divided k (inject_Z n) == inject_Z n / inject_Z (1024 ^ Z.of_nat k))%Q.
Proof.
  induction k as [|k IH].
  - cbn [divided]. change (inject_Z (1024 ^ Z.of_nat 0)) with 1%Q.
    field.
  - cbn [divided]. rewrite IH, Nat2Z.inj_succ, Z.pow_succ_r by lia.
    rewrite (Z.mul_comm 1024), inject_Z_mult.
    assert (Hpos : ~ (inject_Z (1024 ^ Z.of_nat k) == 0)%Q).
    { intros H. apply (Qeq_bool_neq (inject_Z (1024 ^ Z.of_nat k)) 0); [|exact H].
      unfold Qeq_bool, inject_Z. cbn. apply Z.eqb_neq. lia. }
    field. exact Hpos.
Qed.

Lemma at_least_1024 (k : nat) (n : Z) :
  Qle_bool 1024 (divided k (inject_Z n)) = (1024 ^ Z.of_nat (S k) <=? n)%Z.
Proof.
  apply eq_true_iff_eq. rewrite Qle_bool_iff, Z.leb_le, divided_power.
  assert (Hp : (0 < 1024 ^ Z.of_nat k)%Z) by lia.
  assert (Hq : (0 < inject_Z (1024 ^ Z.of_nat k))%Q).
  { rewrite <- (Zlt_Qlt 0). exact Hp. }
  rewrite Nat2Z.inj_succ, Z.pow_succ_r by lia.
  split.
  - intros H. apply (Qmult_le_r _ _ _ Hq) in H.
    unfold Qdiv in H. rewrite <- Qmult_assoc, (Qmult_comm (/ _)), Qmult_inv_r, Qmult_1_r in H
      by (intros E; rewrite E in Hq; discriminate).
    change 1024%Q with (inject_Z 1024) in H. rewrite <- inject_Z_mult in H.
    rewrite Zle_Qle. exact H.
  - intros H. apply Qle_shift_div_l; [exact Hq|].
    change 1024%Q with (inject_Z 1024). rewrite <- inject_Z_mult, <- Zle_Qle. exact H.
Qed.

Lemma format_size_loop_unit (env : Env) (done units : list pystr) (unit : pystr)
    (later : list pystr) (n : Z) :
  units = done ++ unit :: later ->
  (forall j, (j < length done)%nat -> (1024 ^ Z.of_nat (S j) <= n)%Z) ->
  (n < 1024 ^ Z.of_nat (S (length done)))%Z ->
  format_size_loop env units (inject_Z n)
  = fmt_2f env (divided (length done) (inject_Z n)) ++ str " " ++ unit.
Proof.
  intros -> Hbig Hsmall.
  assert (Hgen : forall skipped,
             (forall j, (j < length done)%nat ->
                        (1024 ^ Z.of_nat (S (skipped + j)) <= n)%Z) ->
             (n < 1024 ^ Z.of_nat (S (skipped + length done)))%Z ->
             format_size_loop env (done ++ unit :: later) (divided skipped (inject_Z n))
             = fmt_2f env (divided (skipped + length done) (inject_Z n)) ++ str " " ++ unit).
  { clear. induction done as [|u done IH]; intros skipped Hbig Hsmall.
    - cbn [app format_size_loop length]. rewrite Nat.add_0_r in *.
      rewrite at_least_1024. destruct (Z.leb_spec (1024 ^ Z.of_nat (S skipped)) n); [lia|].
      reflexivity.
    - cbn [app format_size_loop length]. rewrite at_least_1024.
      pose proof (Hbig O ltac:(cbn; lia)) as H0. rewrite Nat.add_0_r in H0.
      destruct (Z.leb_spec (1024 ^ Z.of_nat (S skipped)) n); [|lia].
      cbn [negb]. change (divided skipped (inject_Z n) / 1024)%Q
        with (divided (S skipped) (inject_Z n)).
      rewrite (IH (S skipped)).
      + cbn [length]. rewrite Nat.add_succ_r. reflexivity.
      + intros j Hj. specialize (Hbig (S j) ltac:(cbn; lia)).
        rewrite Nat.add_succ_r in Hbig. exact Hbig.
      + cbn [length] in Hsmall. rewrite Nat.add_succ_r in Hsmall. exact Hsmall. }
  apply (Hgen O); assumption.
Qed.

Lemma format_size_loop_last (env : Env) (units : list pystr) (n : Z) (skipped : nat) :
  (forall j, (j < length units)%nat -> (1024 ^ Z.of_nat (S (skipped + j)) <= n)%Z) ->
  format_size_loop env units (divided skipped (inject_Z n))
  = fmt_2f env (divided (skipped + length units) (inject_Z n)) ++ str " PB".
Proof.
  revert skipped. induction units as [|u units IH]; intros skipped Hbig.
  - cbn [format_size_loop length]. rewrite Nat.add_0_r. reflexivity.
  - cbn [format_size_loop length]. rewrite at_least_1024.
    pose proof (Hbig O ltac:(cbn; lia)) as H0. rewrite Nat.add_0_r in H0.
    destruct (Z.leb_spec (1024 ^ Z.of_nat (S skipped)) n); [|lia].
    cbn [negb]. change (divided skipped (inject_Z n) / 1024)%Q
      with (divided (S skipped) (inject_Z n)).
    rewrite (IH (S skipped)).
    + rewrite Nat.add_succ_r. reflexivity.
    + intros j Hj. specialize (Hbig (S j) ltac:(cbn; lia)).
      rewrite Nat.add_succ_r in Hbig. exact Hbig.
Qed.

(** X10. [format_size] shows a size in the largest unit that does not
    exceed it: for a size of at least [1024^k] bytes (when [k > 0]) and
    less than [1024^(k+1)] bytes (when [k < 5]) it prints the size
    divided [k] times by 1024, which is the size divided by [1024^k],
    with two decimals and the [k]-th of the units B, KB, MB, GB, TB, PB.
    A negative size is shown in bytes.  The sizes are those a float
    holds exactly. *)
Theorem format_size_picks_the_unit (env : Env) (n : Z) (k : nat) :
  (Z.abs n <= 2 ^ 53)%Z ->
  (k <= 5)%nat ->
  ((0 < k)%nat -> (1024 ^ Z.of_nat k <= n)%Z) ->
  ((k < 5)%nat -> (n < 1024 ^ Z.of_nat (S k))%Z) ->
  format_size env n
  = fmt_2f env (divided k (inject_Z n)) ++ str " " ++ nth k size_units []
  /\ (divided k (inject_Z n) == inject_Z n / inject_Z (1024 ^ Z.of_nat k))%Q.
Proof.
  intros _ Hk Hlow Hhigh. split; [|apply divided_power].
  assert (Hbig : forall j, (j < k)%nat -> (1024 ^ Z.of_nat (S j) <= n)%Z).
  { intros j Hj. etransitivity; [|apply Hlow; lia].
    apply Z.pow_le_mono_r; lia. }
  unfold format_size.
  destruct k as [|[|[|[|[|[|k]]]]]]; try lia.
  - apply (format_size_loop_unit env [] _ _ _ n eq_refl); [exact Hbig | apply Hhigh; lia].
  - apply (format_size_loop_unit env [_] _ _ _ n eq_refl); [exact Hbig | apply Hhigh; lia].
  - apply (format_size_loop_unit env [_; _] _ _ _ n eq_refl); [exact Hbig | apply Hhigh; lia].
  - apply (format_size_loop_unit env [_; _; _] _ _ _ n eq_refl);
      [exact Hbig | apply Hhigh; lia].
  - apply (format_size_loop_unit env [_; _; _; _] _ _ _ n eq_refl);
      [exact Hbig | apply Hhigh; lia].
  - exact (format_size_loop_last env [str "B"; str "KB"; str "MB"; str "GB"; str "TB"]
             n 0 Hbig).
Qed.

Lemma format_size_picks_the_unit_witness :
  format_size healthy_env (1536 * 1024)
  = fmt_2f healthy_env (divided 2 (inject_Z (1536 * 1024))) ++ str " " ++ str "MB"
  /\ (divided 2 (inject_Z (1536 * 1024))
      == inject_Z (1536 * 1024) / inject_Z (1024 ^ 2))%Q.
Proof.
  apply (format_size_picks_the_unit healthy_env (1536 * 1024) 2).
  - vm_compute. discriminate.
  - lia.
  - intros _. vm_compute. discriminate.
  - intros _. reflexivity.
Defined.

(** ** diagnose.py: what the probes raise and return *)

Ltac contained :=
  unfold contains_its_failures, mbind, result_bind, except_Exception; cbv beta zeta;
  intros ?e; branches; intros ?H; first [discriminate | congruence].

Lemma check_cuda_driver_contains (env : Env) : contains_its_failures (check_cuda_driver env).
Proof.
  pose proof (check_command_exists_contained env (str "nvidia-smi")) as Hexc.
  unfold check_cuda_driver. destruct (check_command_exists env (str "nvidia-smi")) as [b|e0].
  - clear Hexc. contained.
  - intros e [= <-]. apply Hexc. reflexivity.
Qed.

Lemma check_pytorch_cuda_contains (env : Env) :
  contains_its_failures (check_pytorch_cuda env).
Proof. unfold check_pytorch_cuda. contained. Qed.

Lemma check_disk_space_contains (env : Env) :
  contains_its_failures (check_disk_space env).
Proof. unfold check_disk_space. contained. Qed.

Lemma check_docker_gpu_contains (env : Env) :
  contains_its_failures (check_docker_gpu env).
Proof.
  pose proof (check_command_exists_contained env (str "docker")) as Hexc.
  unfold check_docker_gpu. destruct (check_command_exists env (str "docker")) as [b|e0].
  - clear Hexc. contained.
  - intros e [= <-]. apply Hexc. reflexivity.
Qed.

Lemma check_internet_connectivity_contains (env : Env) :
  contains_its_failures (check_internet_connectivity env).
Proof. unfold check_internet_connectivity. contained. Qed.

(** X11. Five of the seven probes report their own failures: whatever
    goes wrong inside [check_cuda_driver], [check_pytorch_cuda],
    [check_disk_space], [check_docker_gpu] and
    [check_internet_connectivity], they raise no exception that derives
    from [Exception].  The other two do: [check_ml_libraries] lets
    through what the first import raises unless it is an [ImportError],
    and [check_gpu_memory] what [torch.cuda.is_available()] raises. *)
Theorem probes_contain_their_failures (env : Env) :
  (contains_its_failures (check_cuda_driver env)
   /\ contains_its_failures (check_pytorch_cuda env)
   /\ contains_its_failures (check_disk_space env)
   /\ contains_its_failures (check_docker_gpu env)
   /\ contains_its_failures (check_internet_connectivity env))
  /\ (forall e, import_module env (str "transformers") = Raise e ->
                isinstance e ImportError = false ->
                check_ml_libraries env = Raise e)
  /\ (forall t e, torch env = Some t -> cuda_is_available t = Raise e ->
                  check_gpu_memory env = Raise e).
Proof.
  split.
  - split; [apply check_cuda_driver_contains|].
    split; [apply check_pytorch_cuda_contains|].
    split; [apply check_disk_space_contains|].
    split; [apply check_docker_gpu_contains | apply check_internet_connectivity_contains].
  - split.
    + intros e He Hc. unfold check_ml_libraries, required_libs.
      cbn [check_libraries]. unfold check_library. rewrite He, Hc. reflexivity.
    + intros t e Ht He. unfold check_gpu_memory. rewrite Ht, He. reflexivity.
Qed.

Ltac single :=
  unfold one_record, mbind, result_bind, except_Exception; cbv beta zeta;
  intros ?issues; branches; intros ?H;
  first [ discriminate
        | match goal with
          | H : Ok _ = Ok _ |- _ => injection H as <-; eexists; split; reflexivity
          end ].

Lemma check_cuda_driver_one_record (env : Env) :
  one_record (str "NVIDIA GPU Driver") (check_cuda_driver env).
Proof. unfold check_cuda_driver. single. Qed.

Lemma check_disk_space_one_record (env : Env) :
  one_record (str "Disk Space") (check_disk_space env).
Proof. unfold check_disk_space. single. Qed.

Lemma check_docker_gpu_one_record (env : Env) :
  one_record (str "Docker GPU Support") (check_docker_gpu env).
Proof. unfold check_docker_gpu. single. Qed.

Lemma check_internet_connectivity_one_record (env : Env) :
  one_record (str "Internet Connectivity") (check_internet_connectivity env).
Proof. unfold check_internet_connectivity. single. Qed.

Lemma check_library_one_record (env : Env) (lib_name version_req : pystr) :
  one_record lib_name (check_library env lib_name version_req).
Proof. unfold check_library. single. Qed.

Lemma check_libraries_names (env : Env) (libs : list (pystr * pystr))
    (issues found : list DiagnosticIssue) :
  check_libraries env libs issues = Ok found ->
  map name found = map name issues ++ map fst libs.
Proof.
  revert issues. induction libs as [|[lib_name version_req] libs IH]; intros issues Hrun.
  - injection Hrun as <-. rewrite app_nil_r. reflexivity.
  - cbn [check_libraries] in Hrun. unfold mbind, result_bind in Hrun.
    pose proof (check_library_one_record env lib_name version_req) as Hone.
    destruct (check_library env lib_name version_req) as [one|e]; [|discriminate].
    destruct (Hone one eq_refl) as [issue [-> Hname]].
    apply IH in Hrun. rewrite Hrun, map_app. cbn [map fst]. rewrite Hname, <- app_assoc.
    reflexivity.
Qed.

Lemma check_pytorch_cuda_records (env : Env) (issues : list DiagnosticIssue) :
  check_pytorch_cuda env = Ok issues -> (1 <= length issues <= 2)%nat.
Proof.
  unfold check_pytorch_cuda. cbv zeta. branches; intros H;
    first [discriminate | injection H as <-; cbn; lia].
Qed.

Lemma check_gpu_memory_records (env : Env) (issues : list DiagnosticIssue) :
  check_gpu_memory env = Ok issues ->
  issues = [] \/ exists issue, issues = [issue] /\ name issue = str "GPU Memory".
Proof.
  unfold check_gpu_memory, mbind, result_bind, except_Exception. cbv beta.
  branches; intros H;
    first [ discriminate
          | injection H as <-; first [ left; reflexivity
                                     | right; eexists; split; reflexivity ] ].
Qed.

(** X12. The probes of one subject answer with one record under a
    fixed name: [check_cuda_driver], [check_disk_space],
    [check_docker_gpu] and [check_internet_connectivity] return exactly
    one record whenever they return; [check_gpu_memory] returns one
    record, or none; [check_pytorch_cuda] one or two; and
    [check_ml_libraries] one record per required library, named after
    it, in the order of [required_libs]. *)
Theorem probes_answer_by_name (env : Env) :
  one_record (str "NVIDIA GPU Driver") (check_cuda_driver env)
  /\ one_record (str "Disk Space") (check_disk_space env)
  /\ one_record (str "Docker GPU Support") (check_docker_gpu env)
  /\ one_record (str "Internet Connectivity") (check_internet_connectivity env)
  /\ (forall issues, check_gpu_memory env = Ok issues ->
        issues = [] \/ exists issue, issues = [issue] /\ name issue = str "GPU Memory")
  /\ (forall issues, check_pytorch_cuda env = Ok issues -> (1 <= length issues <= 2)%nat)
  /\ (forall issues, check_ml_libraries env = Ok issues ->
        map name issues
        = [str "transformers"; str "peft"; str "trl"; str "datasets"; str "accelerate"]).
Proof.
  split; [apply check_cuda_driver_one_record|].
  split; [apply check_disk_space_one_record|].
  split; [apply check_docker_gpu_one_record|].
  split; [apply check_internet_connectivity_one_record|].
  split; [apply check_gpu_memory_records|].
  split; [apply check_pytorch_cuda_records|].
  intros issues Hrun. apply check_libraries_names in Hrun. exact Hrun.
Qed.

Lemma take_while_app (p : N -> bool) (a b : pystr) :
  Forall (fun c => p c = true) a ->
  match b with [] => True | c :: _ => p c = false end ->
  take_while p (a ++ b) = a /\ drop_while p (a ++ b) = b.
Proof.
  intros Ha Hb. induction Ha as [|c a Hc _ [IH1 IH2]].
  - cbn [app]. destruct b as [|c b]; [split; reflexivity|].
    cbn [take_while drop_while]. rewrite Hb. split; reflexivity.
  - cbn [app take_while drop_while]. rewrite Hc, IH1, IH2. split; reflexivity.
Qed.

(** After the label, a version [major.minor] that no digit follows is
    the group of the match. *)
Lemma cuda_version_at_label (major minor rest : pystr) :
  major <> [] -> minor <> [] ->
  Forall (fun c => is_digit c = true) major ->
  Forall (fun c => is_digit c = true) minor ->
  match rest with [] => True | c :: _ => is_digit c = false end ->
  cuda_version_at (cuda_label ++ major ++ [46] ++ minor ++ rest)
  = Some (major ++ [46] ++ minor).
Proof.
  intros Hmajor Hminor Hdm Hdn Hrest. unfold cuda_version_at.
  assert (Hstart : starts_with (str "CUDA Version: ")
                     (cuda_label ++ major ++ [46] ++ minor ++ rest) = true).
  { apply starts_with_spec. eexists. reflexivity. }
  rewrite Hstart.
  change (drop 14 (cuda_label ++ major ++ [46] ++ minor ++ rest))
    with (major ++ [46] ++ minor ++ rest).
  destruct (take_while_app is_digit major ([46] ++ minor ++ rest) Hdm eq_refl) as [-> ->].
  destruct major as [|d major]; [contradiction|].
  cbn [app].
  destruct (take_while_app is_digit minor rest Hdn Hrest) as [Ht _].
  rewrite Ht.
  destruct minor as [|m minor]; [contradiction | reflexivity].
Qed.

(** The label does not start inside a text that does not hold it and
    that it follows. *)
Lemma label_not_before (pre tail : pystr) :
  pre <> [] ->
  starts_with cuda_label pre = false ->
  starts_with cuda_label (pre ++ cuda_label ++ tail) = false.
Proof.
  intros Hne Hpre.
  do 14 (destruct pre as [|? pre];
         [first [contradiction
                | cbn; rewrite ?andb_false_r; reflexivity]|]).
  cbn in Hpre |- *. rewrite andb_true_r in Hpre |- *. exact Hpre.
Qed.

Lemma search_cuda_version_unfold (s : pystr) :
  search_cuda_version s
  = match cuda_version_at s with
    | Some v => Some v
    | None => match s with [] => None | _ :: s' => search_cuda_version s' end
    end.
Proof. destruct s; reflexivity. Qed.

Lemma search_cuda_version_after (pre tail v : pystr) :
  contains cuda_label pre = false ->
  cuda_version_at (cuda_label ++ tail) = Some v ->
  search_cuda_version (pre ++ cuda_label ++ tail) = Some v.
Proof.
  intros Hpre Hat. induction pre as [|c pre IH].
  - cbn [app]. rewrite search_cuda_version_unfold, Hat. reflexivity.
  - cbn [contains] in Hpre. apply orb_false_elim in Hpre. destruct Hpre as [Hstart Hrest].
    rewrite search_cuda_version_unfold.
    assert (Hnone : cuda_version_at ((c :: pre) ++ cuda_label ++ tail) = None).
    { unfold cuda_version_at.
      change (str "CUDA Version: ") with cuda_label.
      rewrite (label_not_before (c :: pre) tail); [reflexivity | discriminate | exact Hstart]. }
    rewrite Hnone. cbn [app]. apply IH. exact Hrest.
Qed.

(** X13. When [nvidia-smi] is found, exits with code 0 and prints
    [CUDA Version: major.minor] after its driver version,
    [check_cuda_driver] returns one PASS record that carries that
    version.  The output is taken to print the label once, and the
    version in ASCII digits with no further digit after it. *)
Theorem check_cuda_driver_reports_the_version (env : Env) (p : CompletedProcess)
    (pre major minor rest : pystr) :
  check_command_exists env (str "nvidia-smi") = Ok true ->
  subprocess_run env [str "nvidia-smi"] = Completed p ->
  returncode p = 0%Z ->
  stdout p = pre ++ cuda_label ++ major ++ str "." ++ minor ++ rest ->
  occurs_in (str "Driver Version") (stdout p) ->
  ~ occurs_in cuda_label pre ->
  major <> [] -> minor <> [] ->
  Forall (fun c => is_digit c = true) major ->
  Forall (fun c => is_digit c = true) minor ->
  match rest with [] => True | c :: _ => is_digit c = false /\ c < 128 end ->
  check_cuda_driver env
  = Ok [ {| name := str "NVIDIA GPU Driver";
            status := str "PASS - CUDA " ++ major ++ str "." ++ minor;
            severity := str "info";
            fix_ := [];
            details := Some (str "CUDA Version: " ++ major ++ str "." ++ minor) |} ].
Proof.
  intros Hexists Hrun Hcode Hout Hdriver Hpre Hmajor Hminor Hdm Hdn Hrest.
  unfold check_cuda_driver. rewrite Hexists. unfold mbind at 1, result_bind at 1.
  cbn [negb].
  rewrite (run_command_accepted env [str "nvidia-smi"] false (Some 10%Z)).
  - rewrite Hrun. unfold mbind, result_bind, except_Exception. rewrite Hcode.
    cbn [Z.eqb negb].
    rewrite (proj2 (contains_spec _ _) Hdriver), Hout.
    rewrite (search_cuda_version_after pre (major ++ str "." ++ minor ++ rest)
               (major ++ str "." ++ minor)).
    + reflexivity.
    + apply contains_false. exact Hpre.
    + apply cuda_version_at_label; try assumption.
      destruct rest as [|c rest]; [exact I | exact (proj1 Hrest)].
  - discriminate.
  - intros a pattern [<- | []] Hin Hocc. apply contains_spec in Hocc.
    cbn [shell_operators In] in Hin.
    repeat (destruct Hin as [<- | Hin]; [vm_compute in Hocc; discriminate|]).
    destruct Hin.
  - intros t [= <-]. lia.
Qed.

Lemma check_cuda_driver_reports_the_version_witness :
  check_cuda_driver healthy_env
  = Ok [ {| name := str "NVIDIA GPU Driver";
            status := str "PASS - CUDA " ++ str "12" ++ str "." ++ str "4";
            severity := str "info";
            fix_ := [];
            details := Some (str "CUDA Version: " ++ str "12" ++ str "." ++ str "4") |} ].
Proof.
  apply (check_cuda_driver_reports_the_version healthy_env
           {| returncode := 0;
              stdout := str "| NVIDIA-SMI 550.54   Driver Version: 550.54   CUDA Version: 12.4 |";
              stderr := [] |}
           (str "| NVIDIA-SMI 550.54   Driver Version: 550.54   ")
           (str "12") (str "4") (str " |")).
  - reflexivity.
  - reflexivity.
  - reflexivity.
  - reflexivity.
  - apply contains_spec. vm_compute. reflexivity.
  - apply contains_false. vm_compute. reflexivity.
  - discriminate.
  - discriminate.
  - repeat constructor.
  - repeat constructor.
  - split; [reflexivity | reflexivity].
Defined.

(** X14. [check_pytorch_cuda] can report PASS and FAIL at once: when
    CUDA is available but the version of torch does not start with two
    integers separated by a dot, the PASS record is already in the list
    when the unpacking fails, and the handler adds a critical FAIL
    record under the same name. *)
Theorem check_pytorch_cuda_passes_and_fails (env : Env) (t : Torch) (device_count : Z)
    (device_name : pystr) (e : exn) :
  torch env = Some t ->
  cuda_is_available t = Ok true ->
  cuda_device_count t = Ok device_count ->
  (if (0 <? device_count)%Z then cuda_get_device_name t else Ok (str "unknown"))
  = Ok device_name ->
  torch_major_minor env (torch_version t) = Raise e ->
  isinstance e Exception = true ->
  map (fun issue => (name issue, take 4 (status issue), severity issue))
    (produced (check_pytorch_cuda env))
  = [(str "PyTorch CUDA", str "PASS", str "info");
     (str "PyTorch CUDA", str "FAIL", str "critical")].
Proof.
  intros Ht Ha Hc Hn Hv He. unfold check_pytorch_cuda. cbv zeta.
  rewrite Ht, Ha, Hc, Hn, Hv, He. reflexivity.
Qed.

(** The theorem at a build of torch whose version is [nightly]. *)
Lemma check_pytorch_cuda_passes_and_fails_witness :
  map (fun issue => (name issue, take 4 (status issue), severity issue))
    (produced (check_pytorch_cuda unversioned_env))
  = [(str "PyTorch CUDA", str "PASS", str "info");
     (str "PyTorch CUDA", str "FAIL", str "critical")].
Proof.
  apply (check_pytorch_cuda_passes_and_fails unversioned_env unversioned_torch 1%Z
           (str "NVIDIA A100")
           (builtin_error ValueError (str "invalid literal for int()"))).
  - reflexivity.
  - reflexivity.
  - reflexivity.
  - reflexivity.
  - reflexivity.
  - reflexivity.
Defined.

(** X15. [check_internet_connectivity] reports PASS exactly when one
    of at most three calls of [urlopen] returns, each call before it
    having failed with a [ConnectionError], a [TimeoutError] or an
    [OSError] and having been followed by a sleep (of 1 second, then of
    2 seconds) that returned. *)
Theorem check_internet_connectivity_passes_iff (env : Env) :
  check_internet_connectivity env = Ok [hub_accessible]
  <-> exists k, (1 <= k <= 3)%nat /\ reached_at env k.
Proof.
  unfold reached_at, network_errors. split.
  - unfold check_internet_connectivity, Retry.retry_network, Retry.retry, _check_connectivity,
      except_Exception.
    cbn [Retry.retry_loop]. unfold mbind, result_bind, Retry.call_on_retry.
    destruct (urlopen env 1) as [[]|e1] eqn:H1.
    { intros _. exists 1%nat. split; [lia|]. split; [exact H1 | intros j Hj; lia]. }
    destruct (caught_by [ConnectionError; TimeoutError; OSError] e1) eqn:Hc1.
    2:{ cbn [snd]. destruct (isinstance e1 Exception); discriminate. }
    cbn [Nat.ltb Nat.leb].
    destruct (sleep env 1%Q) as [[]|s1] eqn:Hs1.
    2:{ cbn [snd]. destruct (isinstance s1 Exception); discriminate. }
    destruct (urlopen env 2) as [[]|e2] eqn:H2.
    { intros _. exists 2%nat. split; [lia|]. split; [exact H2|].
      intros j Hj. assert (j = 1%nat) as -> by lia. split; [eauto | exact Hs1]. }
    destruct (caught_by [ConnectionError; TimeoutError; OSError] e2) eqn:Hc2.
    2:{ cbn [snd]. destruct (isinstance e2 Exception); discriminate. }
    destruct (sleep env (1 * 2)%Q) as [[]|s2] eqn:Hs2.
    2:{ cbn [snd]. destruct (isinstance s2 Exception); discriminate. }
    destruct (urlopen env 3) as [[]|e3] eqn:H3.
    { intros _. exists 3%nat. split; [lia|]. split; [exact H3|].
      intros j Hj. assert (j = 1 \/ j = 2)%nat as [-> | ->] by lia.
      - split; [eauto | exact Hs1].
      - split; [eauto | exact Hs2]. }
    destruct (caught_by [ConnectionError; TimeoutError; OSError] e3) eqn:Hc3.
    2:{ cbn [snd]. destruct (isinstance e3 Exception); discriminate. }
    cbn [snd]. discriminate.
  - intros [k [Hk [Hok Hbefore]]].
    unfold check_internet_connectivity, Retry.retry_network, Retry.retry, _check_connectivity,
      except_Exception.
    cbn [Retry.retry_loop]. unfold mbind, result_bind, Retry.call_on_retry.
    assert (k = 1 \/ k = 2 \/ k = 3)%nat as [-> | [-> | ->]] by lia.
    + rewrite Hok. reflexivity.
    + destruct (Hbefore 1%nat ltac:(lia)) as [[e1 [H1 Hc1]] Hs1].
      cbn [Nat.sub Retry.backed_off] in Hs1.
      rewrite H1, Hc1. cbn [Nat.ltb Nat.leb]. rewrite Hs1, Hok. reflexivity.
    + destruct (Hbefore 1%nat ltac:(lia)) as [[e1 [H1 Hc1]] Hs1].
      destruct (Hbefore 2%nat ltac:(lia)) as [[e2 [H2 Hc2]] Hs2].
      cbn [Nat.sub Retry.backed_off] in Hs1, Hs2.
      rewrite H1, Hc1. cbn [Nat.ltb Nat.leb]. rewrite Hs1, H2, Hc2, Hs2, Hok. reflexivity.
Qed.

(** ** diagnose.py: the list of diagnose_env *)

Section DiagnoseEnvMore.

Import Parallel.
Local Open Scope nat_scope.





End DiagnoseEnvMore.



Lemma to_row_well_formed (use_emojis : bool) (issue : DiagnosticIssue) :
  well_formed issue ->
  exists icon,
    In icon (category_icons use_emojis)
    /\ to_row use_emojis issue
       = Ok (name issue, icon ++ str " " ++ status issue, upper (severity issue),
             fix_ issue).
Proof.
  intros [_ [token [Hhead Hcat]]]. unfold to_row, first_token.
  destruct (split_ws (status issue)) as [|first rest]; [discriminate|].
  injection Hhead as ->. unfold mbind, result_bind.
  unfold categories in Hcat. cbn [In] in Hcat.
  destruct Hcat as [<- | [<- | [<- | [<- | []]]]]; eexists; (split; [|reflexivity]);
    unfold category_icons; cbn [In]; destruct use_emojis; vm_compute; tauto.
Qed.

(** What fails in rich alone. *)
Lemma fails_in_rich_alone_ret {A} (a : A) : fails_in_rich_alone (mret a).
Proof. intros w. split; [reflexivity | discriminate]. Qed.

Lemma fails_in_rich_alone_bind {A B} (m : IO A) (f : A -> IO B) :
  fails_in_rich_alone m -> (forall a, fails_in_rich_alone (f a)) ->
  fails_in_rich_alone (m ≫= f).
Proof.
  intros Hm Hf w. unfold mbind, IO_bind. destruct (Hm w) as [Hr He].
  destruct (m w) as [[a | e0] w']; cbn [fst snd] in *.
  - destruct (Hf a w') as [Hr' He']. rewrite Hr in Hr', He'. split; assumption.
  - split; [exact Hr|]. intros e [= <-]. apply He. reflexivity.
Qed.

Lemma fails_in_rich_alone_console_print (r : rendered) :
  fails_in_rich_alone (console_print r).
Proof.
  intros w. unfold console_print, rendering.
  destruct r; try (split; [reflexivity | discriminate]);
    match goal with
    | |- context [rich_print w ?r] => destruct (rich_print w r) as [[]|e0] eqn:Hr
    end;
    (split; [reflexivity|]); cbn [fst on_console]; try discriminate;
    intros e [= <-]; eauto.
Qed.

Lemma fails_in_rich_alone_when (b : bool) (m : IO unit) :
  fails_in_rich_alone m -> fails_in_rich_alone (when b m).
Proof. intros Hm. destruct b; [exact Hm | apply fails_in_rich_alone_ret]. Qed.

(** Once the table has its rows, [print_diagnostic_table] fails in rich
    alone. *)
Lemma print_diagnostic_table_fails_in_rich (use_emojis : bool) (w : World)
    (rows : list (pystr * pystr * pystr * pystr)) (e : exn) :
  add_rows use_emojis (mem w) [] = Ok rows ->
  fst (print_diagnostic_table use_emojis w) = Raise e ->
  exists r, rich_print w r = Raise e.
Proof.
  intros Hrows. unfold print_diagnostic_table.
  unfold mbind at 1 2, IO_bind at 1 2, read_issues, lift. rewrite Hrows.
  match goal with
  | |- fst (?rest w) = _ -> _ =>
      assert (Hrest : fails_in_rich_alone rest); [|exact (proj2 (Hrest w) e)]
  end.
  repeat (apply fails_in_rich_alone_bind;
          [first [ apply fails_in_rich_alone_console_print
                 | apply fails_in_rich_alone_when, fails_in_rich_alone_console_print ]
          | intros _ ]).
  destruct (_ && _); [apply fails_in_rich_alone_console_print|].
  destruct (_ <? _)%nat; apply fails_in_rich_alone_console_print.
Qed.

Section TableProperties.

Import Parallel.

(** X18. Whatever [diagnose_env] returns can be given to the table:
    every record of its list has one of the three severities and a
    status that starts with PASS, FAIL, WARN or INFO; [to_row] gives
    each the icon of its category, never the question mark of an
    unknown status, so the table gets one row per record and
    [print_diagnostic_table] raises no [IndexError] of its own: it
    returns when rich prints what it is given, and what it raises, rich
    raised on the table or on a line of the summary. *)
Theorem diagnose_env_feeds_the_table (env : Env) (use_emojis full parallel : bool)
    (completion_core completion_extended : list nat) :
  let records :=
    produced (snd (diagnose_env env use_emojis full parallel
                     completion_core completion_extended)) in
  Forall well_formed records
  /\ (forall issue, In issue records ->
        exists icon,
          In icon (category_icons use_emojis)
          /\ to_row use_emojis issue
             = Ok (name issue, icon ++ str " " ++ status issue,
                   upper (severity issue), fix_ issue))
  /\ (exists rows,
        add_rows use_emojis records [] = Ok rows /\ length rows = length records)
  /\ (forall w, mem w = records ->
        (prints_all w -> fst (print_diagnostic_table use_emojis w) = Ok ())
        /\ (forall e, fst (print_diagnostic_table use_emojis w) = Raise e ->
                      exists r, rich_print w r = Raise e)).
Proof.
  cbn zeta.
  pose proof (diagnose_env_records_well_formed env use_emojis full parallel
                completion_core completion_extended) as Hwf.
  split; [exact Hwf|]. split; [|split].
  - intros issue Hin. apply to_row_well_formed.
    exact (proj1 (List.Forall_forall _ _) Hwf issue Hin).
  - destruct (add_rows_returns use_emojis _ [] (well_formed_has_token _ Hwf))
      as [rows [Hrows Hlen]].
    exists rows. split; [exact Hrows | exact Hlen].
  - intros w Hmem. rewrite <- Hmem in Hwf.
    destruct (add_rows_returns use_emojis (mem w) [] (well_formed_has_token _ Hwf))
      as [rows [Hrows _]].
    split.
    + intros Hall.
      exact (proj1 (print_diagnostic_table_prints use_emojis w rows Hall Hrows)).
    + intros e. exact (print_diagnostic_table_fails_in_rich use_emojis w rows e Hrows).
Qed.

End TableProperties.

(** ** export.py: what the texts hold *)

Lemma occurs_in_here (p post : pystr) : occurs_in p (p ++ post).
Proof. exists [], post. reflexivity. Qed.

Lemma occurs_in_app_r (p a s : pystr) : occurs_in p s -> occurs_in p (a ++ s).
Proof.
  intros [pre [post ->]]. exists (a ++ pre), post. rewrite <- app_assoc. reflexivity.
Qed.

Lemma occurs_in_app_l (p s b : pystr) : occurs_in p s -> occurs_in p (s ++ b).
Proof.
  intros [pre [post ->]]. exists pre, (post ++ b). rewrite <- !app_assoc. reflexivity.
Qed.

Lemma occurs_in_concat (p s : pystr) (rows : list pystr) :
  In s rows -> occurs_in p s -> occurs_in p (concat rows).
Proof.
  intros Hin Hp. apply in_split in Hin. destruct Hin as [before [after ->]].
  rewrite concat_app. cbn [concat]. apply occurs_in_app_r, occurs_in_app_l. exact Hp.
Qed.

Ltac occurs := repeat first [apply occurs_in_here | apply occurs_in_app_r].

(** X19. [export_html] writes the fields of a record into the page as
    they are, without escaping: the name and the status of every record,
    its fix and its details when they are not empty, occur verbatim in
    the text of the report. *)
Theorem export_html_writes_fields_verbatim (output_file : option pystr) (w : World)
    (issue : DiagnosticIssue) :
  In issue (mem w) ->
  exists text,
    written (export_html output_file w) = Some text
    /\ occurs_in (name issue) text
    /\ occurs_in (status issue) text
    /\ (fix_ issue <> [] -> occurs_in (fix_ issue) text)
    /\ (forall d, details issue = Some d -> d <> [] -> occurs_in d text).
Proof.
  intros Hin. eexists. split; [apply export_html_writes|].
  assert (Hrow : forall p, occurs_in p (html_row issue) ->
                           occurs_in p (html_head (strftime (now w)) __version__
                                          (length (mem w))
                                          (count_where (fun i => contains (str "PASS") (status i)) (mem w))
                                          (count_where (fun i => bool_decide (severity i = str "warning")
                                             && (contains (str "WARN") (status i)
                                                 || contains (str "FAIL") (status i))) (mem w))
                                          (count_where (fun i => bool_decide (severity i = str "critical")
                                             && contains (str "FAIL") (status i)) (mem w))
                                        ++ concat (map html_row (mem w)) ++ html_foot)).
  { intros p Hp. apply occurs_in_app_r, occurs_in_app_l.
    apply (occurs_in_concat p (html_row issue)); [apply in_map; exact Hin | exact Hp]. }
  split; [apply Hrow; unfold html_row; cbv zeta; occurs|].
  split; [apply Hrow; unfold html_row; cbv zeta; occurs|].
  split.
  - intros Hfix. apply Hrow. unfold html_row. cbv zeta.
    destruct (fix_ issue) as [|c s] eqn:Hf; [contradiction|].
    cbn [or_dash]. occurs.
  - intros d Hd Hne. apply Hrow. unfold html_row. cbv zeta. rewrite Hd.
    destruct d as [|c s]; [contradiction|]. cbn [default or_dash]. occurs.
Qed.

(** The theorem at the record of the missing driver in [two_records]. *)
Lemma export_html_writes_fields_verbatim_witness :
  let issue := {| name := str "NVIDIA GPU Driver";
                  status := str "FAIL - nvidia-smi not found";
                  severity := str "critical";
                  fix_ := str "Install NVIDIA drivers";
                  details := None |} in
  exists text,
    written (export_html None two_records) = Some text
    /\ occurs_in (name issue) text
    /\ occurs_in (status issue) text
    /\ (fix_ issue <> [] -> occurs_in (fix_ issue) text)
    /\ (forall d, details issue = Some d -> d <> [] -> occurs_in d text).
Proof.
  cbn zeta. apply (export_html_writes_fields_verbatim None two_records).
  left. reflexivity.
Defined.

Lemma hex_digit_injective (n m : N) :
  n < 16 -> m < 16 -> hex_digit n = hex_digit m -> n = m.
Proof.
  unfold hex_digit. intros Hn Hm.
  destruct (N.ltb_spec n 10), (N.ltb_spec m 10); lia.
Qed.

Ltac tests c :=
  destruct (N.eqb_spec c 34) as [->|?];
  [|destruct (N.eqb_spec c 92) as [->|?];
    [|destruct (N.eqb_spec c 10) as [->|?];
      [|destruct (N.eqb_spec c 13) as [->|?];
        [|destruct (N.eqb_spec c 9) as [->|?];
          [|destruct (N.eqb_spec c 8) as [->|?];
            [|destruct (N.eqb_spec c 12) as [->|?];
              [|destruct (N.ltb_spec c 32)]]]]]]].

Lemma hex_digit_printable (n : N) : 32 <= hex_digit n.
Proof. unfold hex_digit. destruct (N.ltb_spec n 10); lia. Qed.

Lemma escape_char_control (c : N) : Forall (fun x => 32 <= x) (escape_char c).
Proof.
  unfold escape_char. tests c; cbn [app str N_of_ascii];
    repeat (apply List.Forall_cons;
            [first [apply hex_digit_printable | assumption | discriminate]|]);
    apply List.Forall_nil.
Qed.

Lemma escape_char_prefix (c d : N) (x y : pystr) :
  escape_char c ++ x = escape_char d ++ y -> c = d /\ x = y.
Proof.
  unfold escape_char. tests c; tests d; cbn [app str N_of_ascii]; intros Heq;
    try discriminate Heq;
    try (injection Heq; intros; subst; first [now split | exfalso; congruence]).
  (* both are written as \u00XX *)
  injection Heq as H1 H2 ->. split; [|reflexivity].
  assert (Hc1 : c / 16 < 16) by (apply N.Div0.div_lt_upper_bound; lia).
  assert (Hd1 : d / 16 < 16) by (apply N.Div0.div_lt_upper_bound; lia).
  assert (Hc2 : c mod 16 < 16) by (apply N.mod_lt; lia).
  assert (Hd2 : d mod 16 < 16) by (apply N.mod_lt; lia).
  apply hex_digit_injective in H1; [|assumption..].
  apply hex_digit_injective in H2; [|assumption..].
  rewrite (N.div_mod c 16), (N.div_mod d 16), H1, H2 by lia. reflexivity.
Qed.

Lemma concat_escape_injective (s t : pystr) (x y : pystr) :
  concat (map escape_char s) ++ dq :: x = concat (map escape_char t) ++ dq :: y ->
  s = t /\ x = y.
Proof.
  unfold dq. revert t. induction s as [|c s IH]; intros [|d t]; cbn [map concat app].
  - intros [= ->]. split; reflexivity.
  - intros H. exfalso. revert H. unfold escape_char. tests d; cbn [app str N_of_ascii];
      intros Heq; first [discriminate Heq | injection Heq; intros; subst; congruence].
  - intros H. exfalso. revert H. unfold escape_char. tests c; cbn [app str N_of_ascii];
      intros Heq; first [discriminate Heq | injection Heq; intros; subst; congruence].
  - rewrite <- !app_assoc. intros H. apply escape_char_prefix in H.
    destruct H as [-> H]. apply IH in H. destruct H as [-> ->]. split; reflexivity.
Qed.

Lemma encode_basestring_prefix (s t x y : pystr) :
  encode_basestring s ++ x = encode_basestring t ++ y -> s = t /\ x = y.
Proof.
  unfold encode_basestring. rewrite <- !app_assoc. cbn [app].
  intros H. injection H as H. exact (concat_escape_injective s t x y H).
Qed.

Lemma dumps_details_prefix (level : nat) (a b : option pystr) (x y : pystr) :
  dumps level (match a with Some d => JStr d | None => JNull end) ++ lf :: x
  = dumps level (match b with Some d => JStr d | None => JNull end) ++ lf :: y ->
  a = b /\ x = y.
Proof.
  destruct a as [d|], b as [d'|]; cbn [dumps].
  - intros H. apply encode_basestring_prefix in H. destruct H as [-> [= ->]]. auto.
  - unfold encode_basestring. cbn. discriminate.
  - unfold encode_basestring. cbn. discriminate.
  - cbn. intros [= ->]. auto.
Qed.

(** The text of a record in the list of the export, field by field. *)
Lemma issue_to_dict_text (a : DiagnosticIssue) (x : pystr) :
  dumps 2 (issue_to_dict a) ++ x
  = (str "{" ++ newline_indent 3 ++ encode_basestring (str "name") ++ str ": ")
      ++ encode_basestring (name a)
      ++ (str "," ++ newline_indent 3 ++ encode_basestring (str "status") ++ str ": ")
      ++ encode_basestring (status a)
      ++ (str "," ++ newline_indent 3 ++ encode_basestring (str "severity") ++ str ": ")
      ++ encode_basestring (severity a)
      ++ (str "," ++ newline_indent 3 ++ encode_basestring (str "fix") ++ str ": ")
      ++ encode_basestring (fix_ a)
      ++ (str "," ++ newline_indent 3 ++ encode_basestring (str "details") ++ str ": ")
      ++ dumps 3 (match details a with Some d => JStr d | None => JNull end)
      ++ lf :: (repeat 32 4 ++ str "}" ++ x).
Proof.
  unfold issue_to_dict. cbn [dumps map join fst snd].
  rewrite <- !app_assoc. reflexivity.
Qed.

Lemma issue_to_dict_prefix (a b : DiagnosticIssue) (x y : pystr) :
  dumps 2 (issue_to_dict a) ++ x = dumps 2 (issue_to_dict b) ++ y -> a = b /\ x = y.
Proof.
  rewrite !issue_to_dict_text. intros H.
  apply app_inv_head in H. apply encode_basestring_prefix in H. destruct H as [Hname H].
  apply app_inv_head in H. apply encode_basestring_prefix in H. destruct H as [Hstatus H].
  apply app_inv_head in H. apply encode_basestring_prefix in H. destruct H as [Hsev H].
  apply app_inv_head in H. apply encode_basestring_prefix in H. destruct H as [Hfix H].
  apply app_inv_head in H. apply dumps_details_prefix in H. destruct H as [Hdet H].
  apply app_inv_head in H. apply (app_inv_head (str "}")) in H.
  split; [|exact H].
  destruct a, b. cbn in *. congruence.
Qed.

(** The items of a non-empty list of the export, up to the closing
    bracket. *)
Lemma joined_records_prefix (a b : list DiagnosticIssue) (x y : pystr) :
  a <> [] -> b <> [] ->
  join (str "," ++ newline_indent 2) (map (dumps 2) (map issue_to_dict a)) ++ lf :: x
  = join (str "," ++ newline_indent 2) (map (dumps 2) (map issue_to_dict b)) ++ lf :: y ->
  a = b /\ x = y.
Proof.
  revert b. induction a as [|r a IH]; intros [|r' b] Ha Hb; try contradiction.
  destruct a as [|r2 a], b as [|r2' b].
  - cbn [map join]. intros H. apply issue_to_dict_prefix in H.
    destruct H as [-> [= ->]]. auto.
  - cbn [map join]. rewrite <- !app_assoc. intros H. apply issue_to_dict_prefix in H.
    destruct H as [_ H]. cbn in H. discriminate.
  - cbn [map join]. rewrite <- !app_assoc. intros H. apply issue_to_dict_prefix in H.
    destruct H as [_ H]. cbn in H. discriminate.
  - change (join ?sep (map ?f (map ?g (?p :: ?q :: ?l))))
      with (f (g p) ++ sep ++ join sep (map f (map g (q :: l)))).
    rewrite <- !app_assoc. intros H. apply issue_to_dict_prefix in H.
    destruct H as [-> H]. apply app_inv_head in H. apply app_inv_head in H.
    apply IH in H; [|discriminate..]. destruct H as [-> ->]. auto.
Qed.

Lemma dumps_records_prefix (a b : list DiagnosticIssue) (x y : pystr) :
  dumps 1 (JList (map issue_to_dict a)) ++ x = dumps 1 (JList (map issue_to_dict b)) ++ y ->
  a = b /\ x = y.
Proof.
  destruct a as [|r a], b as [|r' b].
  - cbn. intros [= ->]. auto.
  - cbn [map dumps]. cbn. discriminate.
  - cbn [map dumps]. cbn. discriminate.
  - change (dumps 1 (JList (map issue_to_dict (?p :: ?l))))
      with (str "[" ++ newline_indent 2
              ++ join (str "," ++ newline_indent 2) (map (dumps 2) (map issue_to_dict (p :: l)))
              ++ newline_indent 1 ++ str "]").
    rewrite <- !app_assoc. intros H.
    apply (app_inv_head (str "[")) in H. apply (app_inv_head (newline_indent 2)) in H.
    change (newline_indent 1 ++ ?z) with (lf :: (repeat 32 2 ++ z)) in H.
    apply joined_records_prefix in H; [|discriminate..].
    destruct H as [-> H]. apply app_inv_head in H. apply (app_inv_head (str "]")) in H.
    auto.
Qed.

(** X20. The JSON export loses nothing of the records: the text
    [export_json] builds for a list determines the list, whatever the
    metadata; so two calls that return and leave the same text in
    their files were given the same list of records, whatever the
    paths, the clocks and the choice of metadata.  And no string of the
    export breaks a line: every character of an encoded string has a
    code of 32 or more. *)
Theorem export_json_lossless :
  (forall issues issues' timestamp timestamp',
     json_text issues timestamp = json_text issues' timestamp' -> issues = issues')
  /\ (forall output_file output_file' include_metadata include_metadata' w w' path path',
        fst (export_json output_file include_metadata w) = Ok path ->
        fst (export_json output_file' include_metadata' w') = Ok path' ->
        written (export_json output_file include_metadata w)
        = written (export_json output_file' include_metadata' w') ->
        mem w = mem w')
  /\ (forall s, Forall (fun c => 32 <= c) (encode_basestring s)).
Proof.
  assert (Htext : forall issues issues' timestamp timestamp',
             json_text issues timestamp = json_text issues' timestamp' ->
             issues = issues').
  { intros l l' t t'. unfold json_text, json_dumps.
    assert (Hshape : forall l extra,
               exists rest,
                 dumps 0 (JDict ([(str "issues", JList (map issue_to_dict l));
                                  (str "summary", json_summary l)] ++ extra))
                 = (str "{" ++ newline_indent 1 ++ encode_basestring (str "issues")
                      ++ str ": ")
                     ++ dumps 1 (JList (map issue_to_dict l)) ++ rest).
    { intros l0 extra. cbn [app dumps map join fst snd].
      destruct extra as [|field extra].
      - cbn [map join]. rewrite <- !app_assoc. eexists. reflexivity.
      - change (join ?sep (?a :: ?b :: ?l)) with (a ++ sep ++ join sep (b :: l)).
        rewrite <- !app_assoc. eexists. reflexivity. }
    destruct (Hshape l match t with
                       | Some t => [(str "metadata", json_metadata t)]
                       | None => []
                       end) as [rest ->].
    destruct (Hshape l' match t' with
                        | Some t => [(str "metadata", json_metadata t)]
                        | None => []
                        end) as [rest' ->].
    intros H. apply app_inv_head in H. apply dumps_records_prefix in H. tauto. }
  split; [exact Htext|]. split.
  - intros p p' m m' w w' path path' _ _. rewrite !export_json_writes.
    intros H. apply (inj Some) in H.
    apply (Htext (mem w) (mem w') (if m then Some (now w) else None)
             (if m' then Some (now w') else None)).
    unfold json_text. destruct m, m'; exact H.
  - intros s. unfold encode_basestring.
    apply Forall_app. split; [repeat constructor; discriminate|].
    apply Forall_app. split; [|repeat constructor; discriminate].
    induction s as [|c s IH]; cbn [map concat]; [constructor|].
    apply Forall_app. split; [apply escape_char_control | exact IH].
Qed.

Lemma count_where_le (cond : DiagnosticIssue -> bool) (issues : list DiagnosticIssue) :
  (count_where cond issues <= length issues)%nat.
Proof.
  induction issues as [|i issues IH]; [cbn; lia|].
  rewrite count_where_cons. cbn [length]. destruct (cond i); lia.
Qed.

Lemma count_where_disjoint (a b : DiagnosticIssue -> bool) (issues : list DiagnosticIssue) :
  (forall i, a i = true -> b i = false) ->
  (count_where a issues + count_where b issues <= length issues)%nat.
Proof.
  intros Hab. induction issues as [|i issues IH]; [cbn; lia|].
  rewrite !count_where_cons. cbn [length].
  pose proof (Hab i) as Hi.
  destruct (a i), (b i); first [discriminate (Hi eq_refl) | lia].
Qed.

(** X21. The numbers of a summary are consistent with its total: no
    more records are counted as passed than there are records, and the
    records counted as critical and those counted as warnings are
    different records, so that together they are no more than the
    total. *)
Theorem summary_counts_are_bounded (issues : list DiagnosticIssue) :
  exists passed warnings critical,
    json_summary issues = summary_dict (length issues) passed warnings critical
    /\ (passed <= length issues)%nat
    /\ (critical + warnings <= length issues)%nat.
Proof.
  eexists _, _, _. split; [reflexivity|]. split; [apply count_where_le|].
  apply count_where_disjoint. intros i Hi.
  apply andb_true_iff in Hi. destruct Hi as [Hs _].
  apply bool_decide_eq_true in Hs. rewrite Hs. reflexivity.
Qed.

(** ** cli.py: the files the command writes *)




Section CliProperties.

Import Cli.

Lemma only_prints_ret {A} (a : A) : only_prints (mret a).
Proof. intros w. repeat split. Qed.

Lemma only_prints_bind {A B} (m : IO A) (f : A -> IO B) :
  only_prints m -> (forall a, only_prints (f a)) -> only_prints (m ≫= f).
Proof.
  intros Hm Hf w. unfold mbind, IO_bind. specialize (Hm w).
  destruct (m w) as [[a | e] w']; cbn [snd] in *; [|exact Hm].
  destruct (Hf a w') as [H1 [H2 [H3 H4]]]. destruct Hm as [M1 [M2 [M3 M4]]].
  rewrite H1, H2, H3, H4. auto.
Qed.


Lemma only_prints_on_console (r : rendered) : only_prints (on_console r).
Proof. intros w. repeat split. Qed.

Lemma only_prints_logger (lvl : Parallel.level) (msg : pystr) : only_prints (logger lvl msg).
Proof. intros w. repeat split. Qed.

Lemma only_prints_lift {A} (r : result A) : only_prints (lift r).
Proof. intros w. repeat split. Qed.

Lemma only_prints_emit (events : list event) : only_prints (emit events).
Proof.
  induction events as [|[line | lvl msg] events IH]; cbn [emit].
  - apply only_prints_ret.
  - apply only_prints_bind; [apply only_prints_on_console | intros _; exact IH].
  - apply only_prints_bind; [apply only_prints_logger | intros _; exact IH].
Qed.



Lemma only_prints_call_diagnose_env (env : Env) (use_emojis full : bool)
    (completion_core completion_extended : list nat) :
  only_prints (call_diagnose_env env use_emojis full completion_core completion_extended).
Proof.
  unfold call_diagnose_env.
  destruct (diagnose_env env use_emojis full true completion_core completion_extended)
    as [events r].
  apply only_prints_bind; [apply only_prints_emit | intros _; apply only_prints_lift].
Qed.





End CliProperties.


(** Two paths that name one file, one relative and one absolute: the
    file holds what was written last, the HTML text, and the CSV text
    is lost. *)
Example diagnose_overwrites_a_file_named_twice :
  let issues := produced (snd (diagnose_env broken_env false false true [0; 1; 2]%nat [])) in
  let final :=
    snd (Cli.diagnose broken_env false false (Some (str "out.json"))
           (Some (str "report")) (Some (str "/work/report")) (Ok [])
           [0; 1; 2]%nat [] current_directory) in
  file_at final (str "report") = file_at final (str "/work/report")
  /\ (exists generated,
        files final !! file_at final (str "report")
        = Some (html_text issues generated))
  /\ files final !! file_at final (str "report") <> Some (csv_text issues).
Proof.
  cbn zeta. split; [reflexivity|].
  split; [exists (now current_directory); vm_compute; reflexivity|].
  vm_compute. discriminate.
Qed.

(** A path that holds a closing tag, that of a file in a directory
    whose name ends in a bracket, stops the command at the line that
    announces the first export: the JSON file is written, the other two
    are not. *)
Example diagnose_stops_at_a_refused_path :
  let run :=
    Cli.diagnose broken_env false false (Some (str "d[/x].json"))
      (Some (str "out.csv")) (Some (str "out.html")) (Ok [])
      [0; 1; 2]%nat [] strict_console in
  fst run
  = Raise (builtin_error MarkupError
             (str "closing tag '[/x]' at position 25 doesn't match any open tag"))
  /\ is_Some (files (snd run) !! str "d[/x].json")
  /\ files (snd run) !! str "out.csv" = None
  /\ files (snd run) !! str "out.html" = None.
Proof.
  cbn zeta. split; [vm_compute; reflexivity|].
  split; [vm_compute; eauto|]. split; vm_compute; reflexivity.
Qed.

Section CliFailure.

Import Cli.

(** X23. When [diagnose_env] raises, the command stops there: the
    exception leaves the command, no table is printed after the output
    of [diagnose_env], no file is written and the list [issues] is left
    as it was. *)
Theorem diagnose_exports_nothing_on_failure (env : Env) (use_emojis full : bool)
    (json_output csv_output html_output : option pystr)
    (benchmarks : result (list (pystr * Q)))
    (completion_core completion_extended : list nat) (e : exn) (w : World) :
  snd (diagnose_env env use_emojis full true completion_core completion_extended)
  = Raise e ->
  let run := diagnose env use_emojis full json_output csv_output html_output benchmarks
               completion_core completion_extended w in
  fst run = Raise e
  /\ snd run
     = snd (emit (fst (diagnose_env env use_emojis full true completion_core
                         completion_extended)) w)
  /\ mem (snd run) = mem w
  /\ files (snd run) = files w.
Proof.
  intros Hrun. cbn zeta.
  pose proof (only_prints_call_diagnose_env env use_emojis full completion_core
                completion_extended w) as [Hmem [Hfiles _]].
  unfold diagnose, call_diagnose_env in *.
  destruct (diagnose_env env use_emojis full true completion_core completion_extended)
    as [events r]. cbn [fst snd] in *. subst r.
  destruct (emit_returns events w) as [w1 Hemit].
  unfold mbind, IO_bind in *. rewrite Hemit in *. cbn [fst snd lift] in *.
  auto.
Qed.

End CliFailure.

(** The theorem in [broken_env], when only the first core check
    completes in time. *)
Lemma diagnose_exports_nothing_on_failure_witness :
  let run := Cli.diagnose broken_env false false (Some (str "out.json")) None None
               (Ok []) [0]%nat [] at_noon in
  fst run = Raise (Parallel.unfinished 3 1)
  /\ snd run = snd (Cli.emit (fst (diagnose_env broken_env false false true [0]%nat [])) at_noon)
  /\ mem (snd run) = mem at_noon
  /\ files (snd run) = files at_noon.
Proof.
  cbn zeta.
  apply (diagnose_exports_nothing_on_failure broken_env false false
           (Some (str "out.json")) None None (Ok []) [0]%nat []
           (Parallel.unfinished 3 1) at_noon).
  vm_compute. reflexivity.
Defined.

(** ** config.py *)

Section ConfigProperties.

Import Config.

Lemma get_config_value_None (keys : list pystr) (default : value) :
  get_config_value VNone keys default = default.
Proof. destruct keys; reflexivity. Qed.

(** X24. [get_config_value] walks the keys one table at a time:
    looking up [keys ++ more] is looking up [more] in what [keys] leads
    to, and gives [default] when that is nothing.  A value of [None]
    counts as missing: the function returns [None] only when [default]
    is [None]. *)
Theorem get_config_value_walks_the_path (config : value) (keys more : list pystr)
    (default : value) :
  get_config_value config (keys ++ more) default
  = match get_config_value config keys VNone with
    | VNone => default
    | found => get_config_value found more default
    end
  /\ (get_config_value config keys default = VNone -> default = VNone).
Proof.
  split.
  - revert config. induction keys as [|key keys IH]; intros config.
    + cbn [app get_config_value]. destruct config; try reflexivity.
      apply get_config_value_None.
    + cbn [app get_config_value]. destruct config; try reflexivity.
      destruct (fields !! key) as [[]|]; try reflexivity; apply IH.
  - revert config. induction keys as [|key keys IH]; intros config.
    + cbn [get_config_value]. destruct config; try discriminate. auto.
    + cbn [get_config_value]. destruct config; auto.
      destruct (fields !! key) as [[]|]; auto; apply IH.
Qed.

(** What the loop of [load_config] leaves under each section. *)
Lemma merge_sections (fs : Files) (user_config : list (pystr * value))
    (merged_config merged : dict) :
  List.NoDup (map fst user_config) ->
  merge fs user_config merged_config = Ok merged ->
  (forall section, ~ In section (map fst user_config) ->
                   merged !! section = merged_config !! section)
  /\ (forall section fields, In (section, VDict fields) user_config ->
        merged !! section
        = Some (VDict match merged_config !! section with
                      | Some (VDict defaults) => fields ∪ defaults
                      | _ => fields
                      end)).
Proof.
  revert merged_config.
  induction user_config as [|[section values] rest IH]; intros merged_config Hnd Hrun.
  - injection Hrun as <-. split; [reflexivity | intros ? ? []].
  - cbn [map fst] in Hnd. apply List.NoDup_cons_iff in Hnd. destruct Hnd as [Hfresh Hnd].
    cbn [merge] in Hrun.
    assert (Hstep : exists stored,
               merge fs rest (<[section := stored]> merged_config) = Ok merged
               /\ forall fields, values = VDict fields ->
                    stored = VDict match merged_config !! section with
                                   | Some (VDict defaults) => fields ∪ defaults
                                   | _ => fields
                                   end).
    { destruct (merged_config !! section) as [[]|] eqn:Hsec;
        try (exists values; split; [exact Hrun | intros fields ->; reflexivity]).
      unfold mbind, result_bind in Hrun.
      destruct values;
        try (destruct (dict_update fs fields _) as [updated|e]; [|discriminate];
             eexists; split; [exact Hrun | intros ? [=]]).
      eexists. split; [exact Hrun|]. intros ? [= <-]. reflexivity. }
    destruct Hstep as [stored [Hrest Hstored]].
    destruct (IH _ Hnd Hrest) as [Hout Hin]. split.
    + intros other Hother. cbn [map fst In] in Hother.
      rewrite Hout by tauto. apply lookup_insert_ne. intros ->. tauto.
    + intros other fields [[= <- ->] | Hother].
      * rewrite (Hout section Hfresh), lookup_insert_eq, (Hstored fields eq_refl).
        reflexivity.
      * assert (Hne : section <> other).
        { intros ->. apply Hfresh. apply (in_map fst) in Hother. exact Hother. }
        rewrite (Hin other fields Hother), lookup_insert_ne by exact Hne. reflexivity.
Qed.

(** A configuration file that exists is loaded and merged. *)
Lemma load_config_merges (fs : Files) (path : pystr) (load : loader)
    (user_config : list (pystr * value)) (config : dict) :
  load_config fs (Some path) = Ok config ->
  toml_loader fs = Some load ->
  load path = Ok user_config ->
  merge fs user_config default_config = Ok config.
Proof.
  unfold load_config, toml_loader, mbind, result_bind. intros Hrun Hloader Hload.
  destruct (path_exists fs path) as [[]|e] eqn:Hex; cbn [negb] in Hrun; try discriminate.
  rewrite Hex in Hrun. cbn [negb] in Hrun.
  assert (Hsame : match tomllib fs, tomli fs with
                  | Some load, _ => load path
                  | None, Some load => load path
                  | None, None =>
                      Raise (doctor_error ConfigurationError
                               (str "TOML parsing not available. Install tomli: pip install tomli")
                               (str "Or upgrade to Python 3.11+"))
                  end = Ok user_config).
  { destruct (tomllib fs) as [l|]; [injection Hloader as ->; exact Hload|].
    rewrite Hloader. exact Hload. }
  rewrite Hsame in Hrun.
  destruct (merge fs user_config default_config) as [merged|e]; [exact Hrun|].
  destruct (isinstance e Exception); discriminate.
Qed.

(** X25. A key the configuration file sets, to a value that is not
    [None], is found at that value in the configuration [load_config]
    returns, whether or not the defaults have the section; a key the
    file does not set is found as in the defaults.  The sections of the
    file are tables. *)
Theorem load_config_overrides_defaults (fs : Files) (path : pystr) (load : loader)
    (user_config : list (pystr * value)) (config : dict) :
  load_config fs (Some path) = Ok config ->
  toml_loader fs = Some load ->
  load path = Ok user_config ->
  List.NoDup (map fst user_config) ->
  (forall section fields key found default,
     In (section, VDict fields) user_config ->
     fields !! key = Some found -> found <> VNone ->
     get_config_value (VDict config) [section; key] default = found)
  /\ (forall section key default,
        (forall values, In (section, values) user_config ->
                        exists fields, values = VDict fields /\ fields !! key = None) ->
        get_config_value (VDict config) [section; key] default
        = get_config_value (VDict default_config) [section; key] default).
Proof.
  intros Hrun Hloader Hload Hnd.
  pose proof (load_config_merges fs path load user_config config Hrun Hloader Hload)
    as Hmerge.
  destruct (merge_sections fs user_config default_config config Hnd Hmerge)
    as [Hout Hin].
  split.
  - intros section fields key found default Hsec Hkey Hfound.
    cbn [get_config_value]. rewrite (Hin section fields Hsec).
    assert (Hlook : match default_config !! section with
                    | Some (VDict defaults) => fields ∪ defaults
                    | _ => fields
                    end !! key = Some found).
    { destruct (default_config !! section) as [[]|]; try exact Hkey.
      apply lookup_union_Some_l. exact Hkey. }
    rewrite Hlook. destruct found; try reflexivity. contradiction.
  - intros section key default Huser. cbn [get_config_value].
    destruct (List.in_dec (fun a b : pystr => decide (a = b)) section
                (map fst user_config)) as [Hset | Hnot].
    + apply in_map_iff in Hset. destruct Hset as [[s values] [Hs Hpair]].
      cbn [fst] in Hs. subst s.
      destruct (Huser values Hpair) as [fields [-> Hkey]].
      rewrite (Hin section fields Hpair).
      destruct (default_config !! section) as [[]|] eqn:Hdef;
        try (rewrite Hkey; reflexivity).
      rewrite (lookup_union_r _ _ _ Hkey). reflexivity.
    + rewrite (Hout section Hnot). reflexivity.
Qed.

(** The theorem at [project_files]: the file sets the log level and
    adds a section. *)
Lemma load_config_overrides_defaults_witness :
  (forall section fields key found default,
     In (section, VDict fields) project_toml ->
     fields !! key = Some found -> found <> VNone ->
     get_config_value (VDict project_config) [section; key] default = found)
  /\ (forall section key default,
        (forall values, In (section, values) project_toml ->
                        exists fields, values = VDict fields /\ fields !! key = None) ->
        get_config_value (VDict project_config) [section; key] default
        = get_config_value (VDict default_config) [section; key] default).
Proof.
  apply (load_config_overrides_defaults project_files (str "mlenvdoctor.toml")
           (fun _ => Ok project_toml) project_toml project_config).
  - vm_compute. reflexivity.
  - reflexivity.
  - reflexivity.
  - repeat (apply List.NoDup_cons; [cbn [In map fst]; intuition discriminate|]).
    apply List.NoDup_nil.
Defined.

Example project_config_values :
  get_config_value (VDict project_config) [str "logging"; str "level"] VNone
  = VStr (str "DEBUG")
  /\ get_config_value (VDict project_config) [str "logging"; str "file"] (VStr (str "-"))
     = VStr (str "-")
  /\ get_config_value (VDict project_config) [str "fix"; str "default_stack"] VNone
     = VStr (str "trl-peft")
  /\ get_config_value (VDict project_config) [str "cache"; str "dir"] VNone
     = VStr (str "/tmp/hf").
Proof. vm_compute. repeat split. Qed.

(** X26. [load_config] raises a [ConfigurationError] for a path it is
    given and does not find.  Whatever goes wrong while an existing
    file is read and merged, be it the loader that raises, the merge,
    or the missing TOML library, makes [load_config] raise: a
    [ConfigurationError] that names the file and the error and is
    raised from the original exception when that derives from
    [Exception], the original exception otherwise; so every
    [Exception] that leaves it is a [ConfigurationError] with a cause.
    Without a path, when none of the three default files exists, it
    returns the defaults. *)
Theorem load_config_failures (fs : Files) (path : pystr) :
  (path_exists fs path = Ok false ->
   load_config fs (Some path)
   = Raise (doctor_error ConfigurationError (str "Config file not found: " ++ path)
              (str "Create the file or use default configuration")))
  /\ (path_exists fs path = Ok true ->
      (forall load cause,
         toml_loader fs = Some load -> load path = Raise cause ->
         load_config fs (Some path)
         = Raise (if isinstance cause Exception then parse_error path cause else cause))
      /\ (forall load user_config cause,
            toml_loader fs = Some load -> load path = Ok user_config ->
            merge fs user_config default_config = Raise cause ->
            load_config fs (Some path)
            = Raise (if isinstance cause Exception then parse_error path cause
                     else cause))
      /\ (toml_loader fs = None ->
          load_config fs (Some path) = Raise (parse_error path toml_not_available))
      /\ (forall e, load_config fs (Some path) = Raise e ->
                    isinstance e Exception = true ->
                    exn_class e = ConfigurationError
                    /\ exists cause, exn_cause e = Some cause))
  /\ (forall home, home_config_file fs = Ok home ->
        (forall candidate,
           In candidate [str "mlenvdoctor.toml"; str ".mlenvdoctorrc"; home] ->
           path_exists fs candidate = Ok false) ->
        load_config fs None = Ok default_config).
Proof.
  split; [|split].
  - intros Hno. unfold load_config, mbind, result_bind. rewrite Hno. reflexivity.
  - intros Hyes.
    assert (Hbody : forall body,
               match tomllib fs, tomli fs with
               | Some load, _ => load path
               | None, Some load => load path
               | None, None => Raise toml_not_available
               end ≫= (fun user_config => merge fs user_config default_config)
               = body ->
               load_config fs (Some path)
               = match body with
                 | Ok merged_config => Ok merged_config
                 | Raise e =>
                     if isinstance e Exception then Raise (parse_error path e)
                     else Raise e
                 end).
    { intros body <-. unfold load_config, toml_not_available, parse_error, mbind,
        result_bind.
      rewrite Hyes. cbn [negb]. rewrite Hyes. cbn [negb]. reflexivity. }
    assert (Hloader : forall load,
               toml_loader fs = Some load ->
               match tomllib fs, tomli fs with
               | Some load, _ => load path
               | None, Some load => load path
               | None, None => Raise toml_not_available
               end = load path).
    { intros load. unfold toml_loader.
      destruct (tomllib fs) as [l|]; [intros [= ->]; reflexivity|].
      intros ->. reflexivity. }
    split; [|split; [|split]].
    + intros load cause Hl Hraise.
      rewrite (Hbody (Raise cause)); [destruct (isinstance cause Exception); reflexivity|].
      rewrite (Hloader load Hl), Hraise. reflexivity.
    + intros load user_config cause Hl Hload Hmerge.
      rewrite (Hbody (Raise cause)); [destruct (isinstance cause Exception); reflexivity|].
      rewrite (Hloader load Hl), Hload. exact Hmerge.
    + intros Hnone. unfold toml_loader in Hnone.
      destruct (tomllib fs) as [l|]; [discriminate|].
      rewrite (Hbody (Raise toml_not_available)); [reflexivity|].
      rewrite Hnone. reflexivity.
    + intros e. erewrite Hbody by reflexivity.
      match goal with
      | |- context [match ?body with Ok _ => _ | Raise _ => _ end] =>
          destruct body as [merged|cause]
      end; [discriminate|].
      destruct (isinstance cause Exception) eqn:Hc.
      * intros [= <-] _. split; [reflexivity | eexists; reflexivity].
      * intros [= <-] He. congruence.
  - intros home Hhome Hnone. unfold load_config, mbind, result_bind.
    rewrite Hhome. cbn [search]. unfold mbind, result_bind.
    rewrite !Hnone by (cbn [In]; tauto). reflexivity.
Qed.

End ConfigProperties.
